(** * The PFS file driver ([driver_file.go]) and the PFS master ([master.go])

    A shallow embedding of the file-level operations of the PFS driver and of
    the master loop, together with the properties their specification states.

    The driver talks to collaborators (commit inspection, the commit store,
    the fileset storage, the auth server, the clock).  Every call to a
    collaborator is an event of type [Call]; a driver method is a program
    [Prog R], a finite tree of such calls, and [run] executes a program
    against an arbitrary environment [Env] that answers the calls while
    threading its own state.  [run] records the calls in the order they are
    made, so that a theorem can say which calls an operation makes, and in
    which order, before it returns. *)

From Stdlib Require Import String Ascii List ZArith Lia Bool Arith.
From Stdlib Require Import DecimalString Sorted.
From Stdlib Require DecimalPos DecimalZ.
From ITree Require ITree ITreeFacts Props.Leaf Events.State Events.StateFacts.
Import ListNotations.

Local Open Scope list_scope.
Local Open Scope string_scope.

(** ** Go strings

    A Go string is a sequence of bytes: a [string], one [ascii] per byte. *)

Module strings.

(** [strings.HasPrefix(s, prefix)]. *)
Definition HasPrefix (s prefix : string) : bool := String.prefix prefix s.

(** The last byte of a string, if it has one. *)
Fixpoint last_char (s : string) : option ascii :=
  match s with
  | EmptyString => None
  | String c EmptyString => Some c
  | String _ s' => last_char s'
  end.

(** [strings.HasSuffix(s, "/")]. *)
Definition HasSuffix_slash (s : string) : bool :=
  match last_char s with Some "/"%char => true | _ => false end.

(** Go's [a <= b] on strings: the bytes compared in order. *)
Definition le (a b : string) : Prop := String.leb a b = true.

End strings.

(** ** The protocol types the driver handles ([pfs], [index], [fileset]) *)

Module pfs.

Record Repo := mkRepo { Repo_Name : string }.

Record Commit := mkCommit { Commit_Repo : Repo; Commit_ID : string }.

Record File := mkFile { File_Commit : Commit; File_Path : string }.

(** [CommitInfo.Finished] is a pointer to a timestamp: [None] is Go's [nil]. *)
Record CommitInfo := mkCommitInfo {
  CommitInfo_Commit : Commit;
  CommitInfo_ParentCommit : option Commit;
  CommitInfo_Finished : option Z
}.

Record FileInfo := mkFileInfo { FileInfo_File : File }.

Inductive CommitState := CommitState_STARTED | CommitState_READY | CommitState_FINISHED.

End pfs.

Module auth.
Inductive Scope := Scope_NONE | Scope_READER | Scope_WRITER | Scope_OWNER.
End auth.

Module index.

(** An index entry: the path it describes, the tag of the write and whether
    the write is a deletion. *)
Record Index := mkIndex { Path : string; Tag : string; Deleted : bool }.

Inductive Option := WithPrefix (prefix : string).

End index.

(** ** Errors *)

(** An operand of a formatting call, kept unformatted. *)
Inductive fmt_arg :=
| arg_int (n : Z)
| arg_string (s : string).

(** Go's [error] values as the driver builds and inspects them.  The three
    [pfsserver] errors carry what the source puts in them; [errors_New] and
    [errors_Errorf] keep message, format and operands; [external] is an error
    made by a collaborator. *)
Inductive error :=
| ErrCommitFinished (c : pfs.Commit)
| ErrCommitNotFinished (c : pfs.Commit)
| ErrFileNotFound (f : pfs.File)
| errors_New (msg : string)
| errors_Errorf (format : string) (args : list fmt_arg)
| external (what : string).

(** A Go function returning [error] returns [status]: [None] is [nil]. *)
Definition status := option error.

(** A Go function returning [(T, error)]. *)
Inductive result (T : Type) :=
| Ok (v : T)
| Err (e : error).
Arguments Ok {T} v.
Arguments Err {T} e.

(** How a Go call ends: it returns or it panics. *)
Inductive Outcome (R : Type) :=
| Returned (r : R)
| Panicked (msg : string).
Arguments Returned {R} r.
Arguments Panicked {R} msg.

(** ** Filesets as the driver sees them *)

Module fileset.

Definition ID := string.

(** A file of a fileset: its index entry and its content. *)
Record File := mkFile { Index : index.Index; Content : string }.

(** A [FileSet] is what [Iterate] walks: the files in the order they are
    produced, and whether producing the next file after them panics (a
    reader wrapped by [NewIndexMapper] runs the mapping function while it is
    iterated, and that function may panic). *)
Record FileSet := mkFileSet { files : list File; panics : option string }.

Definition of_list (l : list File) : FileSet := mkFileSet l None.

(** Handles on the writers and the renewer the storage hands out. *)
Definition Writer := nat.
Definition UnorderedWriter := nat.

Inductive UnorderedWriterOption := WithRenewal (ttl : Z) (renewer : nat).

(** Modelled from the spec: [Storage.Open] with index options (the storage
    layer is not among the sources).  "Open(ids, options) returns a lazy,
    finite, lexicographically path-ordered sequence of merged index entries";
    a path-prefix option "narrows the initial read range": of the entries
    the filesets hold, the reader produces those every option admits. *)
Definition admits (o : index.Option) (p : string) : bool :=
  match o with index.WithPrefix pre => strings.HasPrefix p pre end.

(** Modelled from the spec: the entries a reader opened with [opts]
    produces, of the [entries] its filesets hold (see [admits]). *)
Definition narrow (opts : list index.Option) (entries : list File) : list File :=
  filter (fun f => forallb (fun o => admits o (index.Path (Index f))) opts) entries.

(** Modelled from the spec: [NewIndexFilter] (package [fileset] is not among
    the sources).  "IndexFilter(predicate) drops entries whose path fails
    predicate", "preserving lazy evaluation and order": the predicate is
    called once per entry, in order.  A predicate is a Go closure; [S] holds
    the variables it captures and assigns ([unit] when it assigns none). *)
Fixpoint filter_with {S : Type} (pred : index.Index -> S -> bool * S) (s : S)
    (l : list File) : list File :=
  match l with
  | [] => []
  | f :: l' =>
      let (keep, s') := pred (Index f) s in
      if keep then f :: filter_with pred s' l' else filter_with pred s' l'
  end.

(** Modelled from the spec: [NewIndexFilter fs pred], see [filter_with];
    [s0] is the value the captured variables have when the filter is made. *)
Definition NewIndexFilter {S : Type} (fs : FileSet)
    (pred : index.Index -> S -> bool * S) (s0 : S) : FileSet :=
  mkFileSet (filter_with pred s0 (files fs)) (panics fs).

(** Modelled from the spec: [NewIndexMapper].  "IndexMapper(fn) rewrites
    each entry's path", lazily and in order: the entries before the first
    one on which [fn] panics are produced, then the iteration panics. *)
Fixpoint map_until_panic (fn : index.Index -> Outcome index.Index) (l : list File)
  : list File * option string :=
  match l with
  | [] => ([], None)
  | f :: l' =>
      match fn (Index f) with
      | Returned idx =>
          let (r, p) := map_until_panic fn l' in (mkFile idx (Content f) :: r, p)
      | Panicked msg => ([], Some msg)
      end
  end.

(** Modelled from the spec: [NewIndexMapper fs fn], see [map_until_panic]. *)
Definition NewIndexMapper (fs : FileSet) (fn : index.Index -> Outcome index.Index)
  : FileSet :=
  let (l, p) := map_until_panic fn (files fs) in
  mkFileSet l (match p with Some msg => Some msg | None => panics fs end).

(** Modelled from the spec: [NewIndexResolver].  "IndexResolver collapses
    duplicate-path entries per the tag/tombstone rule into one canonical
    entry per path": of the consecutive entries of one path "the last tag
    under merge order wins", "unless a tombstone entry supersedes it". *)
Definition live (f : File) : list File :=
  if index.Deleted (Index f) then [] else [f].

(** Modelled from the spec: the resolution of a path-ordered list of
    entries, see [live]: the last entry of each run of one path, if it is
    not a deletion. *)
Fixpoint resolve (l : list File) : list File :=
  match l with
  | [] => []
  | f :: l' =>
      match l' with
      | [] => live f
      | g :: _ =>
          if (index.Path (Index f) =? index.Path (Index g))%string
          then resolve l' else live f ++ resolve l'
      end
  end%list.

(** Modelled from the spec: [NewIndexResolver fs], see [resolve]. *)
Definition NewIndexResolver (fs : FileSet) : FileSet :=
  mkFileSet (resolve (files fs)) (panics fs).

(** Modelled from the spec: [NewDirInserter].  "DirInserter synthesizes
    implicit directory entries for every path prefix that has children but
    no explicit directory entry".  A directory's path ends in "/"
    ([inspectFile] looks for [p + "/"]); [parents p] are the directories
    above [p], outermost first; a directory is inserted in front of the
    first entry below it unless the stream has produced it already. *)
Fixpoint parents_from (acc p : string) : list string :=
  match p with
  | EmptyString => []
  | String c rest =>
      let acc' := (acc ++ String c EmptyString)%string in
      match rest with
      | EmptyString => []
      | String _ _ =>
          if Ascii.eqb c "/"%char then acc' :: parents_from acc' rest
          else parents_from acc' rest
      end
  end.

(** Modelled from the spec: the directories above [p], see [parents_from]. *)
Definition parents (p : string) : list string := parents_from "" p.

(** Modelled from the spec: the entry synthesized for the directory [p]. *)
Definition dirFile (p : string) : File := mkFile (index.mkIndex p "" false) "".

Definition seen (emitted : list string) (p : string) : bool :=
  existsb (String.eqb p) emitted.

(** Modelled from the spec: the stream with its directories inserted, see
    [parents_from]; [emitted] holds the paths produced so far. *)
Fixpoint insert_dirs (emitted : list string) (l : list File) : list File :=
  match l with
  | [] => []
  | f :: l' =>
      let p := index.Path (Index f) in
      let missing := filter (fun dir => negb (seen emitted dir)) (parents p) in
      map dirFile missing ++ f :: insert_dirs (p :: missing ++ emitted) l'
  end%list.

(** Modelled from the spec: [NewDirInserter fs], see [insert_dirs]. *)
Definition NewDirInserter (fs : FileSet) : FileSet :=
  mkFileSet (insert_dirs [] (files fs)) (panics fs).

End fileset.

Module renew.
Definition StringSet := nat.
End renew.

Module txnenv.
Definition TransactionContext := nat.
End txnenv.

(** ** Calls to collaborators

    One constructor per call the file driver makes outside [driver_file.go];
    the constructor carries the arguments of the call ([ctx] and the client
    apart).  A collaborator that takes a callback ([storage.WithRenewer],
    [txnEnv.WithWriteContext]) is a pair of calls around the callback: the
    first opens the scope and returns what the callback is handed, the second
    is told the callback's error and returns the error of the whole call.
    The transaction coordinator runs its callback again when the
    transaction collided: [WithWriteContext_conflict txn] asks it whether
    the pass [txn], whose callback has returned no error, collided and is to
    be run again (see [txnEnv_WithWriteContext]).
    [Writer_Append w p tag f] is [w.Append(p, cb)] for the one callback the
    driver passes: [cb] writes [tag] and then the content of [f]. *)
Inductive Call :=
| CheckIsAuthorized (r : pfs.Repo) (s : auth.Scope)
| inspectCommit (c : pfs.Commit) (st : pfs.CommitState)
| startCommit (txn : txnenv.TransactionContext) (ID : string)
    (parent : pfs.Commit) (branch : string) (provenance : list pfs.Commit)
    (description : string)
| finishCommit (txn : txnenv.TransactionContext) (c : pfs.Commit)
    (description : string)
| WithWriteContext_begin
| WithWriteContext_conflict (txn : txnenv.TransactionContext)
| WithWriteContext_end (txn : txnenv.TransactionContext) (cbErr : status)
| commitStore_AddFileset (c : pfs.Commit) (id : fileset.ID)
| commitStore_GetFileset (c : pfs.Commit)
| storage_Open (ids : list fileset.ID) (opts : list index.Option)
| storage_NewWriter
| Writer_Append (w : fileset.Writer) (p : string) (tag : string) (f : fileset.File)
| Writer_Close (w : fileset.Writer)
| storage_NewUnorderedWriter (tag : string) (opts : list fileset.UnorderedWriterOption)
| UnorderedWriter_Put (uw : fileset.UnorderedWriter) (p : string) (data : string)
| UnorderedWriter_Close (uw : fileset.UnorderedWriter)
| storage_Compact (ids : list fileset.ID) (ttl : Z)
| storage_WithRenewer_begin (ttl : Z)
| renewer_Add (r : renew.StringSet) (id : fileset.ID)
| storage_WithRenewer_end (r : renew.StringSet) (cbErr : status)
| storage_SetTTL (p : string) (ttl : Z)
| time_Now_UnixNano
| WriteTarStream (fs : fileset.FileSet).

(** What each call returns. *)
Definition Resp (c : Call) : Type :=
  match c with
  | CheckIsAuthorized _ _ => status
  | inspectCommit _ _ => result pfs.CommitInfo
  | startCommit _ _ _ _ _ _ => result pfs.Commit
  | finishCommit _ _ _ => status
  | WithWriteContext_begin => txnenv.TransactionContext
  | WithWriteContext_conflict _ => bool
  | WithWriteContext_end _ _ => status
  | commitStore_AddFileset _ _ => status
  | commitStore_GetFileset _ => result fileset.ID
  | storage_Open _ _ => result fileset.FileSet
  | storage_NewWriter => fileset.Writer
  | Writer_Append _ _ _ _ => status
  | Writer_Close _ => result fileset.ID
  | storage_NewUnorderedWriter _ _ => result fileset.UnorderedWriter
  | UnorderedWriter_Put _ _ _ => status
  | UnorderedWriter_Close _ => result fileset.ID
  | storage_Compact _ _ => result fileset.ID
  | storage_WithRenewer_begin _ => renew.StringSet
  | renewer_Add _ _ => unit
  | storage_WithRenewer_end _ _ => status
  | storage_SetTTL _ _ => result Z
  | time_Now_UnixNano => Z
  | WriteTarStream _ => status
  end.

(** ** Programs *)

(** A driver method: it returns, panics, or calls a collaborator and goes on
    with the answer. *)
Inductive Prog (R : Type) : Type :=
| Return (r : R)
| Panic (msg : string)
| Do (c : Call) (k : Resp c -> Prog R).
Arguments Return {R} r.
Arguments Panic {R} msg.
Arguments Do {R} c k.

Fixpoint bind {A B : Type} (p : Prog A) (f : A -> Prog B) : Prog B :=
  match p with
  | Return a => f a
  | Panic msg => Panic msg
  | Do c k => Do c (fun x => bind (k x) f)
  end.

Definition call (c : Call) : Prog (Resp c) := Do c (fun x => Return x).

Declare Scope prog_scope.
Delimit Scope prog_scope with prog.
Notation "x <- p ;; q" := (bind p (fun x => q))
  (at level 61, p at next level, right associativity) : prog_scope.
Notation "p ;; q" := (bind p (fun _ => q))
  (at level 61, right associativity) : prog_scope.
Local Open Scope prog_scope.

(** Go's [defer] in a function with a named result: [deferred] is handed the
    value of the named result and returns its new value.  On a normal return
    the named result holds the returned value; while the function panics it
    holds [zero] (no body below assigns it), the deferred call still runs,
    and the panic goes on. *)
Fixpoint defer {R : Type} (zero : R) (deferred : R -> Prog R) (body : Prog R) : Prog R :=
  match body with
  | Return r => deferred r
  | Panic msg => bind (deferred zero) (fun _ => Panic msg)
  | Do c k => Do c (fun x => defer zero deferred (k x))
  end.

(** ** Running a program *)

(** An environment answers every call from a state of its own. *)
Record Env := mkEnv {
  World : Type;
  answer : forall c : Call, World -> Resp c * World
}.

(** The result of a run: how the program ended, the environment's state
    then, and the calls made, first call first. *)
Record Run (env : Env) (R : Type) := mkRun {
  outcome : Outcome R;
  world : World env;
  trace : list Call
}.
Arguments mkRun {env R}.
Arguments outcome {env R}.
Arguments world {env R}.
Arguments trace {env R}.

Definition logged {env R} (c : Call) (r : Run env R) : Run env R :=
  mkRun (outcome r) (world r) (c :: trace r).

Fixpoint run (env : Env) {R : Type} (p : Prog R) (w : World env) : Run env R :=
  match p with
  | Return r => mkRun (Returned r) w []
  | Panic msg => mkRun (Panicked msg) w []
  | Do c k => let (x, w') := answer env c w in logged c (run env (k x) w')
  end.

(** The answer of the environment to a call made in state [w], and the
    state it leaves. *)
Definition reply (env : Env) (c : Call) (w : World env) : Resp c := fst (answer env c w).
Definition after (env : Env) (c : Call) (w : World env) : World env := snd (answer env c w).

(** What [run] does with a sequence: the second program starts in the state
    the first one left, and its calls come after the first one's. *)
Definition then_run {env A B} (r : Run env A) (f : A -> Prog B) : Run env B :=
  match outcome r with
  | Returned a =>
      let r' := run env (f a) (world r) in
      mkRun (outcome r') (world r') (trace r ++ trace r')%list
  | Panicked msg => mkRun (Panicked msg) (world r) (trace r)
  end.

(** ** Iterating filesets and sources *)

(** Modelled from the spec: [FileSet.Iterate] (package [fileset] is not
    among the sources): the callback is called on each file of the "lazy,
    finite" sequence in order, the first error it returns ends the iteration
    and is returned; a reader that panics while it produces the next file
    panics the iteration.  [S] holds the variables the callback captures and
    assigns. *)
Fixpoint iterate_files {S : Type} (cb : fileset.File -> S -> Prog (status * S))
    (l : list fileset.File) (s : S) : Prog (status * S) :=
  match l with
  | [] => Return (None, s)
  | f :: l' =>
      r <- cb f s ;;
      match fst r with
      | Some err => Return (Some err, snd r)
      | None => iterate_files cb l' (snd r)
      end
  end.

(** Modelled from the spec: [fs.Iterate(ctx, cb)], see [iterate_files]. *)
Definition Iterate {S : Type} (fs : fileset.FileSet)
    (cb : fileset.File -> S -> Prog (status * S)) (s : S) : Prog (status * S) :=
  r <- iterate_files cb (fileset.files fs) s ;;
  match fst r, fileset.panics fs with
  | None, Some msg => Panic msg
  | _, _ => Return r
  end.

(** Modelled from the spec: the sources of [source.go] (not among the
    sources).  [NewSource commit fs full] produces, for each file of [fs],
    the [FileInfo] of that path in [commit] together with the file;
    [NewErrOnEmpty s err] is [s], except that iterating it fails with [err]
    when [s] produces nothing: the spec's not-found condition ("file absent
    -- surfaced directly to the caller"). *)
Inductive Source :=
| NewSource (commit : pfs.Commit) (fs : fileset.FileSet) (full : bool)
| NewErrOnEmpty (s : Source) (err : error)
| emptySource.

(** Modelled from the spec: [s.Iterate(ctx, cb)] for the sources above;
    [NewErrOnEmpty] notes in a variable of its own whether the callback was
    called. *)
Fixpoint Source_Iterate (src : Source) {S : Type}
    (cb : pfs.FileInfo -> fileset.File -> S -> Prog (status * S)) (s : S)
  : Prog (status * S) :=
  match src with
  | NewSource commit fs _ =>
      Iterate fs
        (fun f s =>
           cb (pfs.mkFileInfo (pfs.mkFile commit (index.Path (fileset.Index f)))) f s)
        s
  | NewErrOnEmpty x err =>
      r <- Source_Iterate x
             (fun fi f (es : bool * S) =>
                r <- cb fi f (snd es) ;; Return (fst r, (false, snd r)))
             (true, s) ;;
      match fst r with
      | Some e => Return (Some e, snd (snd r))
      | None => Return (if fst (snd r) then Some err else None, snd (snd r))
      end
  | emptySource => Return (None, s)
  end.

(** ** Go's [fmt.Sprint] and [time] *)

Module fmt.

Definition isString (a : fmt_arg) : bool :=
  match a with arg_string _ => true | arg_int _ => false end.

(** The [%v] rendering of an operand: an integer in decimal, a string as it is. *)
Definition printArg (a : fmt_arg) : string :=
  match a with
  | arg_int n => NilZero.string_of_int (Z.to_int n)
  | arg_string s => s
  end.

(** [doPrint]: the operands one after the other, with a space between two
    operands when neither is a string. *)
Fixpoint doPrint (first prevString : bool) (a : list fmt_arg) : string :=
  match a with
  | [] => ""
  | arg :: rest =>
      (if negb first && negb (isString arg) && negb prevString then " " else "")
      ++ printArg arg ++ doPrint false (isString arg) rest
  end.

Definition Sprint (a : list fmt_arg) : string := doPrint true false a.

(** [Sprintf("%012d", n)], what a formatting call would have made of the
    verb: the decimal digits of [n], after the sign, padded with zeros to
    twelve characters in all. *)
Fixpoint zeros (k : nat) : string :=
  match k with O => "" | S k' => String "0" (zeros k') end.

Definition Sprintf_012d (n : Z) : string :=
  let sign := if (n <? 0)%Z then "-" else "" in
  let digits := NilZero.string_of_uint (N.to_uint (Z.abs_N n)) in
  sign ++ zeros (12 - String.length sign - String.length digits) ++ digits.

End fmt.

Module time.
(** [time.Second], a [time.Duration] in nanoseconds. *)
Definition Second : Z := 1000000000.
End time.

Module client.
Definition NewCommit (repoName commitID : string) : pfs.Commit :=
  pfs.mkCommit (pfs.mkRepo repoName) commitID.
End client.

(** ** The driver's file operations ([driver_file.go]) *)

(** What [driver_file.go] uses from its own package and from the packages it
    imports and that has no definition here: [uuid]'s test for a dashless
    UUID, the classification of errors, the TTL constants, the temporary
    repo, [cleanPath], Go's [path.Join] and [filepath.Rel], [parseGlob],
    [fileset.IsDir] and [pathIsChild]; and the retry policy of the
    transaction coordinator: [txnRetries] is the number of times it runs a
    collided transaction again. *)
Record Imports := mkImports {
  IsUUIDWithoutDashes : string -> bool;
  isNotFoundErr : error -> bool;
  isNoHeadErr : error -> bool;
  defaultTTL : Z;
  maxTTL : Z;
  tmpRepo : string;
  cleanPath : string -> string;
  path_Join : list string -> string;
  filepath_Rel : string -> string -> result string;
  parseGlob : string -> result (index.Option * (string -> bool));
  IsDir : string -> bool;
  pathIsChild : string -> string -> bool;
  txnRetries : nat
}.

Section driver.

Variable d : Imports.

Definition getDefaultTag : Prog string :=
  now <- call time_Now_UnixNano ;;
  Return (fmt.Sprint [arg_string "%012d"; arg_int now]).

Definition addFileset (commit : pfs.Commit) (filesetID : fileset.ID) : Prog status :=
  r <- call (inspectCommit commit pfs.CommitState_STARTED) ;;
  match r with
  | Err err => Return (Some err)
  | Ok commitInfo =>
      match pfs.CommitInfo_Finished commitInfo with
      | Some _ => Return (Some (ErrCommitFinished (pfs.CommitInfo_Commit commitInfo)))
      | None => call (commitStore_AddFileset (pfs.CommitInfo_Commit commitInfo) filesetID)
      end
  end.

Definition getFileset (commit : pfs.Commit) : Prog (result fileset.ID) :=
  r <- call (inspectCommit commit pfs.CommitState_STARTED) ;;
  match r with
  | Err err => Return (Err err)
  | Ok commitInfo =>
      match pfs.CommitInfo_Finished commitInfo with
      | None => Return (Err (ErrCommitNotFinished (pfs.CommitInfo_Commit commitInfo)))
      | Some _ => call (commitStore_GetFileset (pfs.CommitInfo_Commit commitInfo))
      end
  end.

Definition withTmpUnorderedWriter (renewer : renew.StringSet) (compact : bool)
    (cb : fileset.UnorderedWriter -> Prog status) : Prog (result fileset.ID) :=
  let opts := [fileset.WithRenewal (defaultTTL d) renewer] in
  tag <- getDefaultTag ;;
  r <- call (storage_NewUnorderedWriter tag opts) ;;
  match r with
  | Err err => Return (Err err)
  | Ok uw =>
      e <- cb uw ;;
      match e with
      | Some err => Return (Err err)
      | None =>
          r <- call (UnorderedWriter_Close uw) ;;
          match r with
          | Err err => Return (Err err)
          | Ok id =>
              if negb compact then
                call (renewer_Add renewer id) ;; Return (Ok id)
              else
                r <- call (storage_Compact [id] (defaultTTL d)) ;;
                match r with
                | Err err => Return (Err err)
                | Ok compactedID =>
                    call (renewer_Add renewer compactedID) ;; Return (Ok compactedID)
                end
          end
      end
  end.

(** [d.storage.WithRenewer(ctx, ttl, cb)]: the two calls around the
    callback (see [Call]). *)
Definition storage_WithRenewer (ttl : Z) (cb : renew.StringSet -> Prog status) : Prog status :=
  renewer <- call (storage_WithRenewer_begin ttl) ;;
  e <- cb renewer ;;
  call (storage_WithRenewer_end renewer e).

(** Modelled from the spec: the passes of [txnEnv.WithWriteContext]
    (package [transactionenv] is not among the sources).  The operation runs
    inside an optimistic transaction; a detected conflict makes it run again
    from its first step, as many times as the retry policy allows, and once
    the retries are used up the conflict is the error of the transaction.
    One pass is the two calls around the callback (see [Call]).  A callback
    that returns an error ends the transaction in that pass, with what the
    coordinator answers to the error.  After a callback that returns no
    error, and while [retries] are left, the coordinator is asked whether
    the pass collided: if it did, the operation is run again, with one retry
    less; if not, or when no retry is left, the transaction ends, and its
    error is the result. *)
Fixpoint WithWriteContext_passes (retries : nat)
    (cb : txnenv.TransactionContext -> Prog status) : Prog status :=
  txnCtx <- call WithWriteContext_begin ;;
  e <- cb txnCtx ;;
  match e, retries with
  | None, S retries' =>
      conflict <- call (WithWriteContext_conflict txnCtx) ;;
      if conflict : bool then WithWriteContext_passes retries' cb
      else call (WithWriteContext_end txnCtx None)
  | _, _ => call (WithWriteContext_end txnCtx e)
  end.

(** [d.txnEnv.WithWriteContext(ctx, cb)]: the passes the retry policy
    allows (see [WithWriteContext_passes]). *)
Definition txnEnv_WithWriteContext (cb : txnenv.TransactionContext -> Prog status) : Prog status :=
  WithWriteContext_passes (txnRetries d) cb.

Definition withCommitUnorderedWriter (commit : pfs.Commit)
    (cb : fileset.UnorderedWriter -> Prog status) : Prog status :=
  storage_WithRenewer (defaultTTL d) (fun renewer =>
    r <- withTmpUnorderedWriter renewer false cb ;;
    match r with
    | Err err => Return (Some err)
    | Ok id => addFileset commit id
    end).

Definition oneOffModifyFile (repo branch : string)
    (cb : fileset.UnorderedWriter -> Prog status) : Prog status :=
  txnEnv_WithWriteContext (fun txnCtx =>
    r <- call (startCommit txnCtx "" (client.NewCommit repo "") branch [] "") ;;
    match r with
    | Err err => Return (Some err)
    | Ok commit =>
        defer None
          (fun retErr =>
             match retErr with
             | None => call (finishCommit txnCtx commit "")
             | Some _ => Return retErr
             end)
          (withCommitUnorderedWriter commit cb)
    end).

Definition modifyFile (commit : pfs.Commit)
    (cb : fileset.UnorderedWriter -> Prog status) : Prog status :=
  let repo := pfs.Repo_Name (pfs.Commit_Repo commit) in
  let branch :=
    if negb (IsUUIDWithoutDashes d (pfs.Commit_ID commit)) then pfs.Commit_ID commit else "" in
  r <- call (inspectCommit commit pfs.CommitState_STARTED) ;;
  match r with
  | Err err =>
      if (negb (isNotFoundErr d err) && negb (isNoHeadErr d err)) || (branch =? "")%string
      then Return (Some err)
      else oneOffModifyFile repo branch cb
  | Ok commitInfo =>
      match pfs.CommitInfo_Finished commitInfo with
      | Some _ =>
          if (branch =? "")%string
          then Return (Some (ErrCommitFinished (pfs.CommitInfo_Commit commitInfo)))
          else oneOffModifyFile repo branch cb
      | None => withCommitUnorderedWriter (pfs.CommitInfo_Commit commitInfo) cb
      end
  end.

Definition withCommitWriter (commit : pfs.Commit)
    (cb : string -> fileset.Writer -> Prog status) : Prog status :=
  r <- call (inspectCommit commit pfs.CommitState_STARTED) ;;
  match r with
  | Err err => Return (Some err)
  | Ok commitInfo =>
      match pfs.CommitInfo_Finished commitInfo with
      | Some _ => Return (Some (ErrCommitFinished (pfs.CommitInfo_Commit commitInfo)))
      | None =>
          fsw <- call storage_NewWriter ;;
          defer None
            (fun retErr =>
               r <- call (Writer_Close fsw) ;;
               match retErr with
               | None => Return (match r with Ok _ => None | Err err => Some err end)
               | Some _ => Return retErr
               end)
            (tag <- getDefaultTag ;;
             e <- cb tag fsw ;;
             match e with
             | Some err => Return (Some err)
             | None =>
                 r <- call (Writer_Close fsw) ;;
                 match r with
                 | Err err => Return (Some err)
                 | Ok id =>
                     call (commitStore_AddFileset (pfs.CommitInfo_Commit commitInfo) id)
                 end
             end)
      end
  end.

Definition openCommit (commit : pfs.Commit) (opts : list index.Option)
  : Prog (result (pfs.Commit * fileset.FileSet)) :=
  e <- call (CheckIsAuthorized (pfs.Commit_Repo commit) auth.Scope_READER) ;;
  match e with
  | Some err => Return (Err err)
  | None =>
      r <- call (inspectCommit commit pfs.CommitState_STARTED) ;;
      match r with
      | Err err => Return (Err err)
      | Ok commitInfo =>
          match pfs.CommitInfo_Finished commitInfo with
          | None => Return (Err (ErrCommitNotFinished (pfs.CommitInfo_Commit commitInfo)))
          | Some _ =>
              r <- call (commitStore_GetFileset (pfs.CommitInfo_Commit commitInfo)) ;;
              match r with
              | Err err => Return (Err err)
              | Ok id =>
                  r <- call (storage_Open [id] opts) ;;
                  match r with
                  | Err err => Return (Err err)
                  | Ok fs => Return (Ok (pfs.CommitInfo_Commit commitInfo, fs))
                  end
              end
          end
      end
  end.

(** The closure [pathTransform] of [copyFile], with the two paths it
    captures as arguments. *)
Definition pathTransform (srcPath dstPath x : string) : Outcome string :=
  match filepath_Rel d srcPath x with
  | Err _ => Panicked "cannot apply path transform"
  | Ok relPath => Returned (path_Join d [dstPath; relPath])
  end.

(** The three closures of [copyFile], each with the variables it captures
    as arguments: the predicate handed to [NewIndexFilter], the function
    handed to [NewIndexMapper] (it assigns the transformed path to the
    entry), and the callback handed to [Iterate]. *)
Definition copy_filter (srcPath : string) (idx : index.Index) (_ : unit) : bool * unit :=
  ((index.Path idx =? srcPath)%string
   || strings.HasPrefix (index.Path idx) (srcPath ++ "/"), tt).

Definition copy_mapper (srcPath dstPath : string) (idx : index.Index)
  : Outcome index.Index :=
  match pathTransform srcPath dstPath (index.Path idx) with
  | Returned p => Returned (index.mkIndex p (index.Tag idx) (index.Deleted idx))
  | Panicked msg => Panicked msg
  end.

Definition copy_append (dst : fileset.Writer) (tag : string) (f : fileset.File)
    (_ : unit) : Prog (status * unit) :=
  e <- call (Writer_Append dst (index.Path (fileset.Index f)) tag f) ;;
  Return (e, tt).

Definition copyFile (src dst : pfs.File) (overwrite : bool) : Prog status :=
  r <- call (inspectCommit (pfs.File_Commit src) pfs.CommitState_STARTED) ;;
  match r with
  | Err err => Return (Some err)
  | Ok srcCommitInfo =>
  match pfs.CommitInfo_Finished srcCommitInfo with
  | None => Return (Some (ErrCommitNotFinished (pfs.CommitInfo_Commit srcCommitInfo)))
  | Some _ =>
  let srcCommit := pfs.CommitInfo_Commit srcCommitInfo in
  r <- call (inspectCommit (pfs.File_Commit dst) pfs.CommitState_STARTED) ;;
  match r with
  | Err err => Return (Some err)
  | Ok dstCommitInfo =>
  match pfs.CommitInfo_Finished dstCommitInfo with
  | Some _ => Return (Some (ErrCommitFinished (pfs.CommitInfo_Commit dstCommitInfo)))
  | None =>
  let dstCommit := pfs.CommitInfo_Commit dstCommitInfo in
  if overwrite then Return (Some (errors_New "overwrite not yet supported"))
  else
  let srcPath := cleanPath d (pfs.File_Path src) in
  let dstPath := cleanPath d (pfs.File_Path dst) in
  r <- openCommit srcCommit [index.WithPrefix srcPath] ;;
  match r with
  | Err err => Return (Some err)
  | Ok (srcCommit, fs) =>
  let fs := fileset.NewIndexFilter fs (copy_filter srcPath) tt in
  let fs := fileset.NewIndexMapper fs (copy_mapper srcPath dstPath) in
  withCommitWriter dstCommit (fun tag dst =>
    r <- Iterate fs (copy_append dst tag) tt ;;
    Return (fst r))
  end end end end end.

(** The closure [getFile] hands to [NewIndexFilter]; [dir] is the variable
    it captures and assigns, [mf] the match function of the glob. *)
Definition get_filter (mf : string -> bool) (idx : index.Index) (dir : string)
  : bool * string :=
  if negb (dir =? "")%string && strings.HasPrefix (index.Path idx) dir
  then (true, dir)
  else
    let match_ := mf (index.Path idx) in
    (match_, if match_ && IsDir d (index.Path idx) then index.Path idx else dir).

Definition getFile (commit : pfs.Commit) (glob : string) : Prog status :=
  match parseGlob d glob with
  | Err err => Return (Some err)
  | Ok (indexOpt, mf) =>
      r <- openCommit commit [indexOpt] ;;
      match r with
      | Err err => Return (Some err)
      | Ok (commit, fs) =>
          let fs := fileset.NewDirInserter fs in
          let filter := fileset.NewIndexFilter fs (get_filter mf) "" in
          call (WriteTarStream filter)
      end
  end.

(** The closure [inspectFile] (and [walkFile]) hands to [NewIndexFilter],
    and the callback [inspectFile] iterates with; [ret] is the variable the
    callback captures and assigns. *)
Definition inspect_filter (p : string) (idx : index.Index) (_ : unit) : bool * unit :=
  ((index.Path idx =? p)%string || strings.HasPrefix (index.Path idx) (p ++ "/"), tt).

Definition inspect_callback (p : string) (fi : pfs.FileInfo) (f : fileset.File)
    (ret : option pfs.FileInfo) : Prog (status * option pfs.FileInfo) :=
  let p2 := pfs.File_Path (pfs.FileInfo_File fi) in
  Return (None, if (p2 =? p)%string || (p2 =? p ++ "/")%string then Some fi else ret).

Definition inspectFile (file : pfs.File) : Prog (result (option pfs.FileInfo)) :=
  let p := cleanPath d (pfs.File_Path file) in
  let p := if (p =? "/")%string then "" else p in
  r <- openCommit (pfs.File_Commit file) [index.WithPrefix p] ;;
  match r with
  | Err err => Return (Err err)
  | Ok (commit, fs) =>
      let fs := fileset.NewIndexResolver fs in
      let fs := fileset.NewDirInserter fs in
      let fs := fileset.NewIndexFilter fs (inspect_filter p) tt in
      let s := NewSource commit fs true in
      let s := NewErrOnEmpty s (ErrFileNotFound file) in
      r <- Source_Iterate s (inspect_callback p) None ;;
      match fst r with
      | Some err => Return (Err err)
      | None => Return (Ok (snd r))
      end
  end.

(** The closure [listFile] hands to [NewIndexFilter]. *)
Definition list_filter (name : string) (idx : index.Index) (_ : unit) : bool * unit :=
  (if (index.Path idx =? "/")%string then false
   else if (index.Path idx =? name)%string then true
   else if (index.Path idx =? name ++ "/")%string then false
   else strings.HasPrefix (index.Path idx) name, tt).

Definition listFile (file : pfs.File) (full : bool) (cb : pfs.FileInfo -> Prog status)
  : Prog status :=
  let name := cleanPath d (pfs.File_Path file) in
  r <- openCommit (pfs.File_Commit file) [index.WithPrefix name] ;;
  match r with
  | Err err => Return (Some err)
  | Ok (commit, fs) =>
      let fs := fileset.NewIndexResolver fs in
      let fs := fileset.NewDirInserter fs in
      let fs := fileset.NewIndexFilter fs (list_filter name) tt in
      let s := NewSource commit fs true in
      r <- Source_Iterate s
             (fun fi _ (_ : unit) =>
                if pathIsChild d name (cleanPath d (pfs.File_Path (pfs.FileInfo_File fi)))
                then e <- cb fi ;; Return (e, tt)
                else Return (None, tt))
             tt ;;
      Return (fst r)
  end.

Definition walkFile (file : pfs.File) (cb : pfs.FileInfo -> Prog status) : Prog status :=
  let p := cleanPath d (pfs.File_Path file) in
  let p := if (p =? "/")%string then "" else p in
  r <- openCommit (pfs.File_Commit file) [index.WithPrefix p] ;;
  match r with
  | Err err => Return (Some err)
  | Ok (commit, fs) =>
      let fs := fileset.NewDirInserter fs in
      let fs := fileset.NewIndexFilter fs (inspect_filter p) tt in
      let s := NewSource commit fs false in
      let s := NewErrOnEmpty s (ErrFileNotFound file) in
      r <- Source_Iterate s (fun fi _ (_ : unit) => e <- cb fi ;; Return (e, tt)) tt ;;
      Return (fst r)
  end.

Definition globFile (commit : pfs.Commit) (glob : string)
    (cb : pfs.FileInfo -> Prog status) : Prog status :=
  match parseGlob d glob with
  | Err err => Return (Some err)
  | Ok (indexOpt, mf) =>
      r <- openCommit commit [indexOpt] ;;
      match r with
      | Err err => Return (Some err)
      | Ok (commit, fs) =>
          let fs := fileset.NewIndexResolver fs in
          let fs := fileset.NewDirInserter fs in
          let s := NewSource commit fs true in
          r <- Source_Iterate s
                 (fun fi _ (_ : unit) =>
                    if negb (mf (pfs.File_Path (pfs.FileInfo_File fi)))
                    then Return (None, tt)
                    else e <- cb fi ;; Return (e, tt))
                 tt ;;
          Return (fst r)
      end
  end.

Definition renewFileset (id : string) (ttl : Z) : Prog status :=
  if (ttl <? time.Second)%Z then
    Return (Some (errors_Errorf "ttl (%d) must be at least one second" [arg_int ttl]))
  else if (ttl >? (maxTTL d))%Z then
    Return (Some (errors_Errorf "ttl (%d) exceeds max ttl (%d)" [arg_int ttl; arg_int (maxTTL d)]))
  else if negb (String.length id =? 32)%nat then
    Return (Some (errors_Errorf "invalid id (%s)" [arg_string id]))
  else
    let p := path_Join d [(tmpRepo d); id] in
    r <- call (storage_SetTTL p ttl) ;;
    Return (match r with Ok _ => None | Err err => Some err end).

End driver.

(** ** The master ([master.go]) *)

Module master.

Import ITree.ITree ITree.ITreeFacts ITree.Props.Leaf.
Import ITreeNotations.
Local Open Scope itree_scope.

Definition masterLockPath : string := "pfs-master-lock".

(** What the master does to the world: take and release the distributed
    lock ([dlock]), run a garbage collection of the storage under the
    context the lock gave, log, sleep, and panic.  [panic] has no answer:
    nothing runs after it. *)
Variant masterE : Type -> Type :=
| Lock (lockPath : string) : masterE (result nat)
| Unlock (lockPath : string) (masterCtx : nat) : masterE status
| GC (masterCtx : nat) : masterE status
| log_Errorf (format : string) (err : error) : masterE unit
| time_Sleep (duration : Z) : masterE unit
| panic (v : status) : masterE void.

(** A backoff policy: the wait before the next attempt, or [None] ([Stop])
    to give up; the argument counts the waits handed out so far. *)
Definition BackOff := nat -> option Z.

Section retry.

(** The waits of the infinite backoff, whatever they are. *)
Variable interval : nat -> Z.

(** Modelled from the spec: [backoff.NewInfiniteBackOff] (package [backoff]
    is not among the sources): the policy of a loop that must "back off and
    retry indefinitely"; it never says [Stop]. *)
Definition NewInfiniteBackOff : BackOff := fun n => Some (interval n).

(** Modelled from the spec: one round of [backoff.RetryNotify], see
    [RetryNotify] below; [inl] goes round again, [inr] ends the loop. *)
Definition retry_round (operation : itree masterE status) (b : BackOff)
    (notify : error -> Z -> itree masterE status) (n : nat)
  : itree masterE (nat + status) :=
  r <- operation ;;
  match r with
  | None => Ret (inr None)
  | Some err =>
      match b n with
      | None => Ret (inr (Some err))
      | Some next =>
          e <- notify err next ;;
          match e with
          | Some err' => Ret (inr (Some err'))
          | None => ITree.trigger (time_Sleep next) ;; Ret (inl (S n))
          end
      end
  end.

(** Modelled from the spec: the loop of [backoff.RetryNotify] from the
    round in which the policy has handed out [n] waits. *)
Definition retry_from (operation : itree masterE status) (b : BackOff)
    (notify : error -> Z -> itree masterE status) (n : nat) : itree masterE status :=
  ITree.iter (retry_round operation b notify) n.

(** Modelled from the spec: [backoff.RetryNotify] (package [backoff] is not
    among the sources).  "Run to completion or failure; on any error, back
    off and retry": the operation is run; when it returns no error the loop
    ends with no error; otherwise the policy gives the next wait (or the
    loop gives up with the error), [notify] is told the error and the wait
    (an error from [notify] ends the loop), the loop sleeps and goes
    round again.  The number of waits handed out starts at 0 ([b.Reset()]). *)
Definition RetryNotify (operation : itree masterE status) (b : BackOff)
    (notify : error -> Z -> itree masterE status) : itree masterE status :=
  retry_from operation b notify 0.

Variable path_Join : list string -> string.
Variable prefix : string.

(** The operation [master] retries: take the lock; with the lock, one
    garbage collection, and the deferred unlock when it returns. *)
Definition sweep : itree masterE status :=
  let lockPath := path_Join [prefix; masterLockPath] in
  r <- ITree.trigger (Lock lockPath) ;;
  match r with
  | Err err => Ret (Some err)
  | Ok masterCtx =>
      e <- ITree.trigger (GC masterCtx) ;;
      ITree.trigger (Unlock lockPath masterCtx) ;;
      Ret e
  end.

Definition notify (err : error) (_ : Z) : itree masterE status :=
  ITree.trigger (log_Errorf "error in pfs master: %v" err) ;; Ret None.

(** What follows the retry loop in [master]: [panic(err)]. *)
Definition panics_with (err : status) : itree masterE unit :=
  v <- ITree.trigger (panic err) ;;
  match v : void with end.

Definition master : itree masterE unit :=
  err <- RetryNotify sweep NewInfiniteBackOff notify ;;
  panics_with err.

(** [master] from the round in which the policy has handed out [n] waits. *)
Definition master_from (n : nat) : itree masterE unit :=
  err <- retry_from sweep NewInfiniteBackOff notify n ;;
  panics_with err.

(** What [master] does after a round that failed with [err]: it logs the
    error, sleeps the wait of the policy, and starts the next round. *)
Definition after_failure (n : nat) (err : error) : itree masterE unit :=
  ITree.trigger (log_Errorf "error in pfs master: %v" err) ;;
  ITree.trigger (time_Sleep (interval n)) ;;
  master_from (S n).

End retry.

(** *** A scripted world

    To follow [master] through its rounds, the world is scripted: the
    script says, for each round, whether taking the lock fails, or the
    garbage collection fails, or the garbage collection returns without an
    error.  The world keeps the number of the round and what [master] did
    to it, in order.  A panic ends the process: it is the one event left. *)
Inductive Round :=
| LockFails (err : error)
| GCFails (masterCtx : nat) (err : error)
| GCReturns (masterCtx : nat).

Definition failure (r : Round) : option error :=
  match r with
  | LockFails err => Some err
  | GCFails _ err => Some err
  | GCReturns _ => None
  end.

Inductive Did :=
| did_Lock (lockPath : string)
| did_GC (masterCtx : nat)
| did_Unlock (lockPath : string) (masterCtx : nat)
| did_log (err : error)
| did_Sleep (duration : Z).

Record Scripted := mkScripted { round : nat; did : list Did }.

(** The process ends: with the value it panicked with, in the world as it
    is then. *)
Variant exitE : Type -> Type :=
| Exit (v : status) (s : Scripted) : exitE void.

Definition exits {T : Type} (v : status) (s : Scripted) : itree exitE T :=
  v' <- ITree.trigger (Exit v s) ;; match v' : void with end.

Definition note (s : Scripted) (x : Did) : Scripted :=
  mkScripted (round s) (did s ++ [x]).

Definition scripted (script : nat -> Round)
  : forall T, masterE T -> Monads.stateT Scripted (itree exitE) T :=
  fun T e s =>
    match e in masterE T return itree exitE (Scripted * T) with
    | Lock lockPath =>
        Ret (note s (did_Lock lockPath),
             match script (round s) with
             | LockFails err => Err err
             | GCFails masterCtx _ => Ok masterCtx
             | GCReturns masterCtx => Ok masterCtx
             end)
    | Unlock lockPath masterCtx => Ret (note s (did_Unlock lockPath masterCtx), None)
    | GC masterCtx =>
        Ret (note s (did_GC masterCtx),
             match script (round s) with
             | GCFails _ err => Some err
             | _ => None
             end)
    | log_Errorf _ err => Ret (note s (did_log err), tt)
    | time_Sleep duration =>
        Ret (mkScripted (S (round s)) (did s ++ [did_Sleep duration]), tt)
    | panic v => exits v s
    end.

(** What [master] does in one round of the script, up to the end of the
    sweep, and after a failed sweep. *)
Definition swept (lockPath : string) (r : Round) : list Did :=
  match r with
  | LockFails _ => [did_Lock lockPath]
  | GCFails masterCtx _ | GCReturns masterCtx =>
      [did_Lock lockPath; did_GC masterCtx; did_Unlock lockPath masterCtx]
  end.

Definition retried (wait : Z) (r : Round) : list Did :=
  match failure r with
  | Some err => [did_log err; did_Sleep wait]
  | None => []
  end.

(** The scripted world after [k] more failed rounds, the policy having
    handed out [n] waits before them. *)
Fixpoint after_rounds (interval : nat -> Z) (lockPath : string) (script : nat -> Round)
    (k n : nat) (s : Scripted) : Scripted :=
  match k with
  | O => s
  | S k' =>
      after_rounds interval lockPath script k' (S n)
        (mkScripted (S (round s))
           (did s ++ swept lockPath (script (round s))
                  ++ retried (interval n) (script (round s))))
  end%list.

(** A script for the examples: the lock is lost twice, then a garbage
    collection fails, then one returns. *)
Definition example_script (i : nat) : Round :=
  match i with
  | 0%nat | 1%nat => LockFails (external "lock: context canceled")
  | 2%nat => GCFails 7 (external "gc: storage unavailable")
  | _ => GCReturns 8
  end.

Definition example_interval (n : nat) : Z := (500000000 * 2 ^ Z.of_nat n)%Z.

End master.

(** ** Observing runs *)

(** What [run] does with a deferred call: it runs after the body, in the
    state the body left, also when the body panicked; the panic then goes
    on, unless the deferred call panics itself. *)
Definition then_deferred {env R} (zero : R) (deferred : R -> Prog R) (r : Run env R)
  : Run env R :=
  match outcome r with
  | Returned a =>
      let r' := run env (deferred a) (world r) in
      mkRun (outcome r') (world r') (trace r ++ trace r')%list
  | Panicked msg =>
      let r' := run env (deferred zero) (world r) in
      mkRun (match outcome r' with
             | Returned _ => Panicked msg
             | Panicked msg' => Panicked msg'
             end)
            (world r') (trace r ++ trace r')%list
  end.

(** The files appended to writers during a run, in order: the path each
    was appended at, and its content. *)
Definition appended (t : list Call) : list (string * string) :=
  flat_map (fun c => match c with
                     | Writer_Append _ p _ f => [(p, fileset.Content f)]
                     | _ => []
                     end) t.

(** A stream of files is path-ordered when each file's path is [<=] the
    path of every file after it. *)
Definition path_ordered (l : list fileset.File) : Prop :=
  StronglySorted
    (fun a b => strings.le (index.Path (fileset.Index a)) (index.Path (fileset.Index b))) l.

Definition as_appended (f : fileset.File) : string * string :=
  (index.Path (fileset.Index f), fileset.Content f).


(** ** An in-memory environment

    A small deterministic environment, used to exercise the operations on
    concrete inputs: commits by id, the fileset bound to each commit, the
    entries of each fileset, the repos the caller may not read, a clock, and
    the files appended to writers. *)
Module mem.

Record State := mkState {
  clock : Z;
  commits : list (string * pfs.CommitInfo);
  bound : list (string * fileset.ID);
  contents : list (fileset.ID * list fileset.File);
  denied : list string;
  appended : list (string * string);
  ttls : list (string * Z)
}.

Fixpoint lookup {V : Type} (k : string) (l : list (string * V)) : option V :=
  match l with
  | [] => None
  | (k', v) :: l' => if (k =? k')%string then Some v else lookup k l'
  end.

Definition sealed_id : fileset.ID := "0123456789abcdef0123456789abcdef".

Definition fresh : pfs.Commit := client.NewCommit "repo" "fedcba9876543210fedcba9876543210".

Definition finish (now : Z) (ci : pfs.CommitInfo) : pfs.CommitInfo :=
  pfs.mkCommitInfo (pfs.CommitInfo_Commit ci) (pfs.CommitInfo_ParentCommit ci) (Some now).

Definition answer (c : Call) (s : State) : Resp c * State :=
  match c return Resp c * State with
  | CheckIsAuthorized r _ =>
      (if existsb (String.eqb (pfs.Repo_Name r)) (denied s)
       then Some (external "not authorized") else None, s)
  | inspectCommit c _ =>
      (match lookup (pfs.Commit_ID c) (commits s) with
       | Some ci => Ok ci
       | None => Err (external "commit not found")
       end, s)
  | startCommit _ _ parent branch _ _ =>
      (Ok fresh,
       mkState (clock s)
         ((pfs.Commit_ID fresh, pfs.mkCommitInfo fresh None None) :: commits s)
         (bound s) (contents s) (denied s) (appended s) (ttls s))
  | finishCommit _ c _ =>
      (None,
       mkState (clock s)
         (map (fun kv => if (fst kv =? pfs.Commit_ID c)%string
                         then (fst kv, finish (clock s) (snd kv)) else kv)
              (commits s))
         (bound s) (contents s) (denied s) (appended s) (ttls s))
  | WithWriteContext_begin => (0%nat, s)
  | WithWriteContext_conflict _ => (false, s)
  | WithWriteContext_end _ e => (e, s)
  | commitStore_AddFileset c id =>
      (None,
       mkState (clock s) (commits s) ((pfs.Commit_ID c, id) :: bound s)
         (contents s) (denied s) (appended s) (ttls s))
  | commitStore_GetFileset c =>
      (match lookup (pfs.Commit_ID c) (bound s) with
       | Some id => Ok id
       | None => Err (external "no fileset")
       end, s)
  | storage_Open ids opts =>
      (Ok (fileset.of_list
             (fileset.narrow opts
                (flat_map (fun id => match lookup id (contents s) with
                                     | Some l => l
                                     | None => []
                                     end) ids))), s)
  | storage_NewWriter => (0%nat, s)
  | Writer_Append _ p tag f =>
      (None,
       mkState (clock s) (commits s) (bound s) (contents s) (denied s)
         (appended s ++ [(p, (tag ++ fileset.Content f)%string)]) (ttls s))
  | Writer_Close _ => (Ok sealed_id, s)
  | storage_NewUnorderedWriter _ _ => (Ok 0%nat, s)
  | UnorderedWriter_Put _ p data =>
      (None,
       mkState (clock s) (commits s) (bound s) (contents s) (denied s)
         (appended s ++ [(p, data)]) (ttls s))
  | UnorderedWriter_Close _ => (Ok sealed_id, s)
  | storage_Compact _ _ => (Ok sealed_id, s)
  | storage_WithRenewer_begin _ => (0%nat, s)
  | renewer_Add _ _ => (tt, s)
  | storage_WithRenewer_end _ e => (e, s)
  | storage_SetTTL p ttl =>
      (Ok (clock s + ttl)%Z,
       mkState (clock s) (commits s) (bound s) (contents s) (denied s)
         (appended s) ((p, ttl) :: ttls s))
  | time_Now_UnixNano => (clock s, mkState (clock s + 1)%Z (commits s) (bound s)
                                     (contents s) (denied s) (appended s) (ttls s))
  | WriteTarStream _ => (None, s)
  end.

Definition env : Env := mkEnv State answer.

(** The imports, made concrete for the examples: a dashless UUID is taken to
    be any 32-character id, a path is cleaned by leaving it as it is,
    [path.Join] joins with "/", [filepath.Rel] strips the base, a glob is a
    path without metacharacters and matches that path alone, a directory
    is a path ending in "/", and a collided transaction is run again up to
    three times. *)
Fixpoint drop (n : nat) (s : string) : string :=
  match n, s with
  | O, _ => s
  | S n', String _ s' => drop n' s'
  | S _, EmptyString => EmptyString
  end.

Definition imports : Imports := {|
  IsUUIDWithoutDashes := fun s => (String.length s =? 32)%nat;
  isNotFoundErr := fun e => match e with external "commit not found" => true | _ => false end;
  isNoHeadErr := fun e => match e with external "no head" => true | _ => false end;
  defaultTTL := (600 * time.Second)%Z;
  maxTTL := (1800 * time.Second)%Z;
  tmpRepo := "tmp";
  cleanPath := fun p => p;
  path_Join := String.concat "/";
  filepath_Rel := fun base targ =>
    if strings.HasPrefix targ base
    then Ok (drop (S (String.length base)) targ)
    else Err (external "Rel: can't make relative");
  parseGlob := fun g => Ok (index.WithPrefix g, fun p => (p =? g)%string);
  IsDir := strings.HasSuffix_slash;
  pathIsChild := fun parent child =>
    strings.HasPrefix child parent && negb (child =? parent)%string;
  txnRetries := 3
|}.

Definition repo : pfs.Repo := pfs.mkRepo "repo".
Definition open_commit : pfs.Commit := pfs.mkCommit repo "11111111111111111111111111111111".
Definition done_commit : pfs.Commit := pfs.mkCommit repo "22222222222222222222222222222222".
Definition master_branch : pfs.Commit := pfs.mkCommit repo "master".

Definition entry (p content : string) : fileset.File :=
  fileset.mkFile (index.mkIndex p "" false) content.

(** One repo, an open commit, a finished commit holding three files, and the
    branch [master] whose head is the finished commit. *)
Definition initial : World env := {|
  clock := 1600000000000000000%Z;
  commits :=
    [ (pfs.Commit_ID open_commit, pfs.mkCommitInfo open_commit (Some done_commit) None);
      (pfs.Commit_ID done_commit, pfs.mkCommitInfo done_commit None (Some 1500000000%Z));
      (pfs.Commit_ID master_branch, pfs.mkCommitInfo done_commit None (Some 1500000000%Z)) ];
  bound := [ (pfs.Commit_ID done_commit, sealed_id) ];
  contents :=
    [ (sealed_id, [ entry "/a.txt" "A"; entry "/dir/x" "X"; entry "/dir/y" "Y" ]) ];
  denied := [];
  appended := [];
  ttls := []
|}.

Definition done_info : pfs.CommitInfo := pfs.mkCommitInfo done_commit None (Some 1500000000%Z).
Definition open_info : pfs.CommitInfo := pfs.mkCommitInfo open_commit (Some done_commit) None.

Definition stored : list fileset.File :=
  [ entry "/a.txt" "A"; entry "/dir/x" "X"; entry "/dir/y" "Y" ].

(** The same world for a caller who may not read the repo. *)
Definition locked : World env :=
  mkState (clock initial) (commits initial) (bound initial) (contents initial)
          ["repo"] (appended initial) (ttls initial).

(** A callback for [modifyFile]: it puts one file. *)
Definition put_b (uw : fileset.UnorderedWriter) : Prog status :=
  call (UnorderedWriter_Put uw "/b.txt" "B").

End mem.

(** ** The rest of [driver_file.go]: [createFileset] and [diffFile] *)

(** [diffFile] tests some of the pointers it is handed against nil:
    [newFile], [newFile.Commit], [newFile.Commit.Repo], [oldFile] and
    [oldFile.Commit].  A pointer the code tests is an [option] here ([None]
    is nil).  The repo of an old commit is not tested: it is handed to the
    reader check as it is, and is a repo here, as everywhere else in the
    file. *)
Module nilable.

Record Commit := mkCommit { Commit_Repo : option pfs.Repo; Commit_ID : string }.

(** A [pfs.File] whose commit may be nil; [C] is the type of the commit. *)
Record File (C : Type) := mkFile { File_Commit : option C; File_Path : string }.
Arguments mkFile {C} _ _.
Arguments File_Commit {C} _.
Arguments File_Path {C} _.

End nilable.

Section driver_rest.

Variable d : Imports.

(** [createFileset]: the callback handed to [storage.WithRenewer] assigns
    the captured [id]; the renewer is told the error of the callback, and
    [createFileset] returns the error of the renewer, or [id] (which is
    still nil when the callback failed). *)
Definition createFileset (cb : fileset.UnorderedWriter -> Prog status)
  : Prog (result (option fileset.ID)) :=
  renewer <- call (storage_WithRenewer_begin (defaultTTL d)) ;;
  r <- withTmpUnorderedWriter d renewer false cb ;;
  let id := match r with Ok id => Some id | Err _ => None end in
  let err := match r with Ok _ => None | Err err => Some err end in
  e <- call (storage_WithRenewer_end renewer err) ;;
  match e with
  | Some err => Return (Err err)
  | None => Return (Ok id)
  end.

(** [NewDiffer(old, new).Iterate(ctx, cb)]: the differ is in [diff.go], of
    which nothing is known here; it is any program made from the two
    sources and the callback. *)
Variable Differ_Iterate :
  Source -> Source -> (option pfs.FileInfo -> option pfs.FileInfo -> Prog status) ->
  Prog status.

(** The closure [diffFile] hands to [NewIndexFilter], for the old and for
    the new side. *)
Definition diff_filter (name : string) (idx : index.Index) (_ : unit) : bool * unit :=
  ((index.Path idx =? name)%string || strings.HasPrefix (index.Path idx) (name ++ "/"), tt).

(** The source [diffFile] makes of an opened commit. *)
Definition diff_source (name : string) (commit : pfs.Commit) (fs : fileset.FileSet) : Source :=
  let fs := fileset.NewIndexResolver fs in
  let fs := fileset.NewDirInserter fs in
  let fs := fileset.NewIndexFilter fs (diff_filter name) tt in
  NewSource commit fs true.

Definition diffFile
    (oldFile : option (nilable.File pfs.Commit))
    (newFile : option (nilable.File nilable.Commit))
    (cb : option pfs.FileInfo -> option pfs.FileInfo -> Prog status) : Prog status :=
  match newFile with
  | None => Return (Some (errors_New "file cannot be nil"))
  | Some newFile =>
  match nilable.File_Commit newFile with
  | None => Return (Some (errors_New "file commit cannot be nil"))
  | Some newFile_Commit =>
  match nilable.Commit_Repo newFile_Commit with
  | None => Return (Some (errors_New "file commit repo cannot be nil"))
  | Some newFile_Commit_Repo =>
  e <- match oldFile with
       | Some oldFile =>
           match nilable.File_Commit oldFile with
           | Some oldFile_Commit =>
               call (CheckIsAuthorized (pfs.Commit_Repo oldFile_Commit) auth.Scope_READER)
           | None => Return None
           end
       | None => Return None
       end ;;
  match e with
  | Some err => Return (Some err)
  | None =>
  e <- call (CheckIsAuthorized newFile_Commit_Repo auth.Scope_READER) ;;
  match e with
  | Some err => Return (Some err)
  | None =>
  let newCommit := pfs.mkCommit newFile_Commit_Repo (nilable.Commit_ID newFile_Commit) in
  r <- call (inspectCommit newCommit pfs.CommitState_STARTED) ;;
  match r with
  | Err err => Return (Some err)
  | Ok newCommitInfo =>
  let oldFile :=
    match oldFile with
    | None => nilable.mkFile (pfs.CommitInfo_ParentCommit newCommitInfo)
                             (nilable.File_Path newFile)
    | Some oldFile => oldFile
    end in
  let oldCommit := nilable.File_Commit oldFile in
  let oldName := cleanPath d (nilable.File_Path oldFile) in
  let oldName := if (oldName =? "/")%string then "" else oldName in
  let newName := cleanPath d (nilable.File_Path newFile) in
  let newName := if (newName =? "/")%string then "" else newName in
  r <- match oldCommit with
       | Some oldCommit =>
           r <- openCommit oldCommit [index.WithPrefix oldName] ;;
           match r with
           | Err err => Return (Err err)
           | Ok (oldCommit, fs) => Return (Ok (diff_source oldName oldCommit fs))
           end
       | None => Return (Ok emptySource)
       end ;;
  match r with
  | Err err => Return (Some err)
  | Ok old =>
  r <- openCommit newCommit [index.WithPrefix newName] ;;
  match r with
  | Err err => Return (Some err)
  | Ok (newCommit, fs) =>
      let new := diff_source newName newCommit fs in
      Differ_Iterate old new cb
  end end end end end end end end.

End driver_rest.

(** ** More observations of runs *)

(** The ids the renewers were told to keep alive during a run, in order. *)
Definition renewed (t : list Call) : list (renew.StringSet * fileset.ID) :=
  flat_map (fun c => match c with
                     | renewer_Add r id => [(r, id)]
                     | _ => []
                     end) t.

(** What a reading method does with its callback, said directly: the
    callback is called on each element in turn, up to the first error it
    returns, which is the result. *)
Fixpoint for_each {A : Type} (cb : A -> Prog status) (l : list A) : Prog status :=
  match l with
  | [] => Return None
  | a :: l' =>
      e <- cb a ;;
      match e with
      | Some err => Return (Some err)
      | None => for_each cb l'
      end
  end.

(** The [FileInfo] a source makes of an entry of the fileset of [commit]. *)
Definition info_of (commit : pfs.Commit) (f : fileset.File) : pfs.FileInfo :=
  pfs.mkFileInfo (pfs.mkFile commit (index.Path (fileset.Index f))).

(** What the callback of [inspectFile] has left in [ret] after the files
    [l], [ret] holding [ret0] before them: the [FileInfo] of the last file
    whose path is [p] or [p + "/"], if there is one. *)
Definition inspected (p : string) (commit : pfs.Commit) (l : list fileset.File)
    (ret0 : option pfs.FileInfo) : option pfs.FileInfo :=
  fold_left
    (fun ret f =>
       let p2 := index.Path (fileset.Index f) in
       if (p2 =? p)%string || (p2 =? p ++ "/")%string then Some (info_of commit f) else ret)
    l ret0.

(** ** An in-memory environment with faults

    The environment of [mem], except that answers can be forced: the state
    counts the calls answered so far, and [fault n c], when it is not
    [None], is the answer to the call [c] made after [n] calls. *)
Module faulty.

Definition Fault := nat -> forall c : Call, option (Resp c).

Definition answer (fault : Fault) (c : Call) (s : nat * mem.State)
  : Resp c * (nat * mem.State) :=
  match fault (fst s) c with
  | Some x => (x, (S (fst s), snd s))
  | None => let (x, m) := mem.answer c (snd s) in (x, (S (fst s), m))
  end.

Definition env (fault : Fault) : Env := mkEnv (nat * mem.State) (answer fault).

(** The state [m] after [n] calls. *)
Definition after_calls (fault : Fault) (n : nat) (m : mem.State) : World (env fault) :=
  (n, m).

Definition initial (fault : Fault) : World (env fault) := after_calls fault 0 mem.initial.

(** A writer that cannot be closed twice: a close made after five calls
    or more fails. *)
Definition second_close_fails : Fault :=
  fun n c =>
    match c return option (Resp c) with
    | Writer_Close _ =>
        if (5 <=? n)%nat then Some (Err (external "writer already closed")) else None
    | _ => None
    end.

(** No commit can be started. *)
Definition start_fails : Fault :=
  fun _ c =>
    match c return option (Resp c) with
    | startCommit _ _ _ _ _ _ => Some (Err (external "branch is locked"))
    | _ => None
    end.

(** Compaction gives a fileset of its own. *)
Definition compacted_id : fileset.ID := "cccccccccccccccccccccccccccccccc".

Definition compacts : Fault :=
  fun _ c =>
    match c return option (Resp c) with
    | storage_Compact _ _ => Some (Ok compacted_id)
    | _ => None
    end.

(** A renewal scope that answers no error, whatever it is told. *)
Definition scope_swallows : Fault :=
  fun _ c =>
    match c return option (Resp c) with
    | storage_WithRenewer_end _ _ => Some None
    | _ => None
    end.

(** The metadata store is down: no commit can be inspected. *)
Definition inspect_fails : Fault :=
  fun _ c =>
    match c return option (Resp c) with
    | inspectCommit _ _ => Some (Err (external "etcd unavailable"))
    | _ => None
    end.



End faulty.

(** More of the in-memory world: an open commit without parent, a callback
    that fails, one that panics, imports under which no path can be made
    relative, and a differ that compares nothing. *)
Module mem_more.

Definition orphan : pfs.Commit := pfs.mkCommit mem.repo "33333333333333333333333333333333".

Definition with_orphan : World mem.env :=
  mem.mkState (mem.clock mem.initial)
    ((pfs.Commit_ID orphan, pfs.mkCommitInfo orphan None None) :: mem.commits mem.initial)
    (mem.bound mem.initial) (mem.contents mem.initial) (mem.denied mem.initial)
    (mem.appended mem.initial) (mem.ttls mem.initial).

Definition disk_full (uw : fileset.UnorderedWriter) : Prog status :=
  Return (Some (external "disk full")).

Definition crash (uw : fileset.UnorderedWriter) : Prog status :=
  Panic "index out of range".

Definition no_rel : Imports := {|
  IsUUIDWithoutDashes := IsUUIDWithoutDashes mem.imports;
  isNotFoundErr := isNotFoundErr mem.imports;
  isNoHeadErr := isNoHeadErr mem.imports;
  defaultTTL := defaultTTL mem.imports;
  maxTTL := maxTTL mem.imports;
  tmpRepo := tmpRepo mem.imports;
  cleanPath := cleanPath mem.imports;
  path_Join := path_Join mem.imports;
  filepath_Rel := fun _ _ => Err (external "Rel: can't make relative");
  parseGlob := parseGlob mem.imports;
  IsDir := IsDir mem.imports;
  pathIsChild := pathIsChild mem.imports;
  txnRetries := txnRetries mem.imports
|}.

Definition no_differ (old new : Source)
    (cb : option pfs.FileInfo -> option pfs.FileInfo -> Prog status) : Prog status :=
  Return None.

(** A callback for the reading methods: it notes the path it is called on
    (as a file put to writer 0). *)
Definition note_path (fi : pfs.FileInfo) : Prog status :=
  call (UnorderedWriter_Put 0 (pfs.File_Path (pfs.FileInfo_File fi)) "").

End mem_more.
(** * Properties *)

(** ** Strings *)

Lemma HasPrefix_app (p rest : string) : strings.HasPrefix (p ++ rest) p = true.
Proof.
  unfold strings.HasPrefix. induction p as [|c p IH]; simpl.
  - destruct rest; reflexivity.
  - destruct (ascii_dec c c) as [_|n]; [exact IH | now elim n].
Qed.

Lemma HasPrefix_inv (s p : string) :
  strings.HasPrefix s p = true -> exists rest, s = p ++ rest.
Proof.
  unfold strings.HasPrefix. revert s. induction p as [|c p IH]; intros s H.
  - exists s. reflexivity.
  - destruct s as [|d s]; simpl in H; [discriminate|].
    destruct (ascii_dec c d) as [->|_]; [|discriminate].
    destruct (IH _ H) as [rest ->]. exists rest. reflexivity.
Qed.

Lemma HasPrefix_refl (s : string) : strings.HasPrefix s s = true.
Proof.
  unfold strings.HasPrefix. induction s as [|c s IH]; simpl; [reflexivity|].
  destruct (ascii_dec c c) as [_|n]; [exact IH | now elim n].
Qed.

Lemma append_assoc (a b c : string) : (a ++ b) ++ c = a ++ (b ++ c).
Proof. induction a as [|x a IH]; simpl; [reflexivity | now rewrite IH]. Qed.

Lemma append_empty_r (a : string) : a ++ "" = a.
Proof. induction a as [|x a IH]; simpl; [reflexivity | now rewrite IH]. Qed.

Lemma HasPrefix_trans (s p q : string) :
  strings.HasPrefix s p = true -> strings.HasPrefix p q = true -> strings.HasPrefix s q = true.
Proof.
  intros H1 H2.
  destruct (HasPrefix_inv _ _ H1) as [r1 ->].
  destruct (HasPrefix_inv _ _ H2) as [r2 ->].
  rewrite append_assoc. apply HasPrefix_app.
Qed.


(** ** Runs *)

Lemma run_bind env A B (p : Prog A) (f : A -> Prog B) (w : World env) :
  run env (bind p f) w = then_run (run env p w) f.
Proof.
  revert w. induction p as [a|msg|c k IH]; intros w; simpl.
  - unfold then_run; simpl. now destruct (run env (f a) w).
  - reflexivity.
  - destruct (answer env c w) as [x w']. rewrite IH.
    unfold then_run, logged; simpl. now destruct (outcome (run env (k x) w')).
Qed.

Lemma run_call env (c : Call) (w : World env) :
  run env (call c) w = mkRun (Returned (reply env c w)) (after env c w) [c].
Proof. unfold call, reply, after; simpl. now destruct (answer env c w). Qed.

Lemma run_Do env R (c : Call) (k : Resp c -> Prog R) (w : World env) :
  run env (Do c k) w = logged c (run env (k (reply env c w)) (after env c w)).
Proof. unfold reply, after; simpl. now destruct (answer env c w). Qed.

Lemma run_Return env R (r : R) (w : World env) :
  run env (Return r) w = mkRun (Returned r) w [].
Proof. reflexivity. Qed.

Lemma run_Panic env R (msg : string) (w : World env) :
  run env (Panic msg : Prog R) w = mkRun (Panicked msg) w [].
Proof. reflexivity. Qed.

(** One call of a program: the call is logged, and the program goes on with
    the environment's answer. *)
Lemma run_call_bind env R (c : Call) (k : Resp c -> Prog R) (w : World env) :
  run env (bind (call c) k) w =
  logged c (run env (k (reply env c w)) (after env c w)).
Proof. unfold call. cbn [bind]. apply run_Do. Qed.


(** ** Binding a fileset to a commit *)

(** C1.  When the commit inspects as finished ([Finished] is not nil),
    [addFileset] and [withCommitWriter] both return [ErrCommitFinished] for
    the inspected commit, and the inspection is the only call either makes:
    the commit store is not asked to add a fileset, and no writer is
    created.  The environment is left as the inspection left it. *)
Theorem finished_commit_rejects_fileset
    (env : Env) (w : World env)
    (commit : pfs.Commit) (filesetID : fileset.ID)
    (cb : string -> fileset.Writer -> Prog status)
    (commitInfo : pfs.CommitInfo)
    (Hinspect : reply env (inspectCommit commit pfs.CommitState_STARTED) w = Ok commitInfo)
    (Hfinished : pfs.CommitInfo_Finished commitInfo <> None) :
  let rejected : Run env status :=
    mkRun (Returned (Some (ErrCommitFinished (pfs.CommitInfo_Commit commitInfo))))
          (after env (inspectCommit commit pfs.CommitState_STARTED) w)
          [inspectCommit commit pfs.CommitState_STARTED] in
  run env (addFileset commit filesetID) w = rejected
  /\ run env (withCommitWriter commit cb) w = rejected.
Proof.
  intros rejected. unfold addFileset, withCommitWriter.
  rewrite !run_call_bind, Hinspect.
  destruct (pfs.CommitInfo_Finished commitInfo) as [t|]; [|congruence].
  split; reflexivity.
Qed.

(** ** Reading an unfinished commit *)

(** C2.  When the commit inspects as unfinished ([Finished] is nil),
    [getFileset] returns [ErrCommitNotFinished] after the inspection alone,
    and [openCommit], once the caller has passed the reader check, returns
    [ErrCommitNotFinished] after the check and the inspection alone: the
    commit store is not asked for the fileset and the storage opens none.
    [getFile], [inspectFile], [listFile], [walkFile] and [globFile], which
    read through [openCommit], fail with the same error after the same two
    calls: nothing is written, and no callback is called. *)
Theorem unfinished_commit_is_not_read
    (d : Imports) (env : Env) (w : World env)
    (commit : pfs.Commit) (commitInfo : pfs.CommitInfo)
    (Hget : reply env (inspectCommit commit pfs.CommitState_STARTED) w = Ok commitInfo)
    (Hauth : reply env (CheckIsAuthorized (pfs.Commit_Repo commit) auth.Scope_READER) w = None)
    (Hopen : reply env (inspectCommit commit pfs.CommitState_STARTED)
               (after env (CheckIsAuthorized (pfs.Commit_Repo commit) auth.Scope_READER) w)
             = Ok commitInfo)
    (Hunfinished : pfs.CommitInfo_Finished commitInfo = None) :
  let check := CheckIsAuthorized (pfs.Commit_Repo commit) auth.Scope_READER in
  let inspect := inspectCommit commit pfs.CommitState_STARTED in
  let err := ErrCommitNotFinished (pfs.CommitInfo_Commit commitInfo) in
  run env (getFileset commit) w = mkRun (Returned (Err err)) (after env inspect w) [inspect]
  /\ (forall opts,
        run env (openCommit commit opts) w =
        mkRun (Returned (Err err)) (after env inspect (after env check w)) [check; inspect])
  /\ (forall glob indexOpt mf,
        parseGlob d glob = Ok (indexOpt, mf) ->
        run env (getFile d commit glob) w =
        mkRun (Returned (Some err)) (after env inspect (after env check w)) [check; inspect])
  /\ (forall path,
        run env (inspectFile d (pfs.mkFile commit path)) w =
        mkRun (Returned (Err err)) (after env inspect (after env check w)) [check; inspect])
  /\ (forall path full cb,
        run env (listFile d (pfs.mkFile commit path) full cb) w =
        mkRun (Returned (Some err)) (after env inspect (after env check w)) [check; inspect])
  /\ (forall path cb,
        run env (walkFile d (pfs.mkFile commit path) cb) w =
        mkRun (Returned (Some err)) (after env inspect (after env check w)) [check; inspect])
  /\ (forall glob indexOpt mf cb,
        parseGlob d glob = Ok (indexOpt, mf) ->
        run env (globFile d commit glob cb) w =
        mkRun (Returned (Some err)) (after env inspect (after env check w)) [check; inspect]).
Proof.
  intros check inspect err.
  assert (Hoc : forall opts,
             run env (openCommit commit opts) w =
             mkRun (Returned (Err err)) (after env inspect (after env check w))
                   [check; inspect]).
  { intros opts. unfold openCommit.
    subst check inspect.
    rewrite run_call_bind, Hauth, run_call_bind, Hopen, Hunfinished. reflexivity. }
  repeat split.
  - unfold getFileset. subst inspect.
    rewrite run_call_bind, Hget, Hunfinished. reflexivity.
  - exact Hoc.
  - intros glob indexOpt mf Hglob. unfold getFile. rewrite Hglob.
    rewrite run_bind, Hoc. reflexivity.
  - intros path. unfold inspectFile. cbv zeta. cbn [pfs.File_Commit].
    rewrite run_bind, Hoc. reflexivity.
  - intros path full cb. unfold listFile. cbv zeta. cbn [pfs.File_Commit].
    rewrite run_bind, Hoc. reflexivity.
  - intros path cb. unfold walkFile. cbv zeta. cbn [pfs.File_Commit].
    rewrite run_bind, Hoc. reflexivity.
  - intros glob indexOpt mf cb Hglob. unfold globFile. rewrite Hglob.
    rewrite run_bind, Hoc. reflexivity.
Qed.

(** ** Copying with the overwrite flag *)

(** C4.  With both inspections succeeding: when the source commit is
    finished and the destination commit is open, [copyFile] with
    [overwrite = true] returns the error "overwrite not yet supported" after
    the two inspections alone (no writer is created and nothing is added to
    the destination commit); and the states of the commits are checked
    first: an unfinished source gives [ErrCommitNotFinished] and a finished
    destination gives [ErrCommitFinished], whatever the flag. *)
Theorem copyFile_overwrite_not_supported
    (d : Imports) (env : Env) (w : World env) (src dst : pfs.File)
    (srcCommitInfo dstCommitInfo : pfs.CommitInfo)
    (Hsrc : reply env (inspectCommit (pfs.File_Commit src) pfs.CommitState_STARTED) w
            = Ok srcCommitInfo)
    (Hdst : reply env (inspectCommit (pfs.File_Commit dst) pfs.CommitState_STARTED)
              (after env (inspectCommit (pfs.File_Commit src) pfs.CommitState_STARTED) w)
            = Ok dstCommitInfo) :
  let inspectSrc := inspectCommit (pfs.File_Commit src) pfs.CommitState_STARTED in
  let inspectDst := inspectCommit (pfs.File_Commit dst) pfs.CommitState_STARTED in
  (pfs.CommitInfo_Finished srcCommitInfo <> None ->
   pfs.CommitInfo_Finished dstCommitInfo = None ->
   run env (copyFile d src dst true) w =
   mkRun (Returned (Some (errors_New "overwrite not yet supported")))
         (after env inspectDst (after env inspectSrc w)) [inspectSrc; inspectDst])
  /\ (pfs.CommitInfo_Finished srcCommitInfo = None ->
      forall overwrite,
        run env (copyFile d src dst overwrite) w =
        mkRun (Returned (Some (ErrCommitNotFinished (pfs.CommitInfo_Commit srcCommitInfo))))
              (after env inspectSrc w) [inspectSrc])
  /\ (pfs.CommitInfo_Finished srcCommitInfo <> None ->
      pfs.CommitInfo_Finished dstCommitInfo <> None ->
      forall overwrite,
        run env (copyFile d src dst overwrite) w =
        mkRun (Returned (Some (ErrCommitFinished (pfs.CommitInfo_Commit dstCommitInfo))))
              (after env inspectDst (after env inspectSrc w)) [inspectSrc; inspectDst]).
Proof.
  intros inspectSrc inspectDst. subst inspectSrc inspectDst.
  split; [|split].
  - intros Hs Hd. unfold copyFile. rewrite run_call_bind, Hsrc.
    destruct (pfs.CommitInfo_Finished srcCommitInfo) as [ts|]; [|congruence].
    rewrite run_call_bind, Hdst, Hd. reflexivity.
  - intros Hs overwrite. unfold copyFile.
    rewrite run_call_bind, Hsrc, Hs. reflexivity.
  - intros Hs Hd overwrite. unfold copyFile. rewrite run_call_bind, Hsrc.
    destruct (pfs.CommitInfo_Finished srcCommitInfo) as [ts|]; [|congruence].
    rewrite run_call_bind, Hdst.
    destruct (pfs.CommitInfo_Finished dstCommitInfo) as [td|]; [|congruence].
    reflexivity.
Qed.

(** ** Renewing a temporary fileset *)

(** C3.  [renewFileset id ttl] returns one of its validation errors without
    calling the storage (it makes no call at all) exactly when [ttl] is
    below one second, or above [maxTTL], or [id] is not 32 characters long;
    otherwise its one call is [storage.SetTTL] on [path.Join(tmpRepo, id)]
    with [ttl], whose error it returns. *)
Theorem renewFileset_validation
    (d : Imports) (env : Env) (w : World env) (id : string) (ttl : Z) :
  let invalid :=
    (ttl < time.Second)%Z \/ (ttl > maxTTL d)%Z \/ String.length id <> 32%nat in
  let r := run env (renewFileset d id ttl) w in
  let setTTL := storage_SetTTL (path_Join d [tmpRepo d; id]) ttl in
  (invalid <->
   trace r = [] /\ world r = w /\
   exists format args, outcome r = Returned (Some (errors_Errorf format args)))
  /\ (~ invalid ->
      r = mkRun (Returned (match reply env setTTL w with
                           | Ok _ => None
                           | Err err => Some err
                           end))
                (after env setTTL w) [setTTL]).
Proof.
  intros invalid r setTTL. subst invalid r. unfold renewFileset.
  destruct (Z.ltb_spec ttl time.Second) as [Hlt|Hge].
  { split; [split|]; [intros _| intros _; now left | intros H; elim H; now left].
    cbn. repeat split. eauto. }
  destruct (Z.gtb_spec ttl (maxTTL d)) as [Hgt|Hle].
  { split; [split|]; [intros _| intros _; right; left; lia
                     | intros H; elim H; right; left; lia].
    cbn. repeat split. eauto. }
  destruct (Nat.eqb_spec (String.length id) 32) as [Hlen|Hlen]; cbn [negb].
  - cbv zeta. subst setTTL. rewrite run_call_bind.
    split; [split|].
    + intros [H|[H|H]]; [lia | lia | congruence].
    + cbn. intros [H _]. discriminate H.
    + intros _. reflexivity.
  - split; [split|]; [intros _| intros _; right; now right
                     | intros H; elim H; right; now right].
    cbn. repeat split. eauto.
Qed.

(** ** The default tag *)

Lemma string_of_uint_head (u : Decimal.uint) :
  exists c rest, NilZero.string_of_uint u = String c rest /\ c <> "%"%char.
Proof.
  destruct u; cbn; eexists; eexists; (split; [reflexivity | discriminate]).
Qed.

Lemma Sprintf_012d_head (n : Z) :
  exists c rest, fmt.Sprintf_012d n = String c rest /\ c <> "%"%char.
Proof.
  unfold fmt.Sprintf_012d.
  destruct (n <? 0)%Z.
  - cbn. eexists; eexists; split; [reflexivity | discriminate].
  - cbn [String.append].
    destruct (string_of_uint_head (N.to_uint (Z.abs_N n))) as (c & rest & -> & Hc).
    destruct (12 - String.length "" - String.length (String c rest))%nat; cbn.
    + eauto.
    + eexists; eexists; split; [reflexivity | discriminate].
Qed.

(** C8.  [getDefaultTag] reads the clock once and returns
    [fmt.Sprint("%012d", now)]: the five characters "%012d" followed by the
    decimal digits of the Unix-nanosecond time; that is never the
    zero-padded number [Sprintf("%012d", now)] would give. *)
Theorem getDefaultTag_keeps_the_verb (env : Env) (w : World env) :
  let now := reply env time_Now_UnixNano w in
  let tag := ("%012d" ++ NilZero.string_of_int (Z.to_int now))%string in
  run env getDefaultTag w = mkRun (Returned tag) (after env time_Now_UnixNano w)
                              [time_Now_UnixNano]
  /\ tag <> fmt.Sprintf_012d now.
Proof.
  intros now tag. split.
  - unfold getDefaultTag. subst tag now. rewrite run_call_bind.
    unfold fmt.Sprint. cbn [fmt.doPrint fmt.isString fmt.printArg negb andb].
    rewrite append_empty_r. reflexivity.
  - destruct (Sprintf_012d_head now) as (c & rest & Heq & Hc).
    rewrite Heq. subst tag. cbn. intros H. injection H as H _. congruence.
Qed.

(** ** Copying a prefix *)

Lemma run_defer env R (zero : R) (deferred : R -> Prog R) (body : Prog R) (w : World env) :
  run env (defer zero deferred body) w = then_deferred zero deferred (run env body w).
Proof.
  revert w. induction body as [a|msg|c k IH]; intros w.
  - unfold then_deferred; cbn. now destruct (run env (deferred a) w).
  - cbn [defer]. rewrite run_bind. unfold then_run, then_deferred; cbn.
    destruct (outcome (run env (deferred zero) w)); cbn; [|reflexivity].
    now rewrite app_nil_r.
  - cbn [defer]. rewrite !run_Do, IH.
    unfold then_deferred, logged; cbn.
    destruct (outcome (run env (k (reply env c w)) (after env c w))); reflexivity.
Qed.

(** One pass of a write transaction, and what follows it. *)
Lemma WithWriteContext_passes_unfold (retries : nat)
    (cb : txnenv.TransactionContext -> Prog status) :
  WithWriteContext_passes retries cb =
  (txnCtx <- call WithWriteContext_begin ;;
   e <- cb txnCtx ;;
   match e, retries with
   | None, S retries' =>
       conflict <- call (WithWriteContext_conflict txnCtx) ;;
       if conflict : bool then WithWriteContext_passes retries' cb
       else call (WithWriteContext_end txnCtx None)
   | _, _ => call (WithWriteContext_end txnCtx e)
   end).
Proof. destruct retries; reflexivity. Qed.

Lemma appended_app (a b : list Call) : appended (a ++ b) = (appended a ++ appended b)%list.
Proof. apply flat_map_app. Qed.

Lemma filter_with_pure (p : index.Index -> bool) (l : list fileset.File) :
  fileset.filter_with (fun idx (_ : unit) => (p idx, tt)) tt l =
  filter (fun f => p (fileset.Index f)) l.
Proof.
  induction l as [|f l IH]; cbn; [reflexivity|].
  rewrite IH. reflexivity.
Qed.




Section copy_facts.

Variable d : Imports.
Variable env : Env.
Variables srcPath dstPath : string.


Lemma iterate_files_appended (dst : fileset.Writer) (tag : string)
    (l : list fileset.File) (w : World env) :
  exists k,
    appended (trace (run env (iterate_files (copy_append dst tag) l tt) w)) =
    firstn k (map as_appended l)
    /\ ((forall w' p f, reply env (Writer_Append dst p tag f) w' = None) ->
        k = length l
        /\ outcome (run env (iterate_files (copy_append dst tag) l tt) w) = Returned (None, tt)).
Proof.
  revert w. induction l as [|f l IH]; intros w.
  - exists 0%nat. cbn. auto.
  - cbn [iterate_files]. rewrite run_bind. unfold copy_append at 1 3.
    rewrite run_call_bind. unfold then_run; cbn [logged outcome world trace run fst snd].
    destruct (reply env (Writer_Append dst (index.Path (fileset.Index f)) tag f) w)
      as [err|] eqn:Hreply.
    + exists 1%nat. cbn. split; [reflexivity|].
      intros Hall. rewrite Hall in Hreply. discriminate.
    + destruct (IH (after env (Writer_Append dst (index.Path (fileset.Index f)) tag f) w))
        as (k & Hk & Hall).
      exists (S k). split.
      * rewrite appended_app. cbn [firstn map]. cbn [appended flat_map app].
        f_equal. exact Hk.
      * intros H. destruct (Hall H) as [-> Ho]. split; [reflexivity | exact Ho].
Qed.

End copy_facts.








(** Iterating a fileset makes the calls of iterating its files; a panic
    of the reader adds none. *)
Lemma trace_Iterate env S (fs : fileset.FileSet)
    (cb : fileset.File -> S -> Prog (status * S)) (s : S) (w : World env) :
  trace (run env (r <- Iterate fs cb s ;; Return (fst r)) w) =
  trace (run env (iterate_files cb (fileset.files fs) s) w).
Proof.
  unfold Iterate. rewrite !run_bind.
  destruct (run env (iterate_files cb (fileset.files fs) s) w) as [o w' t].
  unfold then_run; cbn [outcome world trace].
  destruct o as [[[err|] s']|msg]; cbn [fst]; try destruct (fileset.panics fs);
    rewrite ?run_Return, ?run_Panic; cbn [outcome world trace]; rewrite ?run_Return;
    cbn [trace]; now rewrite ?app_nil_r.
Qed.






(** ** Getting a directory *)

(** In the byte order of strings, the strings with a given prefix are
    contiguous: what lies between two of them has the prefix too. *)
Lemma prefix_between (dir a x b : string) :
  strings.HasPrefix a dir = true -> strings.HasPrefix b dir = true ->
  strings.le a x -> strings.le x b ->
  strings.HasPrefix x dir = true.
Proof.
  unfold strings.HasPrefix, strings.le, String.leb.
  revert a x b. induction dir as [|c dir IH]; intros a x b Ha Hb Hax Hxb.
  - destruct x; reflexivity.
  - destruct a as [|ca a]; [discriminate|]. destruct b as [|cb b]; [discriminate|].
    cbn [String.prefix] in Ha, Hb.
    destruct (ascii_dec c ca) as [<-|]; [|discriminate].
    destruct (ascii_dec c cb) as [<-|]; [|discriminate].
    destruct x as [|cx x]; [discriminate|].
    cbn [String.compare] in Hax, Hxb. cbn [String.prefix].
    rewrite (Ascii.compare_antisym cx c) in Hxb.
    destruct (Ascii.compare c cx) eqn:Hc; cbn [CompOpp] in Hxb; try discriminate.
    apply Ascii.compare_eq_iff in Hc as <-.
    destruct (ascii_dec c c) as [_|n]; [|now elim n].
    now apply (IH a x b).
Qed.

Section get_facts.

Variable d : Imports.
Variable mf : string -> bool.

Let path (f : fileset.File) : string := index.Path (fileset.Index f).

(** While [dir] is set, every file below [dir] in a path-ordered stream
    that starts at or after a path below [dir] is kept. *)
Lemma kept_below (dir lo : string) (l : list fileset.File) :
  dir <> "" ->
  strings.HasPrefix lo dir = true ->
  path_ordered l ->
  (forall y, In y l -> strings.le lo (path y)) ->
  forall x, In x l -> strings.HasPrefix (path x) dir = true ->
  In x (fileset.filter_with (get_filter d mf) dir l).
Proof.
  intros Hdir Hlo. induction l as [|y l IH]; intros Hsorted Hge x Hx Hpre; [contradiction|].
  apply StronglySorted_inv in Hsorted as [Hsorted Hy].
  cbn [fileset.filter_with]. unfold get_filter at 1.
  apply String.eqb_neq in Hdir as Hdir'. rewrite Hdir'. cbn [negb andb].
  destruct (strings.HasPrefix (index.Path (fileset.Index y)) dir) eqn:Hyd.
  - destruct Hx as [->|Hx]; [now left|]. right.
    apply IH; auto. intros z Hz. apply Hge. now right.
  - destruct Hx as [->|Hx]; [unfold path in Hpre; congruence|]. exfalso.
    rewrite Forall_forall in Hy.
    assert (strings.HasPrefix (path y) dir = true) as Hcontra.
    { apply (prefix_between dir lo (path y) (path x)); auto.
      - apply Hge. now left.
      - apply Hy, Hx. }
    unfold path in Hcontra. congruence.
Qed.

(** The variable [dir] after the filter has been called on the files of
    [l], starting from [dir]. *)
Lemma filter_with_app (S : Type) (pred : index.Index -> S -> bool * S) (l1 l2 : list fileset.File) :
  forall s, exists s',
    fileset.filter_with pred s (l1 ++ l2) =
    (fileset.filter_with pred s l1 ++ fileset.filter_with pred s' l2)%list.
Proof.
  induction l1 as [|f l1 IH]; intros s; cbn [app fileset.filter_with].
  - exists s. reflexivity.
  - destruct (pred (fileset.Index f) s) as [keep s1].
    destruct (IH s1) as [s' ->]. exists s'. now destruct keep.
Qed.

Lemma directory_subtree_kept (before after_ : list fileset.File) (dirEntry x : fileset.File) :
  IsDir d "" = false ->
  path_ordered (before ++ dirEntry :: after_) ->
  mf (path dirEntry) = true ->
  IsDir d (path dirEntry) = true ->
  In x after_ ->
  strings.HasPrefix (path x) (path dirEntry) = true ->
  exists out_before out_after,
    fileset.filter_with (get_filter d mf) "" (before ++ dirEntry :: after_) =
    (out_before ++ dirEntry :: out_after)%list
    /\ In x out_after.
Proof.
  intros Hempty Hsorted Hmatch Hdir Hx Hpre.
  destruct (filter_with_app _ (get_filter d mf) before (dirEntry :: after_) "") as [s ->].
  exists (fileset.filter_with (get_filter d mf) "" before).
  assert (Hafter : path_ordered after_ /\ forall y, In y after_ -> strings.le (path dirEntry) (path y)).
  { unfold path_ordered in Hsorted.
    assert (StronglySorted
              (fun a b => strings.le (index.Path (fileset.Index a)) (index.Path (fileset.Index b)))
              (dirEntry :: after_)) as Htail.
    { clear -Hsorted. induction before as [|b before IH]; [exact Hsorted|].
      apply StronglySorted_inv in Hsorted as [Hs _]. auto. }
    apply StronglySorted_inv in Htail as [Hs Hall]. split; [exact Hs|].
    rewrite Forall_forall in Hall. exact Hall. }
  destruct Hafter as [Hsorted' Hge].
  assert (Hstep : exists s2,
            get_filter d mf (fileset.Index dirEntry) s = (true, s2)
            /\ s2 <> "" /\ strings.HasPrefix (path dirEntry) s2 = true).
  { unfold get_filter. fold (path dirEntry).
    destruct (negb (s =? "")%string && strings.HasPrefix (path dirEntry) s) eqn:Hset.
    - apply andb_true_iff in Hset as [Hs Hds].
      apply negb_true_iff, String.eqb_neq in Hs. exists s. auto.
    - cbv zeta. rewrite Hmatch, Hdir. cbn [andb]. exists (path dirEntry).
      repeat split; [|apply HasPrefix_refl].
      intros Heq. rewrite Heq in Hdir. congruence. }
  destruct Hstep as (s2 & Hstep & Hs2 & Hds2).
  cbn [fileset.filter_with]. rewrite Hstep.
  eexists. split; [reflexivity|].
  apply (kept_below s2 (path dirEntry)); auto.
  eapply HasPrefix_trans; eauto.
Qed.

End get_facts.

(** C10.  In [getFile], when the stream the filter reads (the opened
    fileset with its directories inserted) is path-ordered: once a
    directory entry matches the glob, it is in the stream written to the
    tar writer, and so is, after it, every later entry of the stream whose
    path has the directory's path as a prefix, whether that path matches
    the glob or not. *)
Theorem getFile_directory_pulls_subtree
    (d : Imports) (env : Env) (w : World env) (commit : pfs.Commit) (glob : string)
    (indexOpt : index.Option) (mf : string -> bool)
    (commit' : pfs.Commit) (fs : fileset.FileSet) (w_open : World env) (t_open : list Call)
    (before after_ : list fileset.File) (dirEntry x : fileset.File)
    (Hglob : parseGlob d glob = Ok (indexOpt, mf))
    (Hopen : run env (openCommit commit [indexOpt]) w =
             mkRun (Returned (Ok (commit', fs))) w_open t_open)
    (Hstream : fileset.files (fileset.NewDirInserter fs) = (before ++ dirEntry :: after_)%list)
    (Hordered : path_ordered (before ++ dirEntry :: after_))
    (Hempty : IsDir d "" = false)
    (Hmatch : mf (index.Path (fileset.Index dirEntry)) = true)
    (Hdir : IsDir d (index.Path (fileset.Index dirEntry)) = true)
    (Hlater : In x after_)
    (Hbelow : strings.HasPrefix (index.Path (fileset.Index x))
                (index.Path (fileset.Index dirEntry)) = true) :
  exists out_before out_after,
    trace (run env (getFile d commit glob) w) =
      (t_open ++ [WriteTarStream
                    (fileset.mkFileSet (out_before ++ dirEntry :: out_after)
                                       (fileset.panics fs))])%list
    /\ In x out_after.
Proof.
  destruct (directory_subtree_kept d mf before after_ dirEntry x
              Hempty Hordered Hmatch Hdir Hlater Hbelow)
    as (out_before & out_after & Hout & Hin).
  exists out_before, out_after. split; [|exact Hin].
  unfold getFile. rewrite Hglob, run_bind, Hopen.
  unfold then_run; cbn [outcome world trace].
  unfold call. rewrite run_Do, run_Return. cbn [logged trace].
  unfold fileset.NewIndexFilter. rewrite Hstream, Hout. reflexivity.
Qed.

(** ** Inspecting an absent file *)

Lemma resolve_In (f : fileset.File) (l : list fileset.File) :
  In f (fileset.resolve l) -> In f l.
Proof.
  induction l as [|g l IH]; cbn [fileset.resolve]; [auto|].
  assert (Hlive : In f (fileset.live g) -> f = g).
  { unfold fileset.live. destruct (index.Deleted (fileset.Index g)); cbn; intuition. }
  destruct l as [|h l].
  - intros H. left. symmetry. auto.
  - destruct (index.Path (fileset.Index g) =? index.Path (fileset.Index h))%string.
    + intros H. right. auto.
    + intros H. apply in_app_or in H as [H|H]; [left; symmetry; auto | right; auto].
Qed.

Lemma last_char_cons (c : ascii) (s : string) :
  strings.last_char s <> None -> strings.last_char (String c s) = strings.last_char s.
Proof. destruct s; cbn; [congruence | reflexivity]. Qed.

(** A parent of [x] is a proper prefix of [x] that ends in "/". *)
Lemma parents_from_spec (x acc q : string) :
  In q (fileset.parents_from acc x) ->
  exists pre rest,
    x = pre ++ rest /\ q = acc ++ pre /\ strings.last_char pre = Some "/"%char.
Proof.
  revert acc. induction x as [|c r IH]; intros acc Hq; [contradiction|].
  cbn [fileset.parents_from] in Hq. destruct r as [|c' r']; [contradiction|].
  assert (Hrec : In q (fileset.parents_from (acc ++ String c "") (String c' r')) ->
                 exists pre rest,
                   String c (String c' r') = pre ++ rest /\ q = acc ++ pre
                   /\ strings.last_char pre = Some "/"%char).
  { intros H. destruct (IH _ H) as (pre & rest & Hx & -> & Hlast).
    exists (String c pre), rest. cbn [String.append]. rewrite Hx. repeat split.
    - now rewrite append_assoc.
    - rewrite last_char_cons; [exact Hlast | congruence]. }
  destruct (Ascii.eqb c "/") eqn:Hc; [|auto].
  destruct Hq as [<-|Hq]; [|auto].
  apply Ascii.eqb_eq in Hc as ->.
  exists "/", (String c' r'). repeat split.
Qed.

Lemma parents_spec (x q : string) :
  In q (fileset.parents x) ->
  strings.HasPrefix x q = true /\ strings.last_char q = Some "/"%char.
Proof.
  intros H. destruct (parents_from_spec x "" q H) as (pre & rest & -> & -> & Hlast).
  cbn [String.append]. split; [apply HasPrefix_app | exact Hlast].
Qed.

(** [NewDirInserter] adds nothing but directories above the files it reads. *)
Lemma insert_dirs_In (f : fileset.File) (l : list fileset.File) (emitted : list string) :
  In f (fileset.insert_dirs emitted l) ->
  In f l \/
  exists e q, In e l /\ In q (fileset.parents (index.Path (fileset.Index e)))
              /\ f = fileset.dirFile q.
Proof.
  revert emitted. induction l as [|e l IH]; intros emitted H; [contradiction|].
  cbn [fileset.insert_dirs] in H. apply in_app_or in H as [H|[<-|H]].
  - right. apply in_map_iff in H as (q & <- & Hq). apply filter_In in Hq as [Hq _].
    exists e, q. repeat split; [now left | exact Hq].
  - left. now left.
  - destruct (IH _ H) as [Hl|(e' & q & He' & Hq & ->)].
    + left. now right.
    + right. exists e', q. repeat split; [now right | exact Hq].
Qed.

Lemma filter_none {A : Type} (p : A -> bool) (l : list A) :
  (forall a, In a l -> p a = false) -> filter p l = [].
Proof.
  induction l as [|a l IH]; intros H; cbn [filter]; [reflexivity|].
  rewrite (H a (or_introl eq_refl)). apply IH. intros b Hb. apply H. now right.
Qed.

(** C7.  [inspectFile] on a file of a commit that opens (so the commit is
    finished) on [entries], when the cleaned path [p] of the file is absent
    from the commit (no entry has the path [p], and no entry has a path
    that starts with [p + "/"]): the result is the error
    [ErrFileNotFound] naming the file, and no file information.  A cleaned
    path does not end in "/" (the root is turned into the empty path). *)
Theorem inspectFile_absent_not_found
    (d : Imports) (env : Env) (w : World env) (file : pfs.File)
    (commit' : pfs.Commit) (entries : list fileset.File)
    (w_open : World env) (t_open : list Call) :
  let p := if (cleanPath d (pfs.File_Path file) =? "/")%string
           then "" else cleanPath d (pfs.File_Path file) in
  forall
    (Hopen : run env (openCommit (pfs.File_Commit file) [index.WithPrefix p]) w
             = mkRun (Returned (Ok (commit',
                        fileset.of_list (fileset.narrow [index.WithPrefix p] entries))))
                     w_open t_open)
    (Hclean : strings.last_char p <> Some "/"%char)
    (Habsent : forall e, In e entries ->
                 index.Path (fileset.Index e) <> p
                 /\ strings.HasPrefix (index.Path (fileset.Index e)) (p ++ "/") = false),
  run env (inspectFile d file) w =
  mkRun (Returned (Err (ErrFileNotFound file))) w_open t_open.
Proof.
  intros p Hopen Hclean Habsent.
  unfold inspectFile. cbv zeta. fold p. rewrite run_bind, Hopen.
  unfold then_run; cbn [outcome world trace].
  assert (Hnone :
    fileset.filter_with (inspect_filter p) tt
      (fileset.insert_dirs []
         (fileset.resolve (fileset.narrow [index.WithPrefix p] entries))) = []).
  { unfold inspect_filter.
    rewrite (filter_with_pure
               (fun idx => (index.Path idx =? p)%string
                           || strings.HasPrefix (index.Path idx) (p ++ "/"))).
    apply filter_none. intros f Hf.
    apply insert_dirs_In in Hf as [Hf|(e & q & He & Hq & ->)].
    - apply resolve_In in Hf. apply filter_In in Hf as [Hf _].
      destruct (Habsent f Hf) as [Hne Hpre].
      apply String.eqb_neq in Hne. rewrite Hne, Hpre. reflexivity.
    - apply resolve_In in He. apply filter_In in He as [He _].
      destruct (Habsent e He) as [_ Hpre].
      destruct (parents_spec _ _ Hq) as [Heq Hlast].
      cbn [fileset.dirFile fileset.Index index.Path].
      apply orb_false_iff. split.
      + apply String.eqb_neq. intros ->. congruence.
      + destruct (strings.HasPrefix q (p ++ "/")) eqn:Hqp; [|reflexivity].
        rewrite (HasPrefix_trans _ _ _ Heq Hqp) in Hpre. discriminate. }
  unfold fileset.NewIndexFilter, fileset.NewDirInserter, fileset.NewIndexResolver.
  cbn [fileset.files fileset.panics fileset.of_list].
  rewrite Hnone. cbn. now rewrite app_nil_r.
Qed.

(** ** The master loop *)

Module master_facts.

Import ITree.ITree ITree.ITreeFacts ITree.Props.Leaf.
Import ITree.Events.State ITree.Events.StateFacts.
Import ITreeNotations.
Import master.
Local Open Scope itree_scope.

Section facts.

Variable interval : nat -> Z.
Variable path_Join : list string -> string.
Variable prefix : string.

Let lockPath := path_Join [prefix; masterLockPath].

(** Nothing returns from a panic. *)
Lemma panics_with_no_leaf (err : status) (u : unit) : ~ Leaf u (panics_with err).
Proof.
  unfold panics_with. intros H.
  apply Leaf_bind_inv in H as (v & _ & _). destruct v.
Qed.

Lemma master_round (n : nat) :
  master_from interval path_Join prefix n ≈
  r <- ITree.trigger (Lock lockPath) ;;
  match r with
  | Err err => after_failure interval path_Join prefix n err
  | Ok masterCtx =>
      e <- ITree.trigger (GC masterCtx) ;;
      ITree.trigger (Unlock lockPath masterCtx) ;;
      match e with
      | Some err => after_failure interval path_Join prefix n err
      | None => panics_with None
      end
  end.
Proof.
  unfold master_from, retry_from. rewrite unfold_iter.
  unfold retry_round at 1, sweep. fold lockPath.
  rewrite !bind_bind. apply eutt_eq_bind. intros [masterCtx|err].
  - rewrite !bind_bind. apply eutt_eq_bind. intros e.
    rewrite !bind_bind. apply eutt_eq_bind. intros _.
    rewrite bind_ret_l. destruct e as [err|].
    + unfold NewInfiniteBackOff, notify, after_failure.
      rewrite !bind_bind. apply eutt_eq_bind. intros _.
      rewrite bind_ret_l, !bind_bind. apply eutt_eq_bind. intros _.
      rewrite bind_ret_l, bind_tau, tau_eutt. reflexivity.
    + rewrite !bind_ret_l. reflexivity.
  - rewrite bind_ret_l.
    unfold NewInfiniteBackOff, notify, after_failure.
    rewrite !bind_bind. apply eutt_eq_bind. intros _.
    rewrite bind_ret_l, !bind_bind. apply eutt_eq_bind. intros _.
    rewrite bind_ret_l, bind_tau, tau_eutt. reflexivity.
Qed.

Variable script : nat -> Round.

Let h := scripted script.

Lemma interp_panics_with (v : status) (s : Scripted) :
  interp_state h (panics_with v) s ≈ exits v s.
Proof.
  unfold panics_with. rewrite interp_state_bind, interp_state_trigger.
  cbn. unfold exits. rewrite bind_bind. apply eutt_eq_bind. intros [].
Qed.

Lemma interp_after_failure (n : nat) (err : error) (s : Scripted) :
  interp_state h (after_failure interval path_Join prefix n err) s ≈
  interp_state h (master_from interval path_Join prefix (S n))
    (mkScripted (S (round s)) (did s ++ [did_log err; did_Sleep (interval n)])).
Proof.
  unfold after_failure.
  rewrite interp_state_bind, interp_state_trigger. cbn. rewrite bind_ret_l. cbn.
  rewrite interp_state_bind, interp_state_trigger. cbn. rewrite bind_ret_l. cbn.
  rewrite <- app_assoc. reflexivity.
Qed.

(** A round of the script that fails: [master] sweeps, logs the error,
    sleeps, and is at the next round. *)
Lemma failed_round (n : nat) (s : Scripted) (err : error) :
  failure (script (round s)) = Some err ->
  interp_state h (master_from interval path_Join prefix n) s ≈
  interp_state h (master_from interval path_Join prefix (S n))
    (after_rounds interval lockPath script 1 n s).
Proof.
  intros Hfail. rewrite master_round. fold lockPath.
  rewrite interp_state_bind, interp_state_trigger. cbn. rewrite bind_ret_l. cbn.
  destruct (script (round s)) as [e|masterCtx e|masterCtx] eqn:Hround;
    cbn in Hfail; [| |discriminate].
  - rewrite interp_after_failure. cbn. rewrite <- !app_assoc. reflexivity.
  - rewrite interp_state_bind, interp_state_trigger. cbn. rewrite bind_ret_l. cbn.
    rewrite interp_state_bind, interp_state_trigger. cbn. rewrite bind_ret_l. cbn.
    rewrite Hround. rewrite interp_after_failure. cbn.
    rewrite <- !app_assoc. reflexivity.
Qed.

(** A round of the script in which the garbage collection returns no
    error: [master] sweeps and panics with [nil]. *)
Lemma returned_round (n : nat) (s : Scripted) (masterCtx : nat) :
  script (round s) = GCReturns masterCtx ->
  interp_state h (master_from interval path_Join prefix n) s ≈
  exits None (mkScripted (round s) (did s ++ swept lockPath (script (round s)))).
Proof.
  intros Hround. rewrite master_round. fold lockPath.
  rewrite interp_state_bind, interp_state_trigger. cbn. rewrite bind_ret_l. cbn.
  rewrite Hround.
  rewrite interp_state_bind, interp_state_trigger. cbn. rewrite bind_ret_l. cbn.
  rewrite interp_state_bind, interp_state_trigger. cbn. rewrite bind_ret_l. cbn.
  rewrite Hround, interp_panics_with. unfold note. cbn.
  rewrite <- !app_assoc. reflexivity.
Qed.

Lemma failed_rounds (k : nat) :
  forall (n : nat) (s : Scripted),
    (forall i, (i < k)%nat -> failure (script (round s + i)) <> None) ->
    interp_state h (master_from interval path_Join prefix n) s ≈
    interp_state h (master_from interval path_Join prefix (n + k))
      (after_rounds interval lockPath script k n s).
Proof.
  induction k as [|k IH]; intros n s Hfail.
  - rewrite Nat.add_0_r. reflexivity.
  - destruct (failure (script (round s))) as [err|] eqn:Hfirst.
    2:{ exfalso. apply (Hfail 0%nat); [lia|]. now rewrite Nat.add_0_r. }
    rewrite (failed_round n s err Hfirst).
    rewrite IH.
    + replace (S n + k)%nat with (n + S k)%nat by lia. reflexivity.
    + intros i Hi. cbn [after_rounds round].
      replace (S (round s) + i)%nat with (round s + S i)%nat by lia.
      apply Hfail. lia.
Qed.

Lemma round_after_rounds (k n : nat) (s : Scripted) :
  round (after_rounds interval lockPath script k n s) = (round s + k)%nat.
Proof.
  revert n s. induction k as [|k IH]; intros n s; cbn [after_rounds].
  - now rewrite Nat.add_0_r.
  - rewrite IH. cbn [round]. lia.
Qed.

End facts.

(** C6.  [master] never returns normally: whatever the world answers, no
    value is returned; leaving the retry loop leads to [panic].  Each round
    takes the lock, and with the lock runs one garbage collection and
    releases the lock when it returns; an error of either is logged, the
    wait of the backoff is slept, and the next round starts; a garbage
    collection that returns no error ends the loop, and [master] panics.
    So in a world where [k] rounds in a row fail, [master] has swept, logged
    and slept [k] times and is in round [k], for every [k]; and in the first
    round in which the garbage collection returns no error, it panics, the
    lock released. *)
Theorem master_retries_until_panic
    (interval : nat -> Z) (path_Join : list string -> string) (prefix : string)
    (script : nat -> Round) (k : nat) (s : Scripted)
    (Hfail : forall i, (i < k)%nat -> failure (script (round s + i)) <> None) :
  let lockPath := path_Join [prefix; masterLockPath] in
  let m := master interval path_Join prefix in
  let from := master_from interval path_Join prefix in
  let s_k := after_rounds interval lockPath script k 0 s in
  (forall u, ~ Leaf u m)
  /\ (forall n,
        from n ≈
        r <- ITree.trigger (Lock lockPath) ;;
        match r with
        | Err err => after_failure interval path_Join prefix n err
        | Ok masterCtx =>
            e <- ITree.trigger (GC masterCtx) ;;
            ITree.trigger (Unlock lockPath masterCtx) ;;
            match e with
            | Some err => after_failure interval path_Join prefix n err
            | None => panics_with None
            end
        end)
  /\ interp_state (scripted script) m s ≈ interp_state (scripted script) (from k) s_k
  /\ round s_k = (round s + k)%nat
  /\ (forall masterCtx,
        script (round s + k) = GCReturns masterCtx ->
        interp_state (scripted script) m s ≈
        exits None
          (mkScripted (round s + k)
             (did s_k ++ [did_Lock lockPath; did_GC masterCtx;
                          did_Unlock lockPath masterCtx]))).
Proof.
  intros lockPath m from s_k.
  assert (Hk : interp_state (scripted script) m s ≈
               interp_state (scripted script) (from k) s_k).
  { subst m from s_k. change (master interval path_Join prefix)
      with (master_from interval path_Join prefix 0).
    rewrite (failed_rounds interval path_Join prefix script k 0 s Hfail).
    reflexivity. }
  assert (Hround : round s_k = (round s + k)%nat)
    by apply round_after_rounds.
  split; [|split; [|split; [exact Hk|split; [exact Hround|]]]].
  - intros u H. subst m. unfold master in H.
    apply Leaf_bind_inv in H as (err & _ & H).
    exact (panics_with_no_leaf err u H).
  - intros n. apply master_round.
  - intros masterCtx Hreturns. rewrite Hk. subst from.
    rewrite (returned_round interval path_Join prefix script k s_k masterCtx).
    + rewrite Hround, Hreturns. reflexivity.
    + now rewrite Hround.
Qed.

Lemma master_retries_until_panic_witness :
  interp_state (scripted example_script)
    (master example_interval (String.concat "/") "pachyderm") (mkScripted 0 [])
  ≈ exits None
      (mkScripted 3
         [ did_Lock "pachyderm/pfs-master-lock";
           did_log (external "lock: context canceled"); did_Sleep 500000000;
           did_Lock "pachyderm/pfs-master-lock";
           did_log (external "lock: context canceled"); did_Sleep 1000000000;
           did_Lock "pachyderm/pfs-master-lock"; did_GC 7;
           did_Unlock "pachyderm/pfs-master-lock" 7;
           did_log (external "gc: storage unavailable"); did_Sleep 2000000000;
           did_Lock "pachyderm/pfs-master-lock"; did_GC 8;
           did_Unlock "pachyderm/pfs-master-lock" 8 ]).
Proof.
  assert (Hfail : forall i, (i < 3)%nat ->
            failure (example_script (round (mkScripted 0 []) + i)) <> None).
  { intros i Hi. destruct i as [|[|[|i]]]; cbn; try discriminate. lia. }
  exact (proj2 (proj2 (proj2 (proj2
           (master_retries_until_panic example_interval (String.concat "/") "pachyderm"
              example_script 3 (mkScripted 0 []) Hfail)))) 8%nat eq_refl).
Defined.

End master_facts.

(** ** The reader check comes first *)

(** X1.  The reader check comes first in [openCommit]: when the caller is
    not authorized, the error of the check is returned, and the check is
    the only call made (the commit is not even inspected). *)
Theorem openCommit_unauthorized
    (env : Env) (w : World env) (commit : pfs.Commit) (opts : list index.Option)
    (err : error)
    (Hdenied : reply env (CheckIsAuthorized (pfs.Commit_Repo commit) auth.Scope_READER) w
               = Some err) :
  run env (openCommit commit opts) w =
  mkRun (Returned (Err err))
        (after env (CheckIsAuthorized (pfs.Commit_Repo commit) auth.Scope_READER) w)
        [CheckIsAuthorized (pfs.Commit_Repo commit) auth.Scope_READER].
Proof.
  unfold openCommit. rewrite run_call_bind, Hdenied, run_Return. reflexivity.
Qed.

(** ** The theorems on concrete inputs

    Each theorem above that has hypotheses is applied here to the in-memory
    environment of [mem] (or, for [master], to the example script), where
    its hypotheses hold by computation. *)

Lemma finished_commit_rejects_fileset_witness :
  run mem.env (addFileset mem.done_commit mem.sealed_id) mem.initial =
    mkRun (Returned (Some (ErrCommitFinished mem.done_commit))) mem.initial
          [inspectCommit mem.done_commit pfs.CommitState_STARTED]
  /\ run mem.env (withCommitWriter mem.done_commit (fun _ _ => Return None)) mem.initial =
    mkRun (Returned (Some (ErrCommitFinished mem.done_commit))) mem.initial
          [inspectCommit mem.done_commit pfs.CommitState_STARTED].
Proof.
  apply (finished_commit_rejects_fileset mem.env mem.initial mem.done_commit
           mem.sealed_id (fun _ _ => Return None) mem.done_info).
  - reflexivity.
  - discriminate.
Defined.

Lemma unfinished_commit_is_not_read_witness :
  run mem.env (getFileset mem.open_commit) mem.initial =
    mkRun (Returned (Err (ErrCommitNotFinished mem.open_commit))) mem.initial
          [inspectCommit mem.open_commit pfs.CommitState_STARTED]
  /\ (forall opts,
        run mem.env (openCommit mem.open_commit opts) mem.initial =
        mkRun (Returned (Err (ErrCommitNotFinished mem.open_commit))) mem.initial
              [CheckIsAuthorized mem.repo auth.Scope_READER;
               inspectCommit mem.open_commit pfs.CommitState_STARTED])
  /\ (forall glob indexOpt mf,
        parseGlob mem.imports glob = Ok (indexOpt, mf) ->
        run mem.env (getFile mem.imports mem.open_commit glob) mem.initial =
        mkRun (Returned (Some (ErrCommitNotFinished mem.open_commit))) mem.initial
              [CheckIsAuthorized mem.repo auth.Scope_READER;
               inspectCommit mem.open_commit pfs.CommitState_STARTED])
  /\ (forall path,
        run mem.env (inspectFile mem.imports (pfs.mkFile mem.open_commit path)) mem.initial =
        mkRun (Returned (Err (ErrCommitNotFinished mem.open_commit))) mem.initial
              [CheckIsAuthorized mem.repo auth.Scope_READER;
               inspectCommit mem.open_commit pfs.CommitState_STARTED])
  /\ (forall path full cb,
        run mem.env (listFile mem.imports (pfs.mkFile mem.open_commit path) full cb)
            mem.initial =
        mkRun (Returned (Some (ErrCommitNotFinished mem.open_commit))) mem.initial
              [CheckIsAuthorized mem.repo auth.Scope_READER;
               inspectCommit mem.open_commit pfs.CommitState_STARTED])
  /\ (forall path cb,
        run mem.env (walkFile mem.imports (pfs.mkFile mem.open_commit path) cb) mem.initial =
        mkRun (Returned (Some (ErrCommitNotFinished mem.open_commit))) mem.initial
              [CheckIsAuthorized mem.repo auth.Scope_READER;
               inspectCommit mem.open_commit pfs.CommitState_STARTED])
  /\ (forall glob indexOpt mf cb,
        parseGlob mem.imports glob = Ok (indexOpt, mf) ->
        run mem.env (globFile mem.imports mem.open_commit glob cb) mem.initial =
        mkRun (Returned (Some (ErrCommitNotFinished mem.open_commit))) mem.initial
              [CheckIsAuthorized mem.repo auth.Scope_READER;
               inspectCommit mem.open_commit pfs.CommitState_STARTED]).
Proof.
  apply (unfinished_commit_is_not_read mem.imports mem.env mem.initial
           mem.open_commit mem.open_info); reflexivity.
Defined.

Lemma copyFile_overwrite_not_supported_witness :
  (pfs.CommitInfo_Finished mem.done_info <> None ->
   pfs.CommitInfo_Finished mem.open_info = None ->
   run mem.env (copyFile mem.imports (pfs.mkFile mem.done_commit "/dir")
                  (pfs.mkFile mem.open_commit "/new") true) mem.initial =
   mkRun (Returned (Some (errors_New "overwrite not yet supported"))) mem.initial
         [inspectCommit mem.done_commit pfs.CommitState_STARTED;
          inspectCommit mem.open_commit pfs.CommitState_STARTED])
  /\ (pfs.CommitInfo_Finished mem.done_info = None ->
      forall overwrite,
        run mem.env (copyFile mem.imports (pfs.mkFile mem.done_commit "/dir")
                       (pfs.mkFile mem.open_commit "/new") overwrite) mem.initial =
        mkRun (Returned (Some (ErrCommitNotFinished mem.done_commit))) mem.initial
              [inspectCommit mem.done_commit pfs.CommitState_STARTED])
  /\ (pfs.CommitInfo_Finished mem.done_info <> None ->
      pfs.CommitInfo_Finished mem.open_info <> None ->
      forall overwrite,
        run mem.env (copyFile mem.imports (pfs.mkFile mem.done_commit "/dir")
                       (pfs.mkFile mem.open_commit "/new") overwrite) mem.initial =
        mkRun (Returned (Some (ErrCommitFinished mem.open_commit))) mem.initial
              [inspectCommit mem.done_commit pfs.CommitState_STARTED;
               inspectCommit mem.open_commit pfs.CommitState_STARTED]).
Proof.
  apply (copyFile_overwrite_not_supported mem.imports mem.env mem.initial
           (pfs.mkFile mem.done_commit "/dir") (pfs.mkFile mem.open_commit "/new")
           mem.done_info mem.open_info); reflexivity.
Defined.


Lemma inspectFile_absent_not_found_witness :
  run mem.env (inspectFile mem.imports (pfs.mkFile mem.done_commit "/di")) mem.initial =
  mkRun (Returned (Err (ErrFileNotFound (pfs.mkFile mem.done_commit "/di")))) mem.initial
        [CheckIsAuthorized mem.repo auth.Scope_READER;
         inspectCommit mem.done_commit pfs.CommitState_STARTED;
         commitStore_GetFileset mem.done_commit;
         storage_Open [mem.sealed_id] [index.WithPrefix "/di"]].
Proof.
  apply (inspectFile_absent_not_found mem.imports mem.env mem.initial
           (pfs.mkFile mem.done_commit "/di") mem.done_commit mem.stored).
  - reflexivity.
  - discriminate.
  - intros e [<-|[<-|[<-|[]]]]; (split; [discriminate | reflexivity]).
Defined.

Lemma getFile_directory_pulls_subtree_witness :
  exists out_before out_after,
    trace (run mem.env (getFile mem.imports mem.done_commit "/dir/") mem.initial) =
      ([CheckIsAuthorized mem.repo auth.Scope_READER;
        inspectCommit mem.done_commit pfs.CommitState_STARTED;
        commitStore_GetFileset mem.done_commit;
        storage_Open [mem.sealed_id] [index.WithPrefix "/dir/"]]
       ++ [WriteTarStream
             (fileset.mkFileSet (out_before ++ fileset.dirFile "/dir/" :: out_after) None)])%list
    /\ In (mem.entry "/dir/y" "Y") out_after.
Proof.
  apply (getFile_directory_pulls_subtree mem.imports mem.env mem.initial mem.done_commit
           "/dir/" (index.WithPrefix "/dir/") (fun p => (p =? "/dir/")%string)
           mem.done_commit
           (fileset.of_list [mem.entry "/dir/x" "X"; mem.entry "/dir/y" "Y"])
           mem.initial
           [CheckIsAuthorized mem.repo auth.Scope_READER;
            inspectCommit mem.done_commit pfs.CommitState_STARTED;
            commitStore_GetFileset mem.done_commit;
            storage_Open [mem.sealed_id] [index.WithPrefix "/dir/"]]
           [fileset.dirFile "/"] [mem.entry "/dir/x" "X"; mem.entry "/dir/y" "Y"]
           (fileset.dirFile "/dir/") (mem.entry "/dir/y" "Y")).
  - reflexivity.
  - reflexivity.
  - reflexivity.
  - repeat constructor.
  - reflexivity.
  - reflexivity.
  - reflexivity.
  - right. now left.
  - reflexivity.
Defined.

Lemma openCommit_unauthorized_witness :
  run mem.env (openCommit mem.done_commit []) mem.locked =
  mkRun (Returned (Err (external "not authorized"))) mem.locked
        [CheckIsAuthorized mem.repo auth.Scope_READER].
Proof.
  apply (openCommit_unauthorized mem.env mem.locked mem.done_commit []
           (external "not authorized")).
  reflexivity.
Defined.

(** * Further properties of the driver *)

(** ** [withCommitWriter] and its writer *)

(** [getDefaultTag] within a method: the clock is read, and the method goes
    on with the tag. *)
Lemma run_getDefaultTag_bind env R (k : string -> Prog R) (w : World env) :
  run env (bind getDefaultTag k) w =
  logged time_Now_UnixNano
    (run env (k (fmt.Sprint [arg_string "%012d"; arg_int (reply env time_Now_UnixNano w)]))
         (after env time_Now_UnixNano w)).
Proof. unfold getDefaultTag. cbn [bind call]. now rewrite run_Do. Qed.

(** X3.  Once [withCommitWriter] has created a writer it closes it, whatever
    happens next: either the commit is rejected after the inspection alone
    (the inspection fails, or the commit is finished) and an error is
    returned, or a writer is created and the last call made is the close of
    that writer -- also when the callback fails, and when it panics. *)
Theorem withCommitWriter_closes_its_writer
    (env : Env) (w : World env) (commit : pfs.Commit)
    (cb : string -> fileset.Writer -> Prog status) :
  let inspect := inspectCommit commit pfs.CommitState_STARTED in
  let fsw := reply env storage_NewWriter (after env inspect w) in
  let r := run env (withCommitWriter commit cb) w in
  (trace r = [inspect] /\ exists err, outcome r = Returned (Some err))
  \/ (exists t, trace r = (inspect :: storage_NewWriter :: t ++ [Writer_Close fsw])%list).
Proof.
  intros inspect fsw r. subst inspect fsw r.
  unfold withCommitWriter. rewrite run_call_bind.
  destruct (reply env (inspectCommit _ _) w) as [commitInfo|err].
  2:{ left. rewrite run_Return. cbn. eauto. }
  destruct (pfs.CommitInfo_Finished commitInfo).
  { left. rewrite run_Return. cbn. eauto. }
  right. rewrite run_call_bind, run_defer.
  set (body := run env _ _).
  exists (trace body).
  unfold then_deferred.
  destruct (outcome body) as [retErr|msg]; cbv beta. all: try destruct retErr; rewrite run_call_bind, run_Return; reflexivity.
Qed.

(** X4.  [withCommitWriter] returns no error only when the fileset was added to
    the commit: the commit inspected as open, the callback returned no
    error, the writer closed into a fileset [id], and the last three calls
    are that close, the addition of [id] to the inspected commit, and the
    deferred (second) close of the writer. *)
Theorem withCommitWriter_nil_means_added
    (env : Env) (w : World env) (commit : pfs.Commit)
    (cb : string -> fileset.Writer -> Prog status) :
  let inspect := inspectCommit commit pfs.CommitState_STARTED in
  let w1 := after env inspect w in
  let fsw := reply env storage_NewWriter w1 in
  let w2 := after env storage_NewWriter w1 in
  let tag := fmt.Sprint [arg_string "%012d"; arg_int (reply env time_Now_UnixNano w2)] in
  let written := run env (cb tag fsw) (after env time_Now_UnixNano w2) in
  let r := run env (withCommitWriter commit cb) w in
  outcome r = Returned None ->
  exists commitInfo id t,
    reply env inspect w = Ok commitInfo
    /\ pfs.CommitInfo_Finished commitInfo = None
    /\ outcome written = Returned None
    /\ reply env (Writer_Close fsw) (world written) = Ok id
    /\ trace r = (t ++ [Writer_Close fsw;
                       commitStore_AddFileset (pfs.CommitInfo_Commit commitInfo) id;
                       Writer_Close fsw])%list.
Proof.
  intros inspect w1 fsw w2 tag written r. subst inspect w1 fsw w2 tag written r.
  unfold withCommitWriter. rewrite run_call_bind.
  destruct (reply env (inspectCommit _ _) w) as [commitInfo|err] eqn:Hinspect.
  2:{ rewrite run_Return. discriminate. }
  destruct (pfs.CommitInfo_Finished commitInfo) eqn:Hopen.
  { rewrite run_Return. discriminate. }
  rewrite run_call_bind, run_defer, run_getDefaultTag_bind, run_bind.
  destruct (run env (cb _ _) _) as [o wcb tcb].
  unfold then_run; cbn [outcome world trace].
  destruct o as [[err|]|msg].
  - rewrite run_Return. unfold then_deferred; cbn [logged outcome world trace].
    rewrite run_call_bind, run_Return. discriminate.
  - rewrite run_call_bind.
    destruct (reply env (Writer_Close _) wcb) as [id|err] eqn:Hclose.
    + unfold call. rewrite run_Do, run_Return.
      unfold then_deferred; cbn [logged outcome world trace].
      rewrite run_call_bind.
      destruct (reply env (commitStore_AddFileset _ _) _) as [err|]; cbv beta iota;
        rewrite run_Return; [discriminate|].
      intros _. exists commitInfo, id.
      exists (inspectCommit commit pfs.CommitState_STARTED :: storage_NewWriter
                :: time_Now_UnixNano :: tcb)%list.
      cbn [logged outcome world trace app].
      split; [reflexivity|split; [exact Hopen|split; [reflexivity|split; [reflexivity|]]]].
      now rewrite <- app_assoc.
    + rewrite run_Return. unfold then_deferred; cbn [logged outcome world trace].
      rewrite run_call_bind, run_Return. discriminate.
  - unfold then_deferred; cbn [logged outcome world trace].
    rewrite run_call_bind, run_Return. discriminate.
Qed.

(** X5.  Which error [withCommitWriter] returns on an open commit.  An error of
    the callback is returned as it is, after the deferred close of the
    writer, whatever that close answers; nothing is added to the commit.
    And when everything has succeeded (the callback, the close, the
    addition of the fileset to the commit) but the deferred second close of
    the writer fails, [withCommitWriter] returns the error of that close,
    although the fileset has been added. *)
Theorem withCommitWriter_error_precedence
    (env : Env) (w : World env) (commit : pfs.Commit)
    (cb : string -> fileset.Writer -> Prog status) (commitInfo : pfs.CommitInfo)
    (Hinspect : reply env (inspectCommit commit pfs.CommitState_STARTED) w = Ok commitInfo)
    (Hopen : pfs.CommitInfo_Finished commitInfo = None) :
  let inspect := inspectCommit commit pfs.CommitState_STARTED in
  let w1 := after env inspect w in
  let fsw := reply env storage_NewWriter w1 in
  let w2 := after env storage_NewWriter w1 in
  let tag := fmt.Sprint [arg_string "%012d"; arg_int (reply env time_Now_UnixNano w2)] in
  let written := run env (cb tag fsw) (after env time_Now_UnixNano w2) in
  let close := Writer_Close fsw in
  (forall err,
     outcome written = Returned (Some err) ->
     run env (withCommitWriter commit cb) w =
     mkRun (Returned (Some err)) (after env close (world written))
           ([inspect; storage_NewWriter; time_Now_UnixNano] ++ trace written ++ [close]))
  /\ (forall id err,
        outcome written = Returned None ->
        reply env close (world written) = Ok id ->
        let add := commitStore_AddFileset (pfs.CommitInfo_Commit commitInfo) id in
        let w3 := after env close (world written) in
        reply env add w3 = None ->
        reply env close (after env add w3) = Err err ->
        run env (withCommitWriter commit cb) w =
        mkRun (Returned (Some err)) (after env close (after env add w3))
              ([inspect; storage_NewWriter; time_Now_UnixNano] ++ trace written
               ++ [close; add; close])).
Proof.
  intros inspect w1 fsw w2 tag written close.
  subst inspect w1 fsw w2 tag written close.
  split.
  - intros err Hcb. unfold withCommitWriter.
    rewrite run_call_bind, Hinspect, Hopen.
    rewrite run_call_bind, run_defer, run_getDefaultTag_bind, run_bind.
    destruct (run env (cb _ _) _) as [o wcb tcb]. cbn [outcome world trace] in *. subst o.
    unfold then_run; cbn [outcome world trace].
    rewrite run_Return. unfold then_deferred; cbn [logged outcome world trace].
    rewrite run_call_bind, run_Return.
    unfold logged; cbn [outcome world trace app]. now rewrite app_nil_r.
  - intros id err Hcb Hclose add w3 Hadd Hsecond. subst add w3.
    unfold withCommitWriter.
    rewrite run_call_bind, Hinspect, Hopen.
    rewrite run_call_bind, run_defer, run_getDefaultTag_bind, run_bind.
    destruct (run env (cb _ _) _) as [o wcb tcb]. cbn [outcome world trace] in *. subst o.
    unfold then_run; cbn [outcome world trace].
    rewrite run_call_bind, Hclose. unfold call; cbn [bind].
    rewrite run_Do, run_Return, Hadd.
    unfold then_deferred; cbn [logged outcome world trace].
    rewrite run_Do, Hsecond, run_Return.
    unfold logged; cbn [outcome world trace app]. now rewrite <- app_assoc.
Qed.

(** ** Temporary filesets and their renewer *)

Lemma renewed_app (a b : list Call) : renewed (a ++ b) = (renewed a ++ renewed b)%list.
Proof. apply flat_map_app. Qed.

(** X6.  The renewer is told exactly what [withTmpUnorderedWriter] returns: when
    it returns an id, that id (the compacted one, with [compact]) is the
    one id added to the renewer; when it returns an error, or the callback
    panics, nothing is added.  (The callback is one that does not talk to
    a renewer itself.) *)
Theorem withTmpUnorderedWriter_renews_what_it_returns
    (d : Imports) (env : Env) (w : World env)
    (renewer : renew.StringSet) (compact : bool)
    (cb : fileset.UnorderedWriter -> Prog status)
    (Hcb : forall uw w', renewed (trace (run env (cb uw) w')) = []) :
  let r := run env (withTmpUnorderedWriter d renewer compact cb) w in
  renewed (trace r) =
  match outcome r with
  | Returned (Ok id) => [(renewer, id)]
  | _ => []
  end.
Proof.
  intros r. subst r. unfold withTmpUnorderedWriter.
  rewrite run_getDefaultTag_bind, run_call_bind.
  destruct (reply env (storage_NewUnorderedWriter _ _) _) as [uw|err].
  2:{ rewrite run_Return. reflexivity. }
  rewrite run_bind. specialize (Hcb uw).
  match goal with |- context [run env (cb uw) ?w'] => specialize (Hcb w') end.
  destruct (run env (cb uw) _) as [o wcb tcb]. cbn [trace] in Hcb.
  unfold then_run; cbn [logged outcome world trace].
  destruct o as [[err|]|msg].
  - rewrite run_Return. cbn [outcome trace renewed flat_map app].
    fold (renewed (tcb ++ [])). now rewrite renewed_app, Hcb.
  - rewrite run_call_bind.
    destruct (reply env (UnorderedWriter_Close uw) wcb) as [id|err].
    + destruct compact; cbn [negb].
      * rewrite run_call_bind.
        destruct (reply env (storage_Compact _ _) _) as [compactedID|err].
        -- rewrite run_call_bind, run_Return. cbn [logged outcome trace renewed flat_map app].
           fold (renewed (tcb ++ [UnorderedWriter_Close uw; storage_Compact [id] (defaultTTL d);
                                  renewer_Add renewer compactedID])).
           now rewrite renewed_app, Hcb.
        -- rewrite run_Return. cbn [logged outcome trace renewed flat_map app].
           fold (renewed (tcb ++ [UnorderedWriter_Close uw; storage_Compact [id] (defaultTTL d)])).
           now rewrite renewed_app, Hcb.
      * rewrite run_call_bind, run_Return. cbn [logged outcome trace renewed flat_map app].
        fold (renewed (tcb ++ [UnorderedWriter_Close uw; renewer_Add renewer id])).
        now rewrite renewed_app, Hcb.
    + rewrite run_Return. cbn [logged outcome trace renewed flat_map app].
      fold (renewed (tcb ++ [UnorderedWriter_Close uw])).
      now rewrite renewed_app, Hcb.
  - cbn [outcome trace renewed flat_map app]. exact Hcb.
Qed.

(** X7.  What [withTmpUnorderedWriter] has done when it returns an id: it made
    an unordered writer with the default tag and the renewal option
    (default TTL, the renewer), the callback returned no error, and the
    writer closed into a fileset [raw].  Without [compact], [raw] is the id
    returned, and the last calls are the close and the renewal of [raw];
    with [compact], the id returned is what the compaction of [raw] alone
    gave, under the default TTL, and the last calls are the close, the
    compaction and the renewal of the compacted id. *)
Theorem withTmpUnorderedWriter_returns_sealed_id
    (d : Imports) (env : Env) (w : World env)
    (renewer : renew.StringSet) (compact : bool)
    (cb : fileset.UnorderedWriter -> Prog status) (id : fileset.ID) :
  let w1 := after env time_Now_UnixNano w in
  let tag := fmt.Sprint [arg_string "%012d"; arg_int (reply env time_Now_UnixNano w)] in
  let new := storage_NewUnorderedWriter tag [fileset.WithRenewal (defaultTTL d) renewer] in
  let r := run env (withTmpUnorderedWriter d renewer compact cb) w in
  outcome r = Returned (Ok id) ->
  exists uw raw,
    reply env new w1 = Ok uw
    /\ let written := run env (cb uw) (after env new w1) in
       let close := UnorderedWriter_Close uw in
       let w2 := after env close (world written) in
       let squash := storage_Compact [raw] (defaultTTL d) in
       outcome written = Returned None
       /\ reply env close (world written) = Ok raw
       /\ (if compact
           then reply env squash w2 = Ok id
                /\ trace r = ([time_Now_UnixNano; new] ++ trace written
                              ++ [close; squash; renewer_Add renewer id])%list
           else raw = id
                /\ trace r = ([time_Now_UnixNano; new] ++ trace written
                              ++ [close; renewer_Add renewer id])%list).
Proof.
  intros w1 tag new r. subst w1 tag new r. unfold withTmpUnorderedWriter.
  rewrite run_getDefaultTag_bind, run_call_bind.
  destruct (reply env (storage_NewUnorderedWriter _ _) _) as [uw|err] eqn:Hnew.
  2:{ rewrite run_Return. discriminate. }
  rewrite run_bind.
  destruct (run env (cb uw) _) as [o wcb tcb] eqn:Hcb.
  unfold then_run; cbn [logged outcome world trace].
  destruct o as [[err|]|msg]; [rewrite run_Return; discriminate| |discriminate].
  rewrite run_call_bind.
  destruct (reply env (UnorderedWriter_Close uw) wcb) as [raw|err] eqn:Hclose.
  2:{ rewrite run_Return. discriminate. }
  intros H. exists uw, raw. split; [reflexivity|]. cbv zeta. rewrite Hcb.
  cbn [outcome world trace].
  split; [reflexivity|]. split; [exact Hclose|].
  destruct compact; cbn [negb] in *.
  - rewrite run_call_bind in *.
    destruct (reply env (storage_Compact _ _) _) as [compactedID|err] eqn:Hsquash.
    2:{ rewrite run_Return in H. discriminate. }
    rewrite run_call_bind, run_Return in *. cbn [logged outcome world trace] in *.
    injection H as <-. split; reflexivity.
  - rewrite run_call_bind, run_Return in *. cbn [logged outcome world trace] in *.
    injection H as <-. split; reflexivity.
Qed.

(** The calls [withTmpUnorderedWriter] makes itself, apart from those of
    the callback. *)
Lemma withTmpUnorderedWriter_calls
    (d : Imports) (env : Env) (w : World env)
    (renewer : renew.StringSet) (compact : bool)
    (cb : fileset.UnorderedWriter -> Prog status) (c : Call) :
  In c (trace (run env (withTmpUnorderedWriter d renewer compact cb) w)) ->
  (exists uw w', In c (trace (run env (cb uw) w')))
  \/ c = time_Now_UnixNano
  \/ (exists tag opts, c = storage_NewUnorderedWriter tag opts)
  \/ (exists uw, c = UnorderedWriter_Close uw)
  \/ (exists ids ttl, c = storage_Compact ids ttl)
  \/ (exists id, c = renewer_Add renewer id).
Proof.
  unfold withTmpUnorderedWriter.
  rewrite run_getDefaultTag_bind, run_call_bind.
  destruct (reply env (storage_NewUnorderedWriter _ _) _) as [uw|err].
  2:{ rewrite run_Return. cbn. intros [<-|[<-|[]]]; eauto 8. }
  rewrite run_bind.
  destruct (run env (cb uw) _) as [o wcb tcb] eqn:Hcb.
  assert (Htcb : forall c, In c tcb -> exists uw w', In c (trace (run env (cb uw) w'))).
  { intros c' Hc'. eexists; eexists. rewrite Hcb. exact Hc'. }
  unfold then_run; cbn [logged outcome world trace].
  destruct o as [[err|]|msg].
  - rewrite run_Return. cbn [trace In]. rewrite app_nil_r.
    intros [<-|[<-|H]]; eauto 8.
  - rewrite run_call_bind.
    destruct (reply env (UnorderedWriter_Close uw) wcb) as [id|err].
    + destruct compact; cbn [negb].
      * rewrite run_call_bind.
        destruct (reply env (storage_Compact _ _) _) as [compactedID|err];
          rewrite ?run_call_bind, run_Return; cbn [logged trace In];
          intros [<-|[<-|H]]; eauto 8;
          apply in_app_iff in H as [H|H]; eauto 8;
          cbn in H; intuition (subst; eauto 10).
      * rewrite run_call_bind, run_Return; cbn [logged trace In].
        intros [<-|[<-|H]]; eauto 8.
        apply in_app_iff in H as [H|H]; eauto 8.
        cbn in H; intuition (subst; eauto 10).
    + rewrite run_Return; cbn [logged trace In].
      intros [<-|[<-|H]]; eauto 8.
      apply in_app_iff in H as [H|H]; eauto 8.
      cbn in H; intuition (subst; eauto 10).
  - cbn [trace In]. intros [<-|[<-|H]]; eauto 8.
Qed.

(** When [withTmpUnorderedWriter] returns an id, its last call is the
    renewal of that id. *)
Lemma withTmpUnorderedWriter_ends_with_renewal
    (d : Imports) (env : Env) (w : World env)
    (renewer : renew.StringSet) (compact : bool)
    (cb : fileset.UnorderedWriter -> Prog status) (id : fileset.ID) :
  outcome (run env (withTmpUnorderedWriter d renewer compact cb) w) = Returned (Ok id) ->
  exists t,
    trace (run env (withTmpUnorderedWriter d renewer compact cb) w) =
    (t ++ [renewer_Add renewer id])%list.
Proof.
  unfold withTmpUnorderedWriter.
  rewrite run_getDefaultTag_bind, run_call_bind.
  destruct (reply env (storage_NewUnorderedWriter _ _) _) as [uw|err].
  2:{ rewrite run_Return. discriminate. }
  rewrite run_bind.
  destruct (run env (cb uw) _) as [o wcb tcb].
  unfold then_run; cbn [logged outcome world trace].
  destruct o as [[err|]|msg]; [rewrite run_Return; discriminate| |discriminate].
  rewrite run_call_bind.
  destruct (reply env (UnorderedWriter_Close uw) wcb) as [raw|err].
  2:{ rewrite run_Return. discriminate. }
  destruct compact; cbn [negb].
  - rewrite run_call_bind.
    destruct (reply env (storage_Compact _ _) _) as [compactedID|err].
    2:{ rewrite run_Return. discriminate. }
    rewrite run_call_bind, run_Return. cbn [logged outcome world trace].
    intros H; injection H as <-.
    eexists (_ :: _ :: tcb ++ [_; _])%list. cbn [app]. now rewrite <- app_assoc.
  - rewrite run_call_bind, run_Return. cbn [logged outcome world trace].
    intros H; injection H as <-.
    eexists (_ :: _ :: tcb ++ [_])%list. cbn [app]. now rewrite <- app_assoc.
Qed.

(** ** Writing into a commit through an unordered writer *)

(** X8.  [withCommitUnorderedWriter] adds a fileset to a commit only inside the
    renewal scope, and only a fileset the renewer has just been told to
    keep alive: when a fileset [id] is added to a commit [c] (by the method
    itself, the callback adding none), the last four calls are the renewal
    of [id], the inspection of the commit, the addition of [id] to the
    inspected commit [c], which is open, and the end of the renewal
    scope. *)
Theorem withCommitUnorderedWriter_adds_inside_renewal
    (d : Imports) (env : Env) (w : World env) (commit : pfs.Commit)
    (cb : fileset.UnorderedWriter -> Prog status)
    (c : pfs.Commit) (id : fileset.ID)
    (Hcb : forall uw w', ~ In (commitStore_AddFileset c id) (trace (run env (cb uw) w'))) :
  let start := storage_WithRenewer_begin (defaultTTL d) in
  let renewer := reply env start w in
  let inspect := inspectCommit commit pfs.CommitState_STARTED in
  let r := run env (withCommitUnorderedWriter d commit cb) w in
  In (commitStore_AddFileset c id) (trace r) ->
  exists t commitInfo w' e,
    reply env inspect w' = Ok commitInfo
    /\ pfs.CommitInfo_Finished commitInfo = None
    /\ c = pfs.CommitInfo_Commit commitInfo
    /\ trace r = (start :: t ++ [renewer_Add renewer id; inspect;
                                commitStore_AddFileset c id;
                                storage_WithRenewer_end renewer e])%list.
Proof.
  intros start renewer inspect r. subst start renewer inspect r.
  remember (trace (run env (withCommitUnorderedWriter d commit cb) w)) as tr eqn:Htr.
  revert Htr.
  unfold withCommitUnorderedWriter, storage_WithRenewer.
  rewrite run_call_bind, !run_bind.
  pose proof (withTmpUnorderedWriter_calls d env
                (after env (storage_WithRenewer_begin (defaultTTL d)) w)
                (reply env (storage_WithRenewer_begin (defaultTTL d)) w) false cb
                (commitStore_AddFileset c id)) as Hcalls.
  pose proof (withTmpUnorderedWriter_ends_with_renewal d env
                (after env (storage_WithRenewer_begin (defaultTTL d)) w)
                (reply env (storage_WithRenewer_begin (defaultTTL d)) w) false cb)
    as Hends.
  destruct (run env (withTmpUnorderedWriter _ _ _ _) _) as [o wt tt].
  cbn [outcome trace] in Hcalls, Hends.
  assert (Htt : ~ In (commitStore_AddFileset c id) tt).
  { intros H. apply Hcalls in H.
    destruct H as [(uw & w' & H)|[H|[(? & ? & H)|[(? & H)|[(? & ? & H)|(? & H)]]]]];
      try discriminate H.
    exact (Hcb uw w' H). }
  clear Hcalls.
  unfold then_run at 2; cbn [outcome world trace].
  destruct o as [[id'|err]|msg].
  - destruct (Hends id' eq_refl) as (t & ->). clear Hends.
    unfold addFileset. rewrite run_call_bind.
    destruct (reply env (inspectCommit _ _) wt) as [commitInfo|err] eqn:Hinspect.
    + destruct (pfs.CommitInfo_Finished commitInfo) eqn:Hopen.
      * rewrite run_Return. unfold then_run; cbn [logged outcome world trace].
        unfold call. rewrite run_Do, run_Return. cbn [logged trace].
        intros -> [H|H]; [discriminate H|].
        repeat rewrite in_app_iff in H; repeat rewrite in_app_iff in Htt;
        cbn [In] in H, Htt; intuition congruence.
      * unfold call; cbn [bind]. rewrite run_Do, run_Return.
        unfold then_run; cbn [logged outcome world trace].
        rewrite run_Do, run_Return. cbn [logged trace].
        intros -> [H|H]; [discriminate H|].
        repeat rewrite in_app_iff in H.
        repeat rewrite in_app_iff in Htt. cbn [In] in H, Htt.
        assert (Hadd : commitStore_AddFileset (pfs.CommitInfo_Commit commitInfo) id'
                       = commitStore_AddFileset c id) by intuition congruence.
        injection Hadd as <- <-.
        exists t, commitInfo, wt. eexists.
        split; [exact Hinspect|split; [exact Hopen|split; [reflexivity|]]].
        rewrite <- !app_assoc. reflexivity.
    + rewrite run_Return. unfold then_run; cbn [logged outcome world trace].
      unfold call. rewrite run_Do, run_Return. cbn [logged trace].
      intros -> [H|H]; [discriminate H|].
      repeat rewrite in_app_iff in H; repeat rewrite in_app_iff in Htt;
      cbn [In] in H, Htt; intuition congruence.
  - rewrite run_Return. unfold then_run; cbn [logged outcome world trace].
    unfold call. rewrite run_Do, run_Return. cbn [logged trace].
    intros -> [H|H]; [discriminate H|].
    repeat rewrite in_app_iff in H; cbn [In] in H; intuition congruence.
  - unfold then_run; cbn [logged outcome world trace].
    intros -> [H|H]; [discriminate H|]. contradiction.
Qed.

(** X9.  [withCommitUnorderedWriter] finds out late that a commit is finished.
    The commit is inspected only after the callback has written, the
    writer has closed into a fileset and the renewer has been told to keep
    it alive; when the commit then inspects as finished, the fileset is not
    added to it, and the renewal scope is ended with [ErrCommitFinished]
    (the scope's answer is the result). *)
Theorem withCommitUnorderedWriter_finished_commit_found_late
    (d : Imports) (env : Env) (w : World env) (commit : pfs.Commit)
    (cb : fileset.UnorderedWriter -> Prog status)
    (id : fileset.ID) (commitInfo : pfs.CommitInfo) :
  let start := storage_WithRenewer_begin (defaultTTL d) in
  let renewer := reply env start w in
  let tmp := run env (withTmpUnorderedWriter d renewer false cb) (after env start w) in
  let inspect := inspectCommit commit pfs.CommitState_STARTED in
  let stop :=
    storage_WithRenewer_end renewer
      (Some (ErrCommitFinished (pfs.CommitInfo_Commit commitInfo))) in
  let w3 := after env inspect (world tmp) in
  outcome tmp = Returned (Ok id) ->
  reply env inspect (world tmp) = Ok commitInfo ->
  pfs.CommitInfo_Finished commitInfo <> None ->
  run env (withCommitUnorderedWriter d commit cb) w =
    mkRun (Returned (reply env stop w3)) (after env stop w3)
          ([start] ++ trace tmp ++ [inspect; stop])
  /\ exists t, trace tmp = (t ++ [renewer_Add renewer id])%list.
Proof.
  intros start renewer tmp inspect stop w3 Htmp Hinspect Hfinished.
  split.
  2:{ exact (withTmpUnorderedWriter_ends_with_renewal d env _ _ false cb id Htmp). }
  subst start renewer inspect stop w3.
  unfold withCommitUnorderedWriter, storage_WithRenewer.
  rewrite run_call_bind, !run_bind. fold tmp.
  destruct tmp as [o wt tt]. cbn [outcome world trace] in *. subst o.
  unfold then_run at 2; cbn [outcome world trace].
  unfold addFileset. rewrite run_call_bind, Hinspect.
  destruct (pfs.CommitInfo_Finished commitInfo); [|congruence].
  rewrite run_Return. unfold then_run; cbn [logged outcome world trace].
  unfold call. rewrite run_Do, run_Return.
  unfold logged; cbn [outcome world trace app]. now rewrite <- app_assoc.
Qed.

(** ** One-off commits *)

(** X10.  A failed one-off write leaves its commit open.  When the commit cannot
    be started, nothing is written and the transaction is told the error;
    when the commit starts and the write into it returns an error, the
    commit is not finished ([finishCommit] is not called): the transaction
    is told the error of the write right after it.  The result is the
    transaction's. *)
Theorem oneOffModifyFile_failure_leaves_commit_open
    (d : Imports) (env : Env) (w : World env) (repo branch : string)
    (cb : fileset.UnorderedWriter -> Prog status) :
  let txnCtx := reply env WithWriteContext_begin w in
  let w1 := after env WithWriteContext_begin w in
  let start := startCommit txnCtx "" (client.NewCommit repo "") branch [] "" in
  let w2 := after env start w1 in
  (forall err,
     reply env start w1 = Err err ->
     let stop := WithWriteContext_end txnCtx (Some err) in
     run env (oneOffModifyFile d repo branch cb) w =
     mkRun (Returned (reply env stop w2)) (after env stop w2)
           [WithWriteContext_begin; start; stop])
  /\ (forall fresh err,
        reply env start w1 = Ok fresh ->
        let write := run env (withCommitUnorderedWriter d fresh cb) w2 in
        outcome write = Returned (Some err) ->
        let stop := WithWriteContext_end txnCtx (Some err) in
        run env (oneOffModifyFile d repo branch cb) w =
        mkRun (Returned (reply env stop (world write))) (after env stop (world write))
              ([WithWriteContext_begin; start] ++ trace write ++ [stop])).
Proof.
  intros txnCtx w1 start w2. subst txnCtx w1 start w2. split.
  - intros err Hstart stop. subst stop.
    unfold oneOffModifyFile, txnEnv_WithWriteContext.
    rewrite WithWriteContext_passes_unfold.
    rewrite run_call_bind, run_bind, run_call_bind, Hstart, run_Return.
    unfold then_run; cbn [logged outcome world trace].
    unfold call. rewrite run_Do, run_Return. reflexivity.
  - intros fresh err Hstart write Hwrite stop. subst stop.
    unfold oneOffModifyFile, txnEnv_WithWriteContext.
    rewrite WithWriteContext_passes_unfold.
    rewrite run_call_bind, run_bind, run_call_bind, Hstart, run_defer.
    revert Hwrite. subst write. unfold status in *.
    destruct (@run env (option error) (withCommitUnorderedWriter d fresh cb) _) as [o ww tw].
    cbn [outcome world trace]. intros ->.
    unfold then_deferred; cbn [outcome world trace]. cbv beta iota.
    rewrite run_Return. unfold then_run; cbn [logged outcome world trace].
    unfold call. rewrite run_Do, run_Return.
    unfold logged; cbn [outcome world trace app]. now rewrite app_nil_r.
Qed.

(** X11.  A one-off write that panics still finishes its commit.  The deferred
    call runs while the panic unwinds, and the named result it tests is
    still nil: when the write into the fresh commit panics,
    [finishCommit] is called on that commit, and the panic goes on (the
    transaction is not told anything). *)
Theorem oneOffModifyFile_panic_finishes_commit
    (d : Imports) (env : Env) (w : World env) (repo branch : string)
    (cb : fileset.UnorderedWriter -> Prog status)
    (fresh : pfs.Commit) (msg : string) :
  let txnCtx := reply env WithWriteContext_begin w in
  let w1 := after env WithWriteContext_begin w in
  let start := startCommit txnCtx "" (client.NewCommit repo "") branch [] "" in
  let write := run env (withCommitUnorderedWriter d fresh cb) (after env start w1) in
  let finish := finishCommit txnCtx fresh "" in
  reply env start w1 = Ok fresh ->
  outcome write = Panicked msg ->
  run env (oneOffModifyFile d repo branch cb) w =
  mkRun (Panicked msg) (after env finish (world write))
        ([WithWriteContext_begin; start] ++ trace write ++ [finish]).
Proof.
  intros txnCtx w1 start write finish Hstart Hwrite.
  subst txnCtx w1 start finish.
  unfold oneOffModifyFile, txnEnv_WithWriteContext.
    rewrite WithWriteContext_passes_unfold.
  rewrite run_call_bind, run_bind, run_call_bind, Hstart, run_defer.
  revert Hwrite. subst write. unfold status in *.
  destruct (@run env (option error) (withCommitUnorderedWriter d fresh cb) _) as [o ww tw].
  cbn [outcome world trace]. intros ->.
  unfold then_deferred; cbn [outcome world trace].
  unfold call. rewrite run_Do, run_Return.
  unfold then_run; cbn [logged outcome world trace]. reflexivity.
Qed.

(** ** [modifyFile] and a failed inspection *)

(** X12.  When the inspection of the commit fails, [modifyFile] returns the
    error of the inspection, having made no other call, exactly when the
    error is neither a not-found nor a no-head error, or the commit is not
    named by a branch (its id is a dashless UUID, or empty).  In the other
    case (a branch without a commit to inspect) it goes on as a one-off
    write on the branch. *)
Theorem modifyFile_failed_inspection
    (d : Imports) (env : Env) (w : World env) (commit : pfs.Commit)
    (cb : fileset.UnorderedWriter -> Prog status) (err : error)
    (Hinspect : reply env (inspectCommit commit pfs.CommitState_STARTED) w = Err err) :
  let inspect := inspectCommit commit pfs.CommitState_STARTED in
  let id := pfs.Commit_ID commit in
  let other := negb (isNotFoundErr d err) && negb (isNoHeadErr d err) in
  let no_branch := IsUUIDWithoutDashes d id || (id =? "")%string in
  (other || no_branch = true <->
   run env (modifyFile d commit cb) w =
   mkRun (Returned (Some err)) (after env inspect w) [inspect])
  /\ (other || no_branch = false ->
      run env (modifyFile d commit cb) w =
      logged inspect
        (run env (oneOffModifyFile d (pfs.Repo_Name (pfs.Commit_Repo commit)) id cb)
             (after env inspect w))).
Proof.
  intros inspect id other no_branch. subst inspect id other no_branch.
  unfold modifyFile. rewrite run_call_bind, Hinspect.
  set (other := negb (isNotFoundErr d err) && negb (isNoHeadErr d err)).
  destruct (IsUUIDWithoutDashes d (pfs.Commit_ID commit)) eqn:Huuid; cbn [negb orb].
  - rewrite orb_true_r. cbn [String.eqb]. rewrite orb_true_r.
    rewrite run_Return. split; [split; reflexivity | discriminate].
  - destruct (String.eqb_spec (pfs.Commit_ID commit) "") as [Hid|Hid].
    + rewrite orb_true_r, run_Return. split; [split; reflexivity | discriminate].
    + rewrite orb_false_r. destruct other.
      * rewrite run_Return. split; [split; reflexivity | discriminate].
      * split; [|reflexivity]. split; [discriminate|].
        unfold oneOffModifyFile, txnEnv_WithWriteContext.
    rewrite WithWriteContext_passes_unfold.
        rewrite run_call_bind. unfold logged; cbn [trace].
        intros H. apply (f_equal trace) in H. cbn [trace] in H. discriminate H.
Qed.

(** The calls [withCommitUnorderedWriter] makes itself, apart from those
    of the callback. *)
Lemma withCommitUnorderedWriter_calls
    (d : Imports) (env : Env) (w : World env) (commit : pfs.Commit)
    (cb : fileset.UnorderedWriter -> Prog status) (c : Call) :
  In c (trace (run env (withCommitUnorderedWriter d commit cb) w)) ->
  (exists uw w', In c (trace (run env (cb uw) w')))
  \/ match c with
     | storage_WithRenewer_begin _ | storage_WithRenewer_end _ _
     | time_Now_UnixNano | storage_NewUnorderedWriter _ _
     | UnorderedWriter_Close _ | storage_Compact _ _ | renewer_Add _ _
     | inspectCommit _ _ | commitStore_AddFileset _ _ => True
     | _ => False
     end.
Proof.
  unfold withCommitUnorderedWriter, storage_WithRenewer.
  rewrite run_call_bind, !run_bind.
  pose proof (withTmpUnorderedWriter_calls d env
                (after env (storage_WithRenewer_begin (defaultTTL d)) w)
                (reply env (storage_WithRenewer_begin (defaultTTL d)) w) false cb c)
    as Hcalls.
  destruct (run env (withTmpUnorderedWriter _ _ _ _) _) as [o wt tt].
  cbn [trace] in Hcalls.
  assert (Htt : In c tt ->
                (exists uw w', In c (trace (run env (cb uw) w')))
                \/ match c with
                   | storage_WithRenewer_begin _ | storage_WithRenewer_end _ _
                   | time_Now_UnixNano | storage_NewUnorderedWriter _ _
                   | UnorderedWriter_Close _ | storage_Compact _ _ | renewer_Add _ _
                   | inspectCommit _ _ | commitStore_AddFileset _ _ => True
                   | _ => False
                   end).
  { intros H. apply Hcalls in H.
    destruct H as [H|[->|[(? & ? & ->)|[(? & ->)|[(? & ? & ->)|(? & ->)]]]]];
      [now left|right; exact I..]. }
  clear Hcalls.
  unfold then_run at 2; cbn [outcome world trace].
  destruct o as [[id|err]|msg].
  - unfold addFileset. rewrite run_call_bind.
    destruct (reply env (inspectCommit _ _) wt) as [commitInfo|err].
    + destruct (pfs.CommitInfo_Finished commitInfo).
      * rewrite run_Return. unfold then_run; cbn [logged outcome world trace].
        unfold call. rewrite run_Do, run_Return. cbn [logged trace].
        intros [<-|H]; [right; exact I|].
        repeat rewrite in_app_iff in H. cbn [In] in H.
        destruct H as [[H|[<-|[]]]|[<-|[]]]; auto; right; exact I.
      * unfold call; cbn [bind]. rewrite run_Do, run_Return.
        unfold then_run; cbn [logged outcome world trace].
        rewrite run_Do, run_Return. cbn [logged trace].
        intros [<-|H]; [right; exact I|].
        repeat rewrite in_app_iff in H. cbn [In] in H.
        destruct H as [[H|[<-|[<-|[]]]]|[<-|[]]]; auto; right; exact I.
    + rewrite run_Return. unfold then_run; cbn [logged outcome world trace].
      unfold call. rewrite run_Do, run_Return. cbn [logged trace].
      intros [<-|H]; [right; exact I|].
      repeat rewrite in_app_iff in H. cbn [In] in H.
      destruct H as [[H|[<-|[]]]|[<-|[]]]; auto; right; exact I.
  - rewrite run_Return. unfold then_run; cbn [logged outcome world trace].
    unfold call. rewrite run_Do, run_Return. cbn [logged trace].
    intros [<-|H]; [right; exact I|].
    repeat rewrite in_app_iff in H. cbn [In] in H.
    destruct H as [[H|[]]|[<-|[]]]; auto; right; exact I.
  - unfold then_run; cbn [logged outcome world trace].
    intros [<-|H]; [right; exact I|]. auto.
Qed.

(** ** [modifyFile] on an open commit *)

(** X13.  On a commit that inspects as open, [modifyFile] writes in place: it
    goes on as [withCommitUnorderedWriter] on the inspected commit, and
    (unless the callback does) it opens no transaction and neither starts
    nor finishes a commit. *)
Theorem modifyFile_open_commit_in_place
    (d : Imports) (env : Env) (w : World env) (commit : pfs.Commit)
    (cb : fileset.UnorderedWriter -> Prog status) (commitInfo : pfs.CommitInfo)
    (Hinspect : reply env (inspectCommit commit pfs.CommitState_STARTED) w = Ok commitInfo)
    (Hopen : pfs.CommitInfo_Finished commitInfo = None) :
  let inspect := inspectCommit commit pfs.CommitState_STARTED in
  let r := run env (modifyFile d commit cb) w in
  r = logged inspect
        (run env (withCommitUnorderedWriter d (pfs.CommitInfo_Commit commitInfo) cb)
             (after env inspect w))
  /\ forall c,
       In c (trace r) ->
       (exists uw w', In c (trace (run env (cb uw) w')))
       \/ match c with
          | WithWriteContext_begin | WithWriteContext_conflict _ | WithWriteContext_end _ _
          | startCommit _ _ _ _ _ _ | finishCommit _ _ _ => False
          | _ => True
          end.
Proof.
  intros inspect r. subst inspect r.
  assert (Hrun : run env (modifyFile d commit cb) w =
                 logged (inspectCommit commit pfs.CommitState_STARTED)
                   (run env (withCommitUnorderedWriter d (pfs.CommitInfo_Commit commitInfo) cb)
                        (after env (inspectCommit commit pfs.CommitState_STARTED) w))).
  { unfold modifyFile. now rewrite run_call_bind, Hinspect, Hopen. }
  split; [exact Hrun|].
  intros c. rewrite Hrun. cbn [logged trace In].
  intros [<-|H]; [right; exact I|].
  apply withCommitUnorderedWriter_calls in H as [H|H]; [now left|right].
  destruct c; try exact I; contradiction.
Qed.

(** ** Who [copyFile] asks for permission *)

(** The calls of [openCommit]. *)
Lemma openCommit_calls env (commit : pfs.Commit) (opts : list index.Option)
    (w : World env) (c : Call) :
  In c (trace (run env (openCommit commit opts) w)) ->
  c = CheckIsAuthorized (pfs.Commit_Repo commit) auth.Scope_READER
  \/ match c with
     | inspectCommit _ _ | commitStore_GetFileset _ | storage_Open _ _ => True
     | _ => False
     end.
Proof.
  unfold openCommit. rewrite run_call_bind.
  destruct (reply env (CheckIsAuthorized _ _) w).
  { rewrite run_Return. cbn. intuition. }
  rewrite run_call_bind.
  destruct (reply env (inspectCommit _ _) _) as [ci|].
  2:{ rewrite run_Return. cbn. intros [<-|[<-|[]]]; auto. }
  destruct (pfs.CommitInfo_Finished ci).
  2:{ rewrite run_Return. cbn. intros [<-|[<-|[]]]; auto. }
  rewrite run_call_bind.
  destruct (reply env (commitStore_GetFileset _) _) as [id|].
  2:{ rewrite run_Return. cbn. intros [<-|[<-|[<-|[]]]]; auto. }
  rewrite run_call_bind.
  destruct (reply env (storage_Open _ _) _); rewrite run_Return; cbn;
    intros [<-|[<-|[<-|[<-|[]]]]]; auto.
Qed.

(** Sorting out where a call of a trace comes from. *)
Ltac sort_calls H :=
  repeat first [progress cbn [In] in H | rewrite in_app_iff in H];
  intuition (subst; cbn; auto).

(** The calls of [withCommitWriter], apart from those of the callback. *)
Lemma withCommitWriter_calls env (commit : pfs.Commit)
    (cb : string -> fileset.Writer -> Prog status) (w : World env) (c : Call) :
  In c (trace (run env (withCommitWriter commit cb) w)) ->
  (exists tag fsw w', In c (trace (run env (cb tag fsw) w')))
  \/ match c with
     | inspectCommit _ _ | storage_NewWriter | time_Now_UnixNano
     | Writer_Close _ | commitStore_AddFileset _ _ => True
     | _ => False
     end.
Proof.
  unfold withCommitWriter. rewrite run_call_bind.
  destruct (reply env (inspectCommit _ _) w) as [commitInfo|err].
  2:{ rewrite run_Return. cbn. intros [<-|[]]; auto. }
  destruct (pfs.CommitInfo_Finished commitInfo).
  { rewrite run_Return. cbn. intros [<-|[]]; auto. }
  rewrite run_call_bind, run_defer, run_getDefaultTag_bind, run_bind.
  destruct (run env (cb _ _) _) as [o wcb tcb] eqn:Hcb.
  assert (Htcb : forall c, In c tcb ->
                 exists tag fsw w', In c (trace (run env (cb tag fsw) w'))).
  { intros c' Hc'. do 3 eexists. rewrite Hcb. exact Hc'. }
  clear Hcb.
  unfold then_run; cbn [outcome world trace].
  destruct o as [[err|]|msg].
  - rewrite run_Return. unfold then_deferred; cbn [logged outcome world trace].
    rewrite run_call_bind, run_Return. cbn [logged trace].
    intros H. sort_calls H.
  - rewrite run_call_bind.
    destruct (reply env (Writer_Close _) wcb) as [id|err].
    + unfold call; cbn [bind]. rewrite run_Do, run_Return.
      unfold then_deferred; cbn [logged outcome world trace].
      rewrite run_Do.
      destruct (reply env (commitStore_AddFileset _ _) _); cbv beta iota;
        rewrite run_Return; cbn [logged trace]; intros H; sort_calls H.
    + rewrite run_Return. unfold then_deferred; cbn [logged outcome world trace].
      rewrite run_call_bind, run_Return. cbn [logged trace].
      intros H. sort_calls H.
  - unfold then_deferred; cbn [logged outcome world trace].
    rewrite run_call_bind, run_Return. cbn [logged trace].
    intros H. sort_calls H.
Qed.

(** Iterating with the callback of [copyFile] only appends. *)
Lemma copy_append_calls env (dst : fileset.Writer) (tag : string)
    (l : list fileset.File) (w : World env) (c : Call) :
  In c (trace (run env (iterate_files (copy_append dst tag) l tt) w)) ->
  exists p f, c = Writer_Append dst p tag f.
Proof.
  revert w. induction l as [|f l IH]; intros w; cbn [iterate_files].
  - rewrite run_Return. intros [].
  - rewrite run_bind. unfold copy_append at 1. rewrite run_call_bind, run_Return.
    unfold then_run; cbn [logged outcome world trace fst snd].
    destruct (reply env (Writer_Append _ _ _ _) w).
    + rewrite run_Return. cbn. intros [<-|[]]. eauto.
    + cbn [app In]. intros [<-|H]; [eauto|]. exact (IH _ H).
Qed.

(** X14.  [copyFile] asks for one permission only: to read the repo of the
    source commit, as inspected.  Every authorization check it makes is
    that check (no check is made on the destination); and when it is
    denied, after the two inspections, [copyFile] returns the error of the
    check: nothing is read, and no writer is created. *)
Theorem copyFile_checks_the_source_reader_only
    (d : Imports) (env : Env) (w : World env) (src dst : pfs.File) (overwrite : bool) :
  let inspectSrc := inspectCommit (pfs.File_Commit src) pfs.CommitState_STARTED in
  let inspectDst := inspectCommit (pfs.File_Commit dst) pfs.CommitState_STARTED in
  (forall repo scope,
     In (CheckIsAuthorized repo scope) (trace (run env (copyFile d src dst overwrite) w)) ->
     scope = auth.Scope_READER
     /\ exists srcCommitInfo,
          reply env inspectSrc w = Ok srcCommitInfo
          /\ repo = pfs.Commit_Repo (pfs.CommitInfo_Commit srcCommitInfo))
  /\ (forall srcCommitInfo dstCommitInfo err,
        reply env inspectSrc w = Ok srcCommitInfo ->
        pfs.CommitInfo_Finished srcCommitInfo <> None ->
        reply env inspectDst (after env inspectSrc w) = Ok dstCommitInfo ->
        pfs.CommitInfo_Finished dstCommitInfo = None ->
        let check :=
          CheckIsAuthorized (pfs.Commit_Repo (pfs.CommitInfo_Commit srcCommitInfo))
                            auth.Scope_READER in
        let w2 := after env inspectDst (after env inspectSrc w) in
        reply env check w2 = Some err ->
        run env (copyFile d src dst false) w =
        mkRun (Returned (Some err)) (after env check w2) [inspectSrc; inspectDst; check]).
Proof.
  intros inspectSrc inspectDst. subst inspectSrc inspectDst. split.
  - intros repo scope. unfold copyFile. rewrite run_call_bind.
    destruct (reply env (inspectCommit _ _) w) as [srcCommitInfo|err].
    2:{ rewrite run_Return. cbn. intros [H|[]]; discriminate H. }
    destruct (pfs.CommitInfo_Finished srcCommitInfo).
    2:{ rewrite run_Return. cbn. intros [H|[]]; discriminate H. }
    rewrite run_call_bind.
    destruct (reply env (inspectCommit _ _) _) as [dstCommitInfo|err].
    2:{ rewrite run_Return. cbn. intros [H|[H|[]]]; discriminate H. }
    destruct (pfs.CommitInfo_Finished dstCommitInfo).
    { rewrite run_Return. cbn. intros [H|[H|[]]]; discriminate H. }
    destruct overwrite.
    { rewrite run_Return. cbn. intros [H|[H|[]]]; discriminate H. }
    cbv zeta. rewrite run_bind.
    pose proof (openCommit_calls env (pfs.CommitInfo_Commit srcCommitInfo)
                  [index.WithPrefix (cleanPath d (pfs.File_Path src))]
                  (after env (inspectCommit (pfs.File_Commit dst) pfs.CommitState_STARTED)
                     (after env (inspectCommit (pfs.File_Commit src) pfs.CommitState_STARTED) w))
                  (CheckIsAuthorized repo scope)) as Hopen.
    destruct (run env (openCommit _ _) _) as [o wo topen]. cbn [trace] in Hopen.
    assert (Hsrc : In (CheckIsAuthorized repo scope) topen ->
                   scope = auth.Scope_READER
                   /\ exists srcCommitInfo0,
                        Ok srcCommitInfo = Ok srcCommitInfo0
                        /\ repo = pfs.Commit_Repo (pfs.CommitInfo_Commit srcCommitInfo0)).
    { intros H. apply Hopen in H as [H|[]]. injection H as -> ->. eauto. }
    clear Hopen.
    unfold then_run; cbn [logged outcome world trace].
    destruct o as [[[srcCommit fs]|err]|msg].
    + intros [H|[H|H]]; try discriminate H.
      apply in_app_iff in H as [H|H]; [auto|].
      apply withCommitWriter_calls in H as [(tag & fsw & w' & H)|[]].
      rewrite trace_Iterate in H.
      apply copy_append_calls in H as (p & f & H). discriminate H.
    + rewrite run_Return. cbn [trace]. rewrite app_nil_r.
      intros [H|[H|H]]; try discriminate H. auto.
    + intros [H|[H|H]]; try discriminate H. auto.
  - intros srcCommitInfo dstCommitInfo err Hsrc Hsrc_finished Hdst Hdst_open check w2 Hcheck.
    subst check w2. unfold copyFile. rewrite run_call_bind, Hsrc.
    destruct (pfs.CommitInfo_Finished srcCommitInfo); [|congruence].
    rewrite run_call_bind, Hdst, Hdst_open. cbv zeta.
    rewrite run_bind. unfold openCommit. rewrite run_call_bind, Hcheck, run_Return.
    unfold then_run; cbn [logged outcome world trace]. rewrite run_Return. reflexivity.
Qed.

(** ** What [getFile] keeps *)

Section get_filter_facts.

Variable d : Imports.
Variable mf : string -> bool.

Let path (f : fileset.File) : string := index.Path (fileset.Index f).

(** The variable [dir] of the filter of [getFile] is empty or holds the
    path of a directory that matched. *)
Let matched_dir (l : list fileset.File) (dir : string) : Prop :=
  dir = "" \/ exists g, In g l /\ path g = dir /\ mf dir = true /\ IsDir d dir = true.

Lemma get_filter_kept (seen l : list fileset.File) (dir : string) (f : fileset.File) :
  matched_dir seen dir ->
  In f (fileset.filter_with (get_filter d mf) dir l) ->
  mf (path f) = true
  \/ exists g, In g (seen ++ l) /\ mf (path g) = true /\ IsDir d (path g) = true
               /\ path g <> "" /\ strings.HasPrefix (path f) (path g) = true.
Proof.
  revert seen dir. induction l as [|x l IH]; intros seen dir Hdir; cbn [fileset.filter_with].
  - intros [].
  - unfold get_filter at 1.
    destruct (negb (dir =? "")%string && strings.HasPrefix (index.Path (fileset.Index x)) dir)
      eqn:Hunder.
    + apply andb_true_iff in Hunder as [Hne Hpre].
      destruct Hdir as [->|(g & Hg & Hpath & Hmf & Hisdir)]; [discriminate Hne|].
      intros [<-|H].
      * right. exists g. subst dir. repeat split; auto.
        -- apply in_app_iff. now left.
        -- intros E. unfold path in *. rewrite E in Hne. discriminate Hne.
      * specialize (IH (seen ++ [x])%list dir).
        rewrite <- app_assoc in IH. apply IH; auto.
        right. exists g. repeat split; auto. apply in_app_iff. now left.
    + destruct (mf (index.Path (fileset.Index x))) eqn:Hmatch; cbn [andb].
      * intros [<-|H]; [now left|].
        specialize (IH (seen ++ [x])%list
                      (if IsDir d (index.Path (fileset.Index x))
                       then index.Path (fileset.Index x) else dir)).
        rewrite <- app_assoc in IH. apply IH; auto.
        destruct (IsDir d (index.Path (fileset.Index x))) eqn:Hisdir.
        -- right. exists x. repeat split; auto. apply in_app_iff. right. now left.
        -- destruct Hdir as [->|(g & Hg & Hrest)]; [now left|].
           right. exists g. split; [apply in_app_iff; now left|exact Hrest].
      * intros H.
        specialize (IH (seen ++ [x])%list dir).
        rewrite <- app_assoc in IH. apply IH; auto.
        destruct Hdir as [->|(g & Hg & Hrest)]; [now left|].
        right. exists g. split; [apply in_app_iff; now left|exact Hrest].
Qed.

Lemma get_filter_keeps_matches (l : list fileset.File) (dir : string) (f : fileset.File) :
  In f l -> mf (path f) = true ->
  In f (fileset.filter_with (get_filter d mf) dir l).
Proof.
  revert dir. induction l as [|x l IH]; intros dir; [intros []|].
  intros [<-|Hin] Hmatch; cbn [fileset.filter_with]; unfold get_filter at 1.
  - destruct (negb (dir =? "")%string && _); [now left|].
    fold (path x). rewrite Hmatch. now left.
  - destruct (negb (dir =? "")%string && _); [right; auto|].
    destruct (mf (index.Path (fileset.Index x))); cbn [andb]; [right|]; auto.
Qed.

End get_filter_facts.

(** X16.  The filter of [getFile] keeps every entry the glob matches, and
    nothing but those entries and entries under a directory that matched:
    an entry it keeps matches the glob, or its path starts with the path
    of an entry of the stream that matches the glob and is a directory. *)
Theorem getFile_keeps_matches_and_their_subtrees
    (d : Imports) (mf : string -> bool) (l : list fileset.File) (f : fileset.File) :
  let path (f : fileset.File) := index.Path (fileset.Index f) in
  let kept := fileset.files (fileset.NewIndexFilter (fileset.of_list l) (get_filter d mf) "") in
  (In f l -> mf (path f) = true -> In f kept)
  /\ (In f kept ->
      mf (path f) = true
      \/ exists g, In g l /\ mf (path g) = true /\ IsDir d (path g) = true
                   /\ path g <> "" /\ strings.HasPrefix (path f) (path g) = true).
Proof.
  intros path kept. subst path kept. cbn [fileset.NewIndexFilter fileset.files fileset.of_list].
  split.
  - apply get_filter_keeps_matches.
  - intros H. apply (get_filter_kept d mf [] l "" f); [now left|exact H].
Qed.

(** ** [diffFile] *)

(** X17.  [diffFile] validates the new file before anything else, whatever the
    old file is: a nil file, a file without commit and a file whose commit
    has no repo are rejected, each with its own error, and no call is made.
    With a valid new file the first call is a reader check: on the repo of
    the old commit when an old file with a commit is given, on the repo of
    the new commit otherwise; when that check is denied its error is
    returned, and nothing else is called (no commit is inspected). *)
Theorem diffFile_validates_the_new_file_first
    (d : Imports)
    (differ : Source -> Source ->
              (option pfs.FileInfo -> option pfs.FileInfo -> Prog status) -> Prog status)
    (env : Env) (w : World env)
    (oldFile : option (nilable.File pfs.Commit))
    (cb : option pfs.FileInfo -> option pfs.FileInfo -> Prog status) :
  let rejected msg : Run env status := mkRun (Returned (Some (errors_New msg))) w [] in
  run env (diffFile d differ oldFile None cb) w = rejected "file cannot be nil"
  /\ (forall p,
        run env (diffFile d differ oldFile (Some (nilable.mkFile None p)) cb) w =
        rejected "file commit cannot be nil")
  /\ (forall id p,
        run env (diffFile d differ oldFile
                   (Some (nilable.mkFile (Some (nilable.mkCommit None id)) p)) cb) w =
        rejected "file commit repo cannot be nil")
  /\ (forall repo id p,
        let newFile := Some (nilable.mkFile (Some (nilable.mkCommit (Some repo) id)) p) in
        let first :=
          match oldFile with
          | Some (nilable.mkFile (Some oldCommit) _) => pfs.Commit_Repo oldCommit
          | _ => repo
          end in
        let check := CheckIsAuthorized first auth.Scope_READER in
        (exists t, trace (run env (diffFile d differ oldFile newFile cb) w) = check :: t)
        /\ (forall err,
              reply env check w = Some err ->
              run env (diffFile d differ oldFile newFile cb) w =
              mkRun (Returned (Some err)) (after env check w) [check])).
Proof.
  intros rejected. subst rejected.
  split; [reflexivity|]. split; [reflexivity|]. split; [reflexivity|].
  intros repo id p newFile first check. subst newFile first check.
  unfold diffFile.
  cbn [nilable.File_Commit nilable.Commit_Repo nilable.File_Path nilable.Commit_ID].
  rewrite run_bind.
  destruct oldFile as [[[oldCommit|] oldPath]|];
    cbn [nilable.File_Commit nilable.File_Path].
  - unfold call; cbn [bind]. rewrite run_Do, run_Return.
    unfold then_run; cbn [logged outcome world trace app].
    split; [eauto|]. intros err ->. rewrite run_Return. reflexivity.
  - rewrite run_Return. unfold then_run; cbn [outcome world trace app].
    rewrite run_call_bind. cbn [logged trace].
    split; [eauto|]. intros err ->. rewrite run_Return. reflexivity.
  - rewrite run_Return. unfold then_run; cbn [outcome world trace app].
    rewrite run_call_bind. cbn [logged trace].
    split; [eauto|]. intros err ->. rewrite run_Return. reflexivity.
Qed.

(** X18.  What [diffFile] compares the new file with, once the reader check on
    the new repo has passed and the new commit is inspected.  Without an
    old file it is the same path in the parent of the new commit, as the
    inspection gives it, opened like the new commit; when the new commit
    has no parent, or when an old file is given that has no commit, it is
    the empty source, and only the new commit is opened. *)
Theorem diffFile_old_side
    (d : Imports)
    (differ : Source -> Source ->
              (option pfs.FileInfo -> option pfs.FileInfo -> Prog status) -> Prog status)
    (env : Env) (w : World env)
    (repo : pfs.Repo) (id p : string)
    (cb : option pfs.FileInfo -> option pfs.FileInfo -> Prog status)
    (newCommitInfo : pfs.CommitInfo) :
  let newFile := Some (nilable.mkFile (Some (nilable.mkCommit (Some repo) id)) p) in
  let newCommit := pfs.mkCommit repo id in
  let check := CheckIsAuthorized repo auth.Scope_READER in
  let inspect := inspectCommit newCommit pfs.CommitState_STARTED in
  let w2 := after env inspect (after env check w) in
  let newName := if (cleanPath d p =? "/")%string then "" else cleanPath d p in
  let compare old :=
    r <- openCommit newCommit [index.WithPrefix newName] ;;
    match r with
    | Err err => Return (Some err)
    | Ok (newCommit, fs) => differ old (diff_source newName newCommit fs) cb
    end in
  reply env check w = None ->
  reply env inspect (after env check w) = Ok newCommitInfo ->
  (pfs.CommitInfo_ParentCommit newCommitInfo = None ->
   run env (diffFile d differ None newFile cb) w =
   logged check (logged inspect (run env (compare emptySource) w2)))
  /\ (forall parent,
        pfs.CommitInfo_ParentCommit newCommitInfo = Some parent ->
        run env (diffFile d differ None newFile cb) w =
        logged check (logged inspect
          (run env
             (r <- openCommit parent [index.WithPrefix newName] ;;
              match r with
              | Err err => Return (Some err)
              | Ok (oldCommit, fs) => compare (diff_source newName oldCommit fs)
              end) w2)))
  /\ (forall oldPath,
        run env (diffFile d differ (Some (nilable.mkFile None oldPath)) newFile cb) w =
        logged check (logged inspect (run env (compare emptySource) w2))).
Proof.
  intros newFile newCommit check inspect w2 newName compare Hcheck Hinspect.
  subst newFile newCommit check inspect w2 newName compare.
  split; [|split].
  - intros Hparent. unfold diffFile.
    cbn [nilable.File_Commit nilable.Commit_Repo nilable.File_Path nilable.Commit_ID bind].
    rewrite run_call_bind, Hcheck, run_call_bind, Hinspect, Hparent. reflexivity.
  - intros parent Hparent. unfold diffFile.
    cbn [nilable.File_Commit nilable.Commit_Repo nilable.File_Path nilable.Commit_ID bind].
    rewrite run_call_bind, Hcheck, run_call_bind, Hinspect, Hparent.
    cbn [nilable.File_Commit nilable.File_Path].
    do 2 f_equal. rewrite !run_bind.
    destruct (run env (openCommit parent _) _) as [o wo topen].
    unfold then_run at 2; cbn [outcome world trace].
    destruct o as [[[oldCommit fs]|err]|msg].
    + rewrite run_Return. cbn [then_run outcome world trace].
      now rewrite app_nil_r.
    + rewrite run_Return. unfold then_run; cbn [outcome world trace app].
      now rewrite app_nil_r.
    + unfold then_run; cbn [outcome world trace]. reflexivity.
  - intros oldPath. unfold diffFile.
    cbn [nilable.File_Commit nilable.Commit_Repo nilable.File_Path nilable.Commit_ID bind].
    rewrite run_call_bind, Hcheck, run_call_bind, Hinspect. reflexivity.
Qed.

(** X19.  [diffFile] does not read an unfinished new commit.  Without an old
    file, the new commit having no parent: the repo of the new commit is
    checked and the new commit inspected, and both again when the commit
    is opened; when it inspects as unfinished then, [ErrCommitNotFinished]
    is returned after these four calls, and the differ is not run. *)
Theorem diffFile_unfinished_new_commit
    (d : Imports)
    (differ : Source -> Source ->
              (option pfs.FileInfo -> option pfs.FileInfo -> Prog status) -> Prog status)
    (env : Env) (w : World env)
    (repo : pfs.Repo) (id p : string)
    (cb : option pfs.FileInfo -> option pfs.FileInfo -> Prog status)
    (first second : pfs.CommitInfo) :
  let newFile := Some (nilable.mkFile (Some (nilable.mkCommit (Some repo) id)) p) in
  let check := CheckIsAuthorized repo auth.Scope_READER in
  let inspect := inspectCommit (pfs.mkCommit repo id) pfs.CommitState_STARTED in
  let w1 := after env check w in
  let w2 := after env inspect w1 in
  let w3 := after env check w2 in
  reply env check w = None ->
  reply env inspect w1 = Ok first ->
  pfs.CommitInfo_ParentCommit first = None ->
  reply env check w2 = None ->
  reply env inspect w3 = Ok second ->
  pfs.CommitInfo_Finished second = None ->
  run env (diffFile d differ None newFile cb) w =
  mkRun (Returned (Some (ErrCommitNotFinished (pfs.CommitInfo_Commit second))))
        (after env inspect w3) [check; inspect; check; inspect].
Proof.
  intros newFile check inspect w1 w2 w3 Hcheck Hfirst Hparent Hcheck2 Hsecond Hunfinished.
  subst newFile check inspect w1 w2 w3. unfold diffFile.
  cbn [nilable.File_Commit nilable.Commit_Repo nilable.File_Path nilable.Commit_ID bind].
  rewrite run_call_bind, Hcheck, run_call_bind, Hfirst, Hparent.
  cbn [nilable.File_Commit nilable.File_Path bind].
  rewrite run_bind. unfold openCommit. cbn [pfs.Commit_Repo].
  rewrite run_call_bind, Hcheck2, run_call_bind, Hsecond, Hunfinished, run_Return.
  unfold then_run; cbn [logged outcome world trace]. rewrite run_Return. reflexivity.
Qed.

(** ** [createFileset] *)

(** X20.  What [createFileset] returns.  When it returns an id, the renewer was
    told to keep that id alive just before the renewal scope ended, and
    the scope was told of no error.  It returns neither id nor error only
    when the renewal scope was told of an error and answered none. *)
Theorem createFileset_result
    (d : Imports) (env : Env) (w : World env)
    (cb : fileset.UnorderedWriter -> Prog status) :
  let start := storage_WithRenewer_begin (defaultTTL d) in
  let renewer := reply env start w in
  let r := run env (createFileset d cb) w in
  (forall id,
     outcome r = Returned (Ok (Some id)) ->
     exists t,
       trace r = (start :: t ++ [renewer_Add renewer id;
                                 storage_WithRenewer_end renewer None])%list)
  /\ (outcome r = Returned (Ok None) ->
      exists t err w',
        trace r = (start :: t ++ [storage_WithRenewer_end renewer (Some err)])%list
        /\ reply env (storage_WithRenewer_end renewer (Some err)) w' = None).
Proof.
  intros start renewer r. subst start renewer r.
  remember (trace (run env (createFileset d cb) w)) as tr eqn:Htr.
  remember (outcome (run env (createFileset d cb) w)) as out eqn:Hout.
  revert Htr Hout. unfold createFileset.
  rewrite run_call_bind, run_bind.
  pose proof (withTmpUnorderedWriter_ends_with_renewal d env
                (after env (storage_WithRenewer_begin (defaultTTL d)) w)
                (reply env (storage_WithRenewer_begin (defaultTTL d)) w) false cb)
    as Hends.
  destruct (run env (withTmpUnorderedWriter _ _ _ _) _) as [o wt tt].
  cbn [outcome trace] in Hends.
  unfold then_run; cbn [logged outcome world trace].
  destruct o as [[id'|err]|msg].
  - destruct (Hends id' eq_refl) as (t & ->).
    rewrite run_call_bind.
    destruct (reply env (storage_WithRenewer_end _ _) wt) as [err|];
      rewrite run_Return; cbn [logged outcome world trace]; intros -> ->.
    + split; [intros id H|intros H]; discriminate H.
    + split; [intros id H|intros H; discriminate H].
      injection H as <-. exists t. now rewrite <- app_assoc.
  - rewrite run_call_bind.
    destruct (reply env (storage_WithRenewer_end _ _) wt) as [err'|] eqn:Hend;
      rewrite run_Return; cbn [logged outcome world trace]; intros -> ->.
    + split; [intros id H|intros H]; discriminate H.
    + split; [intros id H; discriminate H|intros _].
      exists tt, err, wt. split; [reflexivity|exact Hend].
  - intros -> ->. split; [intros id H|intros H]; discriminate H.
Qed.

(** X21.  [createFileset] is independent of any commit: apart from what the
    callback does, it opens no transaction, inspects, starts and finishes
    no commit, and neither binds a fileset to a commit nor asks for one. *)
Theorem createFileset_touches_no_commit
    (d : Imports) (env : Env) (w : World env)
    (cb : fileset.UnorderedWriter -> Prog status) (c : Call) :
  In c (trace (run env (createFileset d cb) w)) ->
  (exists uw w', In c (trace (run env (cb uw) w')))
  \/ match c with
     | inspectCommit _ _ | startCommit _ _ _ _ _ _ | finishCommit _ _ _
     | WithWriteContext_begin | WithWriteContext_conflict _ | WithWriteContext_end _ _
     | commitStore_AddFileset _ _ | commitStore_GetFileset _ => False
     | _ => True
     end.
Proof.
  unfold createFileset. rewrite run_call_bind, run_bind.
  pose proof (withTmpUnorderedWriter_calls d env
                (after env (storage_WithRenewer_begin (defaultTTL d)) w)
                (reply env (storage_WithRenewer_begin (defaultTTL d)) w) false cb c)
    as Hcalls.
  destruct (run env (withTmpUnorderedWriter _ _ _ _) _) as [o wt tt].
  cbn [trace] in Hcalls.
  assert (Htt : In c tt ->
                (exists uw w', In c (trace (run env (cb uw) w')))
                \/ match c with
                   | inspectCommit _ _ | startCommit _ _ _ _ _ _ | finishCommit _ _ _
                   | WithWriteContext_begin | WithWriteContext_conflict _ | WithWriteContext_end _ _
                   | commitStore_AddFileset _ _ | commitStore_GetFileset _ => False
                   | _ => True
                   end).
  { intros H. apply Hcalls in H.
    destruct H as [H|[->|[(? & ? & ->)|[(? & ->)|[(? & ? & ->)|(? & ->)]]]]];
      [now left|right; exact I..]. }
  clear Hcalls.
  unfold then_run; cbn [logged outcome world trace].
  destruct o as [r|msg].
  - rewrite run_call_bind.
    destruct (reply env (storage_WithRenewer_end _ _) wt);
      rewrite run_Return; cbn [logged trace]; intros H; sort_calls H.
  - cbn [trace]. intros H. sort_calls H.
Qed.

(** ** Tags and times *)

Lemma to_int_not_nil (n : Z) :
  Z.to_int n <> Decimal.Pos Decimal.Nil /\ Z.to_int n <> Decimal.Neg Decimal.Nil.
Proof.
  destruct n as [|p|p]; cbn; split; try discriminate;
    intros H; injection H as H; exact (DecimalPos.Unsigned.to_uint_nonnil _ H).
Qed.

(** X22.  The default tag determines the time it was made at: two calls of
    [getDefaultTag] that return the same tag have read the same time off
    the clock.  (The tag is the verb followed by the decimal digits of the
    time, and the digits can be read back.) *)
Theorem getDefaultTag_same_tag_same_time (env : Env) (w w' : World env) :
  outcome (run env getDefaultTag w) = outcome (run env getDefaultTag w') ->
  reply env time_Now_UnixNano w = reply env time_Now_UnixNano w'.
Proof.
  unfold getDefaultTag. rewrite !run_call_bind, !run_Return.
  cbn [logged outcome]. unfold fmt.Sprint.
  cbn [fmt.doPrint fmt.isString fmt.printArg negb andb].
  rewrite !append_empty_r. cbn [String.append].
  intros H. injection H as H.
  apply (f_equal NilZero.int_of_string) in H.
  destruct (to_int_not_nil (reply env time_Now_UnixNano w)) as [Hp Hn].
  destruct (to_int_not_nil (reply env time_Now_UnixNano w')) as [Hp' Hn'].
  rewrite !NilZero.isi in H by assumption.
  injection H as H. now apply DecimalZ.to_int_inj.
Qed.

(** ** The checks of [renewFileset], in order *)

(** X2.  [renewFileset] reports the first check that fails, in the order:
    the lower bound of the TTL, its upper bound, the length of the id.  A
    TTL below one second is reported as such whatever the maximum and the
    id are; a TTL above the maximum is reported as such whatever the id
    is; the id is looked at only when the TTL is in range.  The bounds are
    inclusive: with a 32-character id, a TTL of exactly one second and one
    of exactly the maximum both reach the storage (when the maximum is at
    least one second). *)
Theorem renewFileset_first_failing_check
    (d : Imports) (env : Env) (w : World env) (id : string) (ttl : Z) :
  let r := run env (renewFileset d id ttl) w in
  ((ttl < time.Second)%Z ->
   r = mkRun (Returned (Some (errors_Errorf "ttl (%d) must be at least one second"
                                [arg_int ttl]))) w [])
  /\ ((time.Second <= ttl)%Z -> (ttl > maxTTL d)%Z ->
      r = mkRun (Returned (Some (errors_Errorf "ttl (%d) exceeds max ttl (%d)"
                                   [arg_int ttl; arg_int (maxTTL d)]))) w [])
  /\ ((time.Second <= ttl <= maxTTL d)%Z -> String.length id <> 32%nat ->
      r = mkRun (Returned (Some (errors_Errorf "invalid id (%s)" [arg_string id]))) w [])
  /\ ((time.Second <= maxTTL d)%Z -> String.length id = 32%nat ->
      trace (run env (renewFileset d id time.Second) w) =
        [storage_SetTTL (path_Join d [tmpRepo d; id]) time.Second]
      /\ trace (run env (renewFileset d id (maxTTL d)) w) =
        [storage_SetTTL (path_Join d [tmpRepo d; id]) (maxTTL d)]).
Proof.
  intros r. subst r. unfold renewFileset.
  split; [|split; [|split]].
  - intros Hlt. apply Z.ltb_lt in Hlt. now rewrite Hlt.
  - intros Hge Hgt. apply Z.ltb_ge in Hge. apply Z.gtb_gt in Hgt.
    now rewrite Hge, Hgt.
  - intros [Hge Hle] Hlen. apply Z.ltb_ge in Hge.
    rewrite Hge. destruct (Z.gtb_spec ttl (maxTTL d)) as [Hgt|_]; [lia|].
    apply Nat.eqb_neq in Hlen. now rewrite Hlen.
  - intros Hmax Hlen. apply Nat.eqb_eq in Hlen. rewrite Hlen. cbn [negb].
    replace (time.Second <? time.Second)%Z with false by (symmetry; apply Z.ltb_irrefl).
    destruct (Z.gtb_spec time.Second (maxTTL d)) as [Hgt|_]; [lia|].
    destruct (Z.ltb_spec (maxTTL d) time.Second) as [Hlt|_]; [lia|].
    destruct (Z.gtb_spec (maxTTL d) (maxTTL d)) as [Hgt|_]; [lia|].
    cbv zeta. rewrite !run_call_bind. split; reflexivity.
Qed.

(** ** What a success of [openCommit], [addFileset] and [getFileset] means *)

(** X23.  When [openCommit] returns a commit and a fileset: the reader check
    passed, the commit inspected as finished, the commit returned is the
    inspected one (not the one asked for, which may name a branch), the
    commit store gave the fileset bound to it, and the fileset returned is
    what the storage opened from that one id with the caller's options.
    These four calls are all it made. *)
Theorem openCommit_success
    (env : Env) (w : World env) (commit : pfs.Commit) (opts : list index.Option)
    (c : pfs.Commit) (fs : fileset.FileSet) :
  let check := CheckIsAuthorized (pfs.Commit_Repo commit) auth.Scope_READER in
  let inspect := inspectCommit commit pfs.CommitState_STARTED in
  let w1 := after env check w in
  let w2 := after env inspect w1 in
  let w3 := after env (commitStore_GetFileset c) w2 in
  let r := run env (openCommit commit opts) w in
  outcome r = Returned (Ok (c, fs)) ->
  exists commitInfo id,
    reply env check w = None
    /\ reply env inspect w1 = Ok commitInfo
    /\ pfs.CommitInfo_Finished commitInfo <> None
    /\ c = pfs.CommitInfo_Commit commitInfo
    /\ reply env (commitStore_GetFileset c) w2 = Ok id
    /\ reply env (storage_Open [id] opts) w3 = Ok fs
    /\ r = mkRun (Returned (Ok (c, fs))) (after env (storage_Open [id] opts) w3)
               [check; inspect; commitStore_GetFileset c; storage_Open [id] opts].
Proof.
  intros check inspect w1 w2 w3 r. subst check inspect w1 w2 w3 r.
  unfold openCommit. rewrite run_call_bind.
  destruct (reply env (CheckIsAuthorized _ _) w) as [err|] eqn:Hcheck.
  { rewrite run_Return. discriminate. }
  rewrite run_call_bind.
  destruct (reply env (inspectCommit _ _) _) as [commitInfo|err] eqn:Hinspect.
  2:{ rewrite run_Return. discriminate. }
  destruct (pfs.CommitInfo_Finished commitInfo) as [t|] eqn:Hfinished.
  2:{ rewrite run_Return. discriminate. }
  rewrite run_call_bind.
  destruct (reply env (commitStore_GetFileset _) _) as [id|err] eqn:Hget.
  2:{ rewrite run_Return. discriminate. }
  rewrite run_call_bind.
  destruct (reply env (storage_Open _ _) _) as [fs'|err] eqn:Hopen.
  2:{ rewrite run_Return. discriminate. }
  rewrite run_Return. cbn [logged outcome world trace].
  intros H. injection H as <- <-.
  exists commitInfo, id. rewrite Hget, Hopen.
  repeat split; try reflexivity. rewrite Hfinished. discriminate.
Qed.

(** X24.  When [addFileset] returns no error, the commit inspected as open and
    the fileset was added to the inspected commit; when [getFileset]
    returns an id, the commit inspected as finished and the id is what
    the commit store holds for the inspected commit.  In both cases the
    inspection and the call of the commit store are the two calls made. *)
Theorem addFileset_getFileset_success
    (env : Env) (w : World env) (commit : pfs.Commit) (filesetID id : fileset.ID) :
  let inspect := inspectCommit commit pfs.CommitState_STARTED in
  let w1 := after env inspect w in
  (outcome (run env (addFileset commit filesetID) w) = Returned None ->
   exists commitInfo,
     let add := commitStore_AddFileset (pfs.CommitInfo_Commit commitInfo) filesetID in
     reply env inspect w = Ok commitInfo
     /\ pfs.CommitInfo_Finished commitInfo = None
     /\ run env (addFileset commit filesetID) w =
        mkRun (Returned None) (after env add w1) [inspect; add])
  /\ (outcome (run env (getFileset commit) w) = Returned (Ok id) ->
      exists commitInfo,
        let get := commitStore_GetFileset (pfs.CommitInfo_Commit commitInfo) in
        reply env inspect w = Ok commitInfo
        /\ pfs.CommitInfo_Finished commitInfo <> None
        /\ run env (getFileset commit) w =
           mkRun (Returned (Ok id)) (after env get w1) [inspect; get]).
Proof.
  intros inspect w1. subst inspect w1. split.
  - unfold addFileset. rewrite run_call_bind.
    destruct (reply env (inspectCommit _ _) w) as [commitInfo|err].
    2:{ rewrite run_Return. discriminate. }
    destruct (pfs.CommitInfo_Finished commitInfo) eqn:Hopen.
    { rewrite run_Return. discriminate. }
    unfold call. rewrite run_Do, run_Return. cbn [logged outcome world trace].
    intros H. injection H as H. exists commitInfo. cbv zeta. rewrite H.
    repeat split; try reflexivity; assumption.
  - unfold getFileset. rewrite run_call_bind.
    destruct (reply env (inspectCommit _ _) w) as [commitInfo|err].
    2:{ rewrite run_Return. discriminate. }
    destruct (pfs.CommitInfo_Finished commitInfo) eqn:Hfinished.
    2:{ rewrite run_Return. discriminate. }
    unfold call. rewrite run_Do, run_Return. cbn [logged outcome world trace].
    intros H. injection H as H. exists commitInfo. cbv zeta. rewrite H.
    repeat split; try reflexivity. rewrite Hfinished. discriminate.
Qed.

(** ** What the callbacks of the reading methods are called on *)

(** Two laws of sequencing, for runs. *)
Lemma run_bind_assoc env A B C (p : Prog A) (f : A -> Prog B) (g : B -> Prog C)
    (w : World env) :
  run env (bind (bind p f) g) w = run env (bind p (fun x => bind (f x) g)) w.
Proof.
  revert w. induction p as [a|msg|c k IH]; intros w; cbn [bind].
  - reflexivity.
  - reflexivity.
  - rewrite !run_Do. now rewrite IH.
Qed.

Lemma run_bind_ext env A B (p : Prog A) (f g : A -> Prog B) (w : World env) :
  (forall a w', run env (f a) w' = run env (g a) w') ->
  run env (bind p f) w = run env (bind p g) w.
Proof.
  intros H. rewrite !run_bind. unfold then_run.
  destruct (outcome (run env p w)); [now rewrite H | reflexivity].
Qed.

(** Iterating with a callback that skips some files is calling back on the
    files it does not skip. *)
Lemma iterate_files_skipping env (cb : pfs.FileInfo -> Prog status)
    (keep : fileset.File -> bool) (commit : pfs.Commit)
    (skipping : fileset.File -> unit -> Prog (status * unit))
    (l : list fileset.File) (w : World env) :
  (forall f, skipping f tt =
             if keep f then e <- cb (info_of commit f) ;; Return (e, tt)
             else Return (None, tt)) ->
  run env (r <- iterate_files skipping l tt ;; Return (fst r)) w =
  run env (for_each cb (map (info_of commit) (filter keep l))) w.
Proof.
  intros Hskipping.
  revert w. induction l as [|f l IH]; intros w; cbn [iterate_files filter map for_each].
  - reflexivity.
  - rewrite Hskipping. destruct (keep f); cbn [map for_each].
    + rewrite !run_bind_assoc. apply run_bind_ext. intros [err|] w'; cbn [bind fst snd].
      * reflexivity.
      * apply IH.
    + cbn [bind fst snd]. apply IH.
Qed.

(** Iterating a fileset whose reader does not panic is iterating its
    files. *)
Lemma run_Iterate_files env S R (fs : fileset.FileSet)
    (cb : fileset.File -> S -> Prog (status * S)) (s : S)
    (k : status * S -> Prog R) (w : World env) :
  fileset.panics fs = None ->
  run env (r <- Iterate fs cb s ;; k r) w =
  run env (r <- iterate_files cb (fileset.files fs) s ;; k r) w.
Proof.
  intros Hpanics. unfold Iterate. rewrite run_bind_assoc. apply run_bind_ext.
  intros [[err|] s'] w'; rewrite Hpanics; reflexivity.
Qed.

(** X25.  [globFile] calls back on the matches of the glob, in order.  Once the
    commit is open, the callback is called on the [FileInfo] of each entry
    of the resolved stream (directories inserted) whose path the glob
    matches, in the order of the stream and in the commit that was opened,
    up to the first error it returns; that error, or none, is the result.
    Nothing else is called. *)
Theorem globFile_calls_back_on_matches
    (d : Imports) (env : Env) (w : World env) (commit : pfs.Commit) (glob : string)
    (cb : pfs.FileInfo -> Prog status)
    (indexOpt : index.Option) (mf : string -> bool)
    (Hglob : parseGlob d glob = Ok (indexOpt, mf))
    (Hreader : forall c fs,
        outcome (run env (openCommit commit [indexOpt]) w) = Returned (Ok (c, fs)) ->
        fileset.panics fs = None) :
  run env (globFile d commit glob cb) w =
  then_run (run env (openCommit commit [indexOpt]) w)
    (fun r =>
       match r with
       | Err err => Return (Some err)
       | Ok (c, fs) =>
           for_each cb
             (map (info_of c)
                (filter (fun f => mf (index.Path (fileset.Index f)))
                   (fileset.files
                      (fileset.NewDirInserter (fileset.NewIndexResolver fs)))))
       end).
Proof.
  unfold globFile. rewrite Hglob, run_bind.
  destruct (run env (openCommit commit [indexOpt]) w) as [o wo topen].
  unfold then_run; cbn [outcome world trace].
  destruct o as [[[c fs]|err]|msg]; [|reflexivity..].
  specialize (Hreader c fs eq_refl).
  f_equal; [f_equal| |f_equal]; cbn [Source_Iterate];
    (rewrite run_Iterate_files by exact Hreader;
     rewrite (iterate_files_skipping env cb
                (fun f => mf (index.Path (fileset.Index f))) c);
     [reflexivity|];
     intros f; cbn [pfs.FileInfo_File pfs.File_Path];
     now destruct (mf (index.Path (fileset.Index f)))).
Qed.

(** X26.  [listFile] calls back on the children of the path.  Once the commit
    is open, the callback is called on the [FileInfo] of each entry of the
    resolved stream (directories inserted) that passes the filter of
    [listFile] and whose cleaned path [pathIsChild] takes for a child of
    the cleaned path listed, in the order of the stream, up to the first
    error it returns; that error, or none, is the result.  A path without
    such entries is listed as empty: no error is returned. *)
Theorem listFile_calls_back_on_children
    (d : Imports) (env : Env) (w : World env) (file : pfs.File) (full : bool)
    (cb : pfs.FileInfo -> Prog status)
    (Hreader : forall c fs,
        outcome (run env (openCommit (pfs.File_Commit file)
                            [index.WithPrefix (cleanPath d (pfs.File_Path file))]) w)
        = Returned (Ok (c, fs)) ->
        fileset.panics fs = None) :
  let name := cleanPath d (pfs.File_Path file) in
  run env (listFile d file full cb) w =
  then_run (run env (openCommit (pfs.File_Commit file) [index.WithPrefix name]) w)
    (fun r =>
       match r with
       | Err err => Return (Some err)
       | Ok (c, fs) =>
           for_each cb
             (map (info_of c)
                (filter (fun f => pathIsChild d name
                                    (cleanPath d (index.Path (fileset.Index f))))
                   (fileset.files
                      (fileset.NewIndexFilter
                         (fileset.NewDirInserter (fileset.NewIndexResolver fs))
                         (list_filter name) tt))))
       end).
Proof.
  intros name. subst name. unfold listFile. rewrite run_bind.
  destruct (run env (openCommit _ _) w) as [o wo topen].
  unfold then_run; cbn [outcome world trace].
  destruct o as [[[c fs]|err]|msg]; [|reflexivity..].
  specialize (Hreader c fs eq_refl).
  f_equal; [f_equal| |f_equal]; cbn [Source_Iterate];
    (rewrite run_Iterate_files by exact Hreader;
     rewrite (iterate_files_skipping env cb
                (fun f => pathIsChild d (cleanPath d (pfs.File_Path file))
                            (cleanPath d (index.Path (fileset.Index f)))) c);
     [reflexivity|]; intros f; reflexivity).
Qed.

(** Iterating under [NewErrOnEmpty]: the callback is called on every file,
    and the error for an empty source is returned when there is none. *)
Lemma iterate_files_noting env (cb : pfs.FileInfo -> Prog status) (commit : pfs.Commit)
    (err : error) (l : list fileset.File) (empty : bool) (w : World env) :
  run env
    (r <- iterate_files
            (fun f (es : bool * unit) =>
               r <- (e <- cb (info_of commit f) ;; Return (e, tt)) ;;
               Return (fst r, (false, snd r)))
            l (empty, tt) ;;
     r <- match fst r with
          | Some e => Return (Some e, snd (snd r))
          | None => Return (if fst (snd r) then Some err else None, snd (snd r))
          end ;;
     Return (fst r)) w =
  run env
    (match l with
     | [] => Return (if empty then Some err else None)
     | _ :: _ => for_each cb (map (info_of commit) l)
     end) w.
Proof.
  revert empty w. induction l as [|f l IH]; intros empty w; cbn [iterate_files].
  - reflexivity.
  - cbn [map for_each]. rewrite !run_bind_assoc. apply run_bind_ext.
    intros [e|] w'; cbn [bind fst snd].
    + reflexivity.
    + rewrite IH. destruct l; reflexivity.
Qed.

(** X27.  [walkFile] calls back on the path and on everything below it.  Once
    the commit is open, the callback is called on the [FileInfo] of each
    entry of the stream (directories inserted, entries not resolved) whose
    path is the path walked or lies below it, in the order of the stream,
    up to the first error it returns; that error, or none, is the result.
    When there is no such entry, the callback is not called and
    [ErrFileNotFound] is returned for the file as it was asked for. *)
Theorem walkFile_calls_back_below
    (d : Imports) (env : Env) (w : World env) (file : pfs.File)
    (cb : pfs.FileInfo -> Prog status) :
  let p := if (cleanPath d (pfs.File_Path file) =? "/")%string then ""
           else cleanPath d (pfs.File_Path file) in
  forall (Hreader : forall c fs,
             outcome (run env (openCommit (pfs.File_Commit file) [index.WithPrefix p]) w)
             = Returned (Ok (c, fs)) ->
             fileset.panics fs = None),
  run env (walkFile d file cb) w =
  then_run (run env (openCommit (pfs.File_Commit file) [index.WithPrefix p]) w)
    (fun r =>
       match r with
       | Err err => Return (Some err)
       | Ok (c, fs) =>
           match fileset.files
                   (fileset.NewIndexFilter (fileset.NewDirInserter fs)
                      (inspect_filter p) tt) with
           | [] => Return (Some (ErrFileNotFound file))
           | below => for_each cb (map (info_of c) below)
           end
       end).
Proof.
  intros p Hreader. subst p. unfold walkFile. rewrite run_bind.
  destruct (run env (openCommit _ _) w) as [o wo topen].
  unfold then_run; cbn [outcome world trace].
  destruct o as [[[c fs]|err]|msg]; [|reflexivity..].
  specialize (Hreader c fs eq_refl).
  assert (Hrun : forall w',
    run env
      (r <- Source_Iterate
              (NewErrOnEmpty
                 (NewSource c
                    (fileset.NewIndexFilter (fileset.NewDirInserter fs)
                       (inspect_filter
                          (if (cleanPath d (pfs.File_Path file) =? "/")%string then ""
                           else cleanPath d (pfs.File_Path file))) tt) false)
                 (ErrFileNotFound file))
              (fun fi _ (_ : unit) => e <- cb fi ;; Return (e, tt)) tt ;;
       Return (fst r)) w' =
    run env
      match fileset.files
              (fileset.NewIndexFilter (fileset.NewDirInserter fs)
                 (inspect_filter
                    (if (cleanPath d (pfs.File_Path file) =? "/")%string then ""
                     else cleanPath d (pfs.File_Path file))) tt) with
      | [] => Return (Some (ErrFileNotFound file))
      | below => for_each cb (map (info_of c) below)
      end w').
  { intros w'. cbn [Source_Iterate].
    rewrite run_bind_assoc, run_Iterate_files by exact Hreader.
    rewrite (iterate_files_noting env cb c (ErrFileNotFound file) _ true).
    now destruct (fileset.files _). }
  now rewrite Hrun.
Qed.

(** Iterating with the callback of [inspectFile] under [NewErrOnEmpty]
    makes no call: it notes whether there was a file, and keeps the last
    [FileInfo] at the path. *)
Lemma iterate_files_inspecting (p : string) (commit : pfs.Commit)
    (noting : fileset.File -> bool * option pfs.FileInfo ->
              Prog (status * (bool * option pfs.FileInfo)))
    (l : list fileset.File) (empty : bool) (ret : option pfs.FileInfo) :
  (forall f es,
     noting f es =
     (r <- inspect_callback p (info_of commit f) f (snd es) ;;
      Return (fst r, (false, snd r)))) ->
  iterate_files noting l (empty, ret) =
  Return (None, (match l with [] => empty | _ :: _ => false end,
                 inspected p commit l ret)).
Proof.
  intros Hnoting. revert empty ret. induction l as [|f l IH]; intros empty ret.
  - reflexivity.
  - cbn [iterate_files]. rewrite Hnoting.
    cbn [inspect_callback bind fst snd]. rewrite IH.
    destruct l; reflexivity.
Qed.

(** X28.  What [inspectFile] returns once the commit is open: of the entries of
    the resolved stream (directories inserted) whose path is the path
    asked for or lies below it, the [FileInfo] of the last one whose path
    is the path itself or the path followed by "/"; [ErrFileNotFound] when
    there is no entry at or below the path; and neither a [FileInfo] nor
    an error when there are entries below the path but none at it.  No
    call is made after the commit is opened. *)
Theorem inspectFile_returns_the_entry_at_the_path
    (d : Imports) (env : Env) (w : World env) (file : pfs.File) :
  let p := if (cleanPath d (pfs.File_Path file) =? "/")%string then ""
           else cleanPath d (pfs.File_Path file) in
  forall (Hreader : forall c fs,
             outcome (run env (openCommit (pfs.File_Commit file) [index.WithPrefix p]) w)
             = Returned (Ok (c, fs)) ->
             fileset.panics fs = None),
  run env (inspectFile d file) w =
  then_run (run env (openCommit (pfs.File_Commit file) [index.WithPrefix p]) w)
    (fun r =>
       match r with
       | Err err => Return (Err err)
       | Ok (c, fs) =>
           match fileset.files
                   (fileset.NewIndexFilter
                      (fileset.NewDirInserter (fileset.NewIndexResolver fs))
                      (inspect_filter p) tt) with
           | [] => Return (Err (ErrFileNotFound file))
           | below => Return (Ok (inspected p c below None))
           end
       end).
Proof.
  intros p Hreader. subst p. unfold inspectFile. rewrite run_bind.
  destruct (run env (openCommit _ _) w) as [o wo topen].
  unfold then_run; cbn [outcome world trace].
  destruct o as [[[c fs]|err]|msg]; [|reflexivity..].
  specialize (Hreader c fs eq_refl).
  set (p := if (cleanPath d (pfs.File_Path file) =? "/")%string then ""
            else cleanPath d (pfs.File_Path file)).
  set (below := fileset.NewIndexFilter
                  (fileset.NewDirInserter (fileset.NewIndexResolver fs))
                  (inspect_filter p) tt).
  assert (Hrun : forall w',
    run env
      (r <- Source_Iterate (NewErrOnEmpty (NewSource c below true) (ErrFileNotFound file))
              (inspect_callback p) None ;;
       match fst r with
       | Some err => Return (Err err)
       | None => Return (Ok (snd r))
       end) w' =
    run env
      match fileset.files below with
      | [] => Return (Err (ErrFileNotFound file))
      | _ :: _ => Return (Ok (inspected p c (fileset.files below) None))
      end w').
  { intros w'. cbn [Source_Iterate].
    rewrite run_bind_assoc, run_Iterate_files by exact Hreader.
    rewrite (iterate_files_inspecting p c) by (intros; reflexivity).
    destruct (fileset.files below); reflexivity. }
  rewrite !Hrun. destruct (fileset.files below); reflexivity.
Qed.

(** ** A copy that cannot rebase a path *)

(** The mapper of [copyFile] panics on the first entry whose path cannot
    be made relative. *)
Lemma map_until_panic_cannot_rebase (d : Imports) (srcPath dstPath : string)
    (l : list fileset.File) :
  (exists e err, In e l /\ filepath_Rel d srcPath (index.Path (fileset.Index e)) = Err err) ->
  snd (fileset.map_until_panic (copy_mapper d srcPath dstPath) l) =
  Some "cannot apply path transform".
Proof.
  induction l as [|x l IH]; intros (e & err & Hin & Hrel); [destruct Hin|].
  cbn [fileset.map_until_panic]. unfold copy_mapper at 1, pathTransform.
  destruct (filepath_Rel d srcPath (index.Path (fileset.Index x))) as [rel|err'] eqn:Hx.
  - destruct Hin as [<-|Hin]; [congruence|].
    destruct (fileset.map_until_panic (copy_mapper d srcPath dstPath) l) as [out p].
    cbn [snd] in *. apply IH. eauto.
  - reflexivity.
Qed.

(** X15.  When [filepath.Rel] fails on an entry to copy, [copyFile] panics
    (the source commit open, the destination writable, every append
    accepted): "cannot apply path transform".  Before the panic the
    entries in front of that entry may have been appended; the writer is
    closed by the deferred call while the panic unwinds; no fileset is
    added to the destination commit. *)
Theorem copyFile_panics_when_a_path_cannot_be_rebased
    (d : Imports) (env : Env) (w : World env) (src dst : pfs.File)
    (srcCommitInfo dstCommitInfo dstCommitInfo' : pfs.CommitInfo)
    (srcCommit' : pfs.Commit) (fs : fileset.FileSet)
    (w_open : World env) (t_open : list Call) :
  let srcPath := cleanPath d (pfs.File_Path src) in
  let inspectSrc := inspectCommit (pfs.File_Commit src) pfs.CommitState_STARTED in
  let inspectDst := inspectCommit (pfs.File_Commit dst) pfs.CommitState_STARTED in
  let inspectDst' :=
    inspectCommit (pfs.CommitInfo_Commit dstCommitInfo) pfs.CommitState_STARTED in
  let fsw := reply env storage_NewWriter (after env inspectDst' w_open) in
  let tag :=
    fmt.Sprint [arg_string "%012d";
                arg_int (reply env time_Now_UnixNano
                           (after env storage_NewWriter (after env inspectDst' w_open)))] in
  forall
    (Hsrc : reply env inspectSrc w = Ok srcCommitInfo)
    (Hsrc_finished : pfs.CommitInfo_Finished srcCommitInfo <> None)
    (Hdst : reply env inspectDst (after env inspectSrc w) = Ok dstCommitInfo)
    (Hdst_open : pfs.CommitInfo_Finished dstCommitInfo = None)
    (Hopen : run env (openCommit (pfs.CommitInfo_Commit srcCommitInfo)
                        [index.WithPrefix srcPath])
                 (after env inspectDst (after env inspectSrc w))
             = mkRun (Returned (Ok (srcCommit', fs))) w_open t_open)
    (Hreader : fileset.panics fs = None)
    (Hdst' : reply env inspectDst' w_open = Ok dstCommitInfo')
    (Hdst_open' : pfs.CommitInfo_Finished dstCommitInfo' = None)
    (Hrel : exists e err,
        In e (fileset.files (fileset.NewIndexFilter fs (copy_filter srcPath) tt))
        /\ filepath_Rel d srcPath (index.Path (fileset.Index e)) = Err err)
    (Happend : forall w' fsw p tag f, reply env (Writer_Append fsw p tag f) w' = None),
  let r := run env (copyFile d src dst false) w in
  outcome r = Panicked "cannot apply path transform"
  /\ exists appends,
       (forall c, In c appends -> exists p f, c = Writer_Append fsw p tag f)
       /\ trace r = (inspectSrc :: inspectDst :: t_open
                     ++ [inspectDst'; storage_NewWriter; time_Now_UnixNano]
                     ++ appends ++ [Writer_Close fsw])%list.
Proof.
  intros srcPath inspectSrc inspectDst inspectDst' fsw tag
         Hsrc Hsrc_finished Hdst Hdst_open Hopen Hreader Hdst' Hdst_open' Hrel Happend r.
  subst r inspectSrc inspectDst. unfold copyFile.
  rewrite run_call_bind, Hsrc.
  destruct (pfs.CommitInfo_Finished srcCommitInfo) as [ts|]; [|congruence].
  rewrite run_call_bind, Hdst, Hdst_open. cbv zeta.
  fold srcPath. rewrite run_bind, Hopen.
  unfold then_run; cbn [logged outcome world trace].
  set (dstPath := cleanPath d (pfs.File_Path dst)).
  set (mapped := fileset.NewIndexMapper
                   (fileset.NewIndexFilter fs (copy_filter srcPath) tt)
                   (copy_mapper d srcPath dstPath)).
  assert (Hpanics : fileset.panics mapped = Some "cannot apply path transform").
  { subst mapped. unfold fileset.NewIndexMapper.
    pose proof (map_until_panic_cannot_rebase d srcPath dstPath _ Hrel) as Hsnd.
    destruct (fileset.map_until_panic _ _) as [out p]. cbn [snd] in Hsnd. subst p.
    reflexivity. }
  unfold withCommitWriter. fold inspectDst'.
  rewrite run_call_bind, Hdst', Hdst_open'.
  rewrite run_call_bind, run_defer, run_getDefaultTag_bind.
  fold fsw. fold tag.
  rewrite run_bind_assoc. unfold Iterate. rewrite run_bind_assoc, run_bind.
  destruct (iterate_files_appended env fsw tag (fileset.files mapped)
              (after env time_Now_UnixNano
                 (after env storage_NewWriter (after env inspectDst' w_open))))
    as (k & _ & Hall).
  destruct (Hall (fun w' p f => Happend w' fsw p tag f)) as [_ Hiter]. clear Hall.
  pose proof (copy_append_calls env fsw tag (fileset.files mapped)
                (after env time_Now_UnixNano
                   (after env storage_NewWriter (after env inspectDst' w_open))))
    as Hcalls.
  destruct (run env (iterate_files (copy_append fsw tag) (fileset.files mapped) tt) _)
    as [o wi ti].
  cbn [outcome trace] in Hiter, Hcalls. subst o.
  unfold then_run; cbn [outcome world trace fst snd bind].
  rewrite Hpanics. cbn [bind]. rewrite run_Panic.
  unfold then_deferred; cbn [logged outcome world trace].
  rewrite run_call_bind, run_Return. cbn [logged outcome world trace].
  split; [reflexivity|].
  exists ti. split; [exact Hcalls|].
  cbn [app]. rewrite app_nil_r. reflexivity.
Qed.

(** ** Siblings that share a prefix *)

Lemma eqb_app_nonempty (p : string) (c : ascii) (s : string) :
  (p ++ String c s =? p)%string = false.
Proof.
  induction p as [|a p IH]; cbn; [reflexivity|].
  rewrite IH. now destruct (Ascii.eqb a a).
Qed.

Lemma HasPrefix_app_cancel (p a b : string) :
  strings.HasPrefix (p ++ a) (p ++ b) = strings.HasPrefix a b.
Proof.
  unfold strings.HasPrefix. induction p as [|x p IH]; cbn [String.append String.prefix];
    [reflexivity|].
  destruct (ascii_dec x x); [exact IH | congruence].
Qed.

Lemma eqb_app_cancel (p a b : string) :
  (p ++ a =? p ++ b)%string = (a =? b)%string.
Proof.
  induction p as [|x p IH]; cbn; [reflexivity|].
  now rewrite Ascii.eqb_refl.
Qed.

(** X29.  An entry next to a path is not below it.  For a path [p] and an entry
    at [p] followed by characters that do not start with "/" (the sibling
    "/dir2" of "/dir"): the filters of [copyFile], [inspectFile] (and
    [walkFile]) and [diffFile] drop the entry, so copying, inspecting,
    walking or diffing [p] never touches it; the filter of [listFile]
    keeps it (what remains to tell it from a child is [pathIsChild]). *)
Theorem sibling_sharing_a_prefix
    (p rest : string) (c : ascii) (tag : string) (deleted : bool) :
  c <> "/"%char ->
  let idx := index.mkIndex (p ++ String c rest) tag deleted in
  fst (copy_filter p idx tt) = false
  /\ fst (inspect_filter p idx tt) = false
  /\ fst (diff_filter p idx tt) = false
  /\ fst (list_filter p idx tt) = true.
Proof.
  intros Hc idx. subst idx.
  assert (Hbelow : strings.HasPrefix (p ++ String c rest) (p ++ "/") = false).
  { rewrite HasPrefix_app_cancel. unfold strings.HasPrefix. cbn [String.prefix].
    destruct (ascii_dec "/" c); [congruence | reflexivity]. }
  unfold copy_filter, inspect_filter, diff_filter, list_filter. cbn [fst index.Path].
  rewrite eqb_app_nonempty, Hbelow. cbn [orb].
  repeat split.
  replace (p ++ String c rest =? "/")%string with false.
  - replace (p ++ String c rest =? p ++ "/")%string with false.
    + apply HasPrefix_app.
    + symmetry. rewrite eqb_app_cancel. cbn.
      destruct (Ascii.eqb_spec c "/"); [congruence | reflexivity].
  - symmetry. destruct p as [|x p]; cbn.
    + destruct (Ascii.eqb_spec c "/"); [congruence | reflexivity].
    + destruct (x =? "/")%char; [|reflexivity]. now destruct p.
Qed.

(** ** Writing through a branch *)









(** ** The further theorems on concrete inputs *)

Lemma withCommitWriter_nil_means_added_witness :
  exists t,
    trace (run mem.env (withCommitWriter mem.open_commit (fun _ _ => Return None))
               mem.initial) =
    (t ++ [Writer_Close 0; commitStore_AddFileset mem.open_commit mem.sealed_id;
           Writer_Close 0])%list.
Proof.
  destruct (withCommitWriter_nil_means_added mem.env mem.initial mem.open_commit
              (fun _ _ => Return None) eq_refl)
    as (commitInfo & id & t & Hinspect & _ & _ & Hclose & Htrace).
  injection Hinspect as <-. injection Hclose as <-.
  exists t. exact Htrace.
Defined.

Lemma withCommitWriter_error_precedence_witness :
  run mem.env
    (withCommitWriter mem.open_commit (fun _ _ => Return (Some (external "disk full"))))
    mem.initial =
  mkRun (Returned (Some (external "disk full")))
        (after mem.env time_Now_UnixNano mem.initial)
        [inspectCommit mem.open_commit pfs.CommitState_STARTED; storage_NewWriter;
         time_Now_UnixNano; Writer_Close 0]
  /\ outcome (run (faulty.env faulty.second_close_fails)
                (withCommitWriter mem.open_commit (fun _ _ => Return None))
                (faulty.initial faulty.second_close_fails)) =
     Returned (Some (external "writer already closed"))
  /\ trace (run (faulty.env faulty.second_close_fails)
              (withCommitWriter mem.open_commit (fun _ _ => Return None))
              (faulty.initial faulty.second_close_fails)) =
     [inspectCommit mem.open_commit pfs.CommitState_STARTED; storage_NewWriter;
      time_Now_UnixNano; Writer_Close 0;
      commitStore_AddFileset mem.open_commit mem.sealed_id; Writer_Close 0].
Proof.
  split.
  - exact (proj1 (withCommitWriter_error_precedence mem.env mem.initial mem.open_commit
                    (fun _ _ => Return (Some (external "disk full"))) mem.open_info
                    eq_refl eq_refl)
             (external "disk full") eq_refl).
  - rewrite (proj2 (withCommitWriter_error_precedence
                      (faulty.env faulty.second_close_fails)
                      (faulty.initial faulty.second_close_fails) mem.open_commit
                      (fun _ _ => Return None) mem.open_info eq_refl eq_refl)
               mem.sealed_id (external "writer already closed")
               eq_refl eq_refl eq_refl eq_refl).
    split; reflexivity.
Defined.

Lemma withTmpUnorderedWriter_renews_what_it_returns_witness :
  renewed (trace (run mem.env (withTmpUnorderedWriter mem.imports 3 false mem.put_b)
                      mem.initial)) = [(3%nat, mem.sealed_id)]
  /\ renewed (trace (run mem.env
                       (withTmpUnorderedWriter mem.imports 3 false mem_more.disk_full)
                       mem.initial)) = []
  /\ renewed (trace (run mem.env
                       (withTmpUnorderedWriter mem.imports 3 true mem_more.crash)
                       mem.initial)) = [].
Proof.
  split; [|split].
  - exact (withTmpUnorderedWriter_renews_what_it_returns mem.imports mem.env mem.initial
             3%nat false mem.put_b (fun _ _ => eq_refl)).
  - exact (withTmpUnorderedWriter_renews_what_it_returns mem.imports mem.env mem.initial
             3%nat false mem_more.disk_full (fun _ _ => eq_refl)).
  - exact (withTmpUnorderedWriter_renews_what_it_returns mem.imports mem.env mem.initial
             3%nat true mem_more.crash (fun _ _ => eq_refl)).
Defined.

Lemma withTmpUnorderedWriter_returns_sealed_id_witness :
  trace (run (faulty.env faulty.compacts)
           (withTmpUnorderedWriter mem.imports 3 true mem.put_b)
           (faulty.initial faulty.compacts)) =
  [time_Now_UnixNano;
   storage_NewUnorderedWriter "%012d1600000000000000000"
     [fileset.WithRenewal (600 * time.Second) 3];
   UnorderedWriter_Put 0 "/b.txt" "B";
   UnorderedWriter_Close 0;
   storage_Compact [mem.sealed_id] (600 * time.Second);
   renewer_Add 3 faulty.compacted_id].
Proof.
  destruct (withTmpUnorderedWriter_returns_sealed_id mem.imports
              (faulty.env faulty.compacts) (faulty.initial faulty.compacts)
              3%nat true mem.put_b faulty.compacted_id eq_refl)
    as (uw & raw & Hnew & _ & Hclose & _ & Htrace).
  injection Hnew as <-. injection Hclose as <-. exact Htrace.
Defined.

Lemma withCommitUnorderedWriter_adds_inside_renewal_witness :
  exists t e,
    trace (run mem.env (withCommitUnorderedWriter mem.imports mem.open_commit mem.put_b)
               mem.initial) =
    (storage_WithRenewer_begin (600 * time.Second) :: t
     ++ [renewer_Add 0 mem.sealed_id;
         inspectCommit mem.open_commit pfs.CommitState_STARTED;
         commitStore_AddFileset mem.open_commit mem.sealed_id;
         storage_WithRenewer_end 0 e])%list.
Proof.
  destruct (withCommitUnorderedWriter_adds_inside_renewal mem.imports mem.env mem.initial
              mem.open_commit mem.put_b mem.open_commit mem.sealed_id)
    as (t & commitInfo & w' & e & _ & _ & _ & Htrace).
  - intros uw w' [H|[]]. discriminate H.
  - cbn. intuition.
  - exists t, e. exact Htrace.
Defined.

Lemma withCommitUnorderedWriter_finished_commit_found_late_witness :
  run mem.env (withCommitUnorderedWriter mem.imports mem.done_commit mem.put_b) mem.initial =
  mkRun (Returned (Some (ErrCommitFinished mem.done_commit)))
        (after mem.env (UnorderedWriter_Put 0 "/b.txt" "B")
           (after mem.env time_Now_UnixNano mem.initial))
        [storage_WithRenewer_begin (600 * time.Second);
         time_Now_UnixNano;
         storage_NewUnorderedWriter "%012d1600000000000000000"
           [fileset.WithRenewal (600 * time.Second) 0];
         UnorderedWriter_Put 0 "/b.txt" "B";
         UnorderedWriter_Close 0;
         renewer_Add 0 mem.sealed_id;
         inspectCommit mem.done_commit pfs.CommitState_STARTED;
         storage_WithRenewer_end 0 (Some (ErrCommitFinished mem.done_commit))].
Proof.
  exact (proj1 (withCommitUnorderedWriter_finished_commit_found_late mem.imports mem.env
                  mem.initial mem.done_commit mem.put_b mem.sealed_id mem.done_info
                  eq_refl eq_refl ltac:(discriminate))).
Defined.

Lemma oneOffModifyFile_failure_leaves_commit_open_witness :
  run (faulty.env faulty.start_fails)
    (oneOffModifyFile mem.imports "repo" "master" mem.put_b)
    (faulty.initial faulty.start_fails) =
  mkRun (Returned (Some (external "branch is locked")))
        (faulty.after_calls faulty.start_fails 3 mem.initial)
        [WithWriteContext_begin;
         startCommit 0 "" (client.NewCommit "repo" "") "master" [] "";
         WithWriteContext_end 0 (Some (external "branch is locked"))]
  /\ outcome (run mem.env (oneOffModifyFile mem.imports "repo" "master" mem_more.disk_full)
                  mem.initial) = Returned (Some (external "disk full"))
  /\ trace (run mem.env (oneOffModifyFile mem.imports "repo" "master" mem_more.disk_full)
                mem.initial) =
     [WithWriteContext_begin;
      startCommit 0 "" (client.NewCommit "repo" "") "master" [] "";
      storage_WithRenewer_begin (600 * time.Second);
      time_Now_UnixNano;
      storage_NewUnorderedWriter "%012d1600000000000000000"
        [fileset.WithRenewal (600 * time.Second) 0];
      storage_WithRenewer_end 0 (Some (external "disk full"));
      WithWriteContext_end 0 (Some (external "disk full"))].
Proof.
  split.
  - exact (proj1 (oneOffModifyFile_failure_leaves_commit_open mem.imports
                    (faulty.env faulty.start_fails) (faulty.initial faulty.start_fails)
                    "repo" "master" mem.put_b)
             (external "branch is locked") eq_refl).
  - rewrite (proj2 (oneOffModifyFile_failure_leaves_commit_open mem.imports mem.env
                      mem.initial "repo" "master" mem_more.disk_full)
               mem.fresh (external "disk full") eq_refl eq_refl).
    split; reflexivity.
Defined.

Lemma oneOffModifyFile_panic_finishes_commit_witness :
  outcome (run mem.env (oneOffModifyFile mem.imports "repo" "master" mem_more.crash)
               mem.initial) = Panicked "index out of range"
  /\ trace (run mem.env (oneOffModifyFile mem.imports "repo" "master" mem_more.crash)
                mem.initial) =
     [WithWriteContext_begin;
      startCommit 0 "" (client.NewCommit "repo" "") "master" [] "";
      storage_WithRenewer_begin (600 * time.Second);
      time_Now_UnixNano;
      storage_NewUnorderedWriter "%012d1600000000000000000"
        [fileset.WithRenewal (600 * time.Second) 0];
      finishCommit 0 mem.fresh ""].
Proof.
  rewrite (oneOffModifyFile_panic_finishes_commit mem.imports mem.env mem.initial
             "repo" "master" mem_more.crash mem.fresh "index out of range"
             eq_refl eq_refl).
  split; reflexivity.
Defined.

Lemma modifyFile_failed_inspection_witness :
  run (faulty.env faulty.inspect_fails)
    (modifyFile mem.imports mem.master_branch mem.put_b)
    (faulty.initial faulty.inspect_fails) =
  mkRun (Returned (Some (external "etcd unavailable")))
        (faulty.after_calls faulty.inspect_fails 1 mem.initial)
        [inspectCommit mem.master_branch pfs.CommitState_STARTED].
Proof.
  exact (proj1 (proj1 (modifyFile_failed_inspection mem.imports
                         (faulty.env faulty.inspect_fails)
                         (faulty.initial faulty.inspect_fails)
                         mem.master_branch mem.put_b (external "etcd unavailable")
                         eq_refl))
           eq_refl).
Defined.

Lemma modifyFile_open_commit_in_place_witness :
  trace (run mem.env (modifyFile mem.imports mem.open_commit mem.put_b) mem.initial) =
  [inspectCommit mem.open_commit pfs.CommitState_STARTED;
   storage_WithRenewer_begin (600 * time.Second);
   time_Now_UnixNano;
   storage_NewUnorderedWriter "%012d1600000000000000000"
     [fileset.WithRenewal (600 * time.Second) 0];
   UnorderedWriter_Put 0 "/b.txt" "B";
   UnorderedWriter_Close 0;
   renewer_Add 0 mem.sealed_id;
   inspectCommit mem.open_commit pfs.CommitState_STARTED;
   commitStore_AddFileset mem.open_commit mem.sealed_id;
   storage_WithRenewer_end 0 None].
Proof.
  rewrite (proj1 (modifyFile_open_commit_in_place mem.imports mem.env mem.initial
                    mem.open_commit mem.put_b mem.open_info eq_refl eq_refl)).
  reflexivity.
Defined.

Lemma copyFile_checks_the_source_reader_only_witness :
  run mem.env (copyFile mem.imports (pfs.mkFile mem.done_commit "/dir")
                 (pfs.mkFile mem.open_commit "/new") false) mem.locked =
  mkRun (Returned (Some (external "not authorized"))) mem.locked
        [inspectCommit mem.done_commit pfs.CommitState_STARTED;
         inspectCommit mem.open_commit pfs.CommitState_STARTED;
         CheckIsAuthorized mem.repo auth.Scope_READER].
Proof.
  exact (proj2 (copyFile_checks_the_source_reader_only mem.imports mem.env mem.locked
                  (pfs.mkFile mem.done_commit "/dir") (pfs.mkFile mem.open_commit "/new")
                  false)
           mem.done_info mem.open_info (external "not authorized")
           eq_refl ltac:(discriminate) eq_refl eq_refl eq_refl).
Defined.

Lemma diffFile_old_side_witness :
  run mem.env
    (diffFile mem.imports mem_more.no_differ None
       (Some (nilable.mkFile (Some (nilable.mkCommit (Some mem.repo)
                                      "22222222222222222222222222222222")) "/dir"))
       (fun _ _ => Return None))
    mem.initial =
  mkRun (Returned None) mem.initial
        [CheckIsAuthorized mem.repo auth.Scope_READER;
         inspectCommit mem.done_commit pfs.CommitState_STARTED;
         CheckIsAuthorized mem.repo auth.Scope_READER;
         inspectCommit mem.done_commit pfs.CommitState_STARTED;
         commitStore_GetFileset mem.done_commit;
         storage_Open [mem.sealed_id] [index.WithPrefix "/dir"]].
Proof.
  rewrite (proj1 (diffFile_old_side mem.imports mem_more.no_differ mem.env mem.initial
                    mem.repo "22222222222222222222222222222222" "/dir"
                    (fun _ _ => Return None) mem.done_info eq_refl eq_refl)
             eq_refl).
  reflexivity.
Defined.

Lemma diffFile_unfinished_new_commit_witness :
  run mem.env
    (diffFile mem.imports mem_more.no_differ None
       (Some (nilable.mkFile (Some (nilable.mkCommit (Some mem.repo)
                                      "33333333333333333333333333333333")) "/"))
       (fun _ _ => Return None))
    mem_more.with_orphan =
  mkRun (Returned (Some (ErrCommitNotFinished mem_more.orphan))) mem_more.with_orphan
        [CheckIsAuthorized mem.repo auth.Scope_READER;
         inspectCommit mem_more.orphan pfs.CommitState_STARTED;
         CheckIsAuthorized mem.repo auth.Scope_READER;
         inspectCommit mem_more.orphan pfs.CommitState_STARTED].
Proof.
  exact (diffFile_unfinished_new_commit mem.imports mem_more.no_differ mem.env
           mem_more.with_orphan mem.repo "33333333333333333333333333333333" "/"
           (fun _ _ => Return None)
           (pfs.mkCommitInfo mem_more.orphan None None)
           (pfs.mkCommitInfo mem_more.orphan None None)
           eq_refl eq_refl eq_refl eq_refl eq_refl eq_refl).
Defined.

Lemma createFileset_touches_no_commit_witness :
  match storage_WithRenewer_begin (600 * time.Second) with
  | inspectCommit _ _ | startCommit _ _ _ _ _ _ | finishCommit _ _ _
  | WithWriteContext_begin | WithWriteContext_conflict _ | WithWriteContext_end _ _
  | commitStore_AddFileset _ _ | commitStore_GetFileset _ => False
  | _ => True
  end
  /\ trace (run mem.env (createFileset mem.imports mem.put_b) mem.initial) =
     [storage_WithRenewer_begin (600 * time.Second);
      time_Now_UnixNano;
      storage_NewUnorderedWriter "%012d1600000000000000000"
        [fileset.WithRenewal (600 * time.Second) 0];
      UnorderedWriter_Put 0 "/b.txt" "B";
      UnorderedWriter_Close 0;
      renewer_Add 0 mem.sealed_id;
      storage_WithRenewer_end 0 None].
Proof.
  split; [|reflexivity].
  destruct (createFileset_touches_no_commit mem.imports mem.env mem.initial mem.put_b
              (storage_WithRenewer_begin (600 * time.Second))) as [(uw & w' & H)|H].
  - now left.
  - exact I.
  - exact H.
Defined.

Lemma getDefaultTag_same_tag_same_time_witness :
  reply mem.env time_Now_UnixNano mem.initial = reply mem.env time_Now_UnixNano mem.locked.
Proof.
  exact (getDefaultTag_same_tag_same_time mem.env mem.initial mem.locked eq_refl).
Defined.

Lemma openCommit_success_witness :
  exists id,
    run mem.env (openCommit mem.master_branch [index.WithPrefix "/dir"]) mem.initial =
    mkRun (Returned (Ok (mem.done_commit,
                         fileset.of_list [mem.entry "/dir/x" "X"; mem.entry "/dir/y" "Y"])))
          mem.initial
          [CheckIsAuthorized mem.repo auth.Scope_READER;
           inspectCommit mem.master_branch pfs.CommitState_STARTED;
           commitStore_GetFileset mem.done_commit;
           storage_Open [id] [index.WithPrefix "/dir"]].
Proof.
  destruct (openCommit_success mem.env mem.initial mem.master_branch
              [index.WithPrefix "/dir"] mem.done_commit
              (fileset.of_list [mem.entry "/dir/x" "X"; mem.entry "/dir/y" "Y"]) eq_refl)
    as (commitInfo & id & _ & _ & _ & _ & _ & _ & Hrun).
  exists id. exact Hrun.
Defined.

Lemma globFile_calls_back_on_matches_witness :
  trace (run mem.env (globFile mem.imports mem.done_commit "/dir/x" mem_more.note_path)
             mem.initial) =
  [CheckIsAuthorized mem.repo auth.Scope_READER;
   inspectCommit mem.done_commit pfs.CommitState_STARTED;
   commitStore_GetFileset mem.done_commit;
   storage_Open [mem.sealed_id] [index.WithPrefix "/dir/x"];
   UnorderedWriter_Put 0 "/dir/x" ""].
Proof.
  rewrite (globFile_calls_back_on_matches mem.imports mem.env mem.initial mem.done_commit
             "/dir/x" mem_more.note_path (index.WithPrefix "/dir/x")
             (fun p => (p =? "/dir/x")%string) eq_refl).
  - reflexivity.
  - intros c fs H. injection H as <- <-. reflexivity.
Defined.

Lemma listFile_calls_back_on_children_witness :
  trace (run mem.env
           (listFile mem.imports (pfs.mkFile mem.done_commit "/dir") true mem_more.note_path)
           mem.initial) =
  [CheckIsAuthorized mem.repo auth.Scope_READER;
   inspectCommit mem.done_commit pfs.CommitState_STARTED;
   commitStore_GetFileset mem.done_commit;
   storage_Open [mem.sealed_id] [index.WithPrefix "/dir"];
   UnorderedWriter_Put 0 "/dir/x" "";
   UnorderedWriter_Put 0 "/dir/y" ""].
Proof.
  rewrite (listFile_calls_back_on_children mem.imports mem.env mem.initial
             (pfs.mkFile mem.done_commit "/dir") true mem_more.note_path).
  - reflexivity.
  - intros c fs H. injection H as <- <-. reflexivity.
Defined.

Lemma walkFile_calls_back_below_witness :
  trace (run mem.env
           (walkFile mem.imports (pfs.mkFile mem.done_commit "/dir") mem_more.note_path)
           mem.initial) =
  [CheckIsAuthorized mem.repo auth.Scope_READER;
   inspectCommit mem.done_commit pfs.CommitState_STARTED;
   commitStore_GetFileset mem.done_commit;
   storage_Open [mem.sealed_id] [index.WithPrefix "/dir"];
   UnorderedWriter_Put 0 "/dir/" "";
   UnorderedWriter_Put 0 "/dir/x" "";
   UnorderedWriter_Put 0 "/dir/y" ""]
  /\ outcome (run mem.env
                (walkFile mem.imports (pfs.mkFile mem.done_commit "/nowhere")
                   mem_more.note_path)
                mem.initial) =
     Returned (Some (ErrFileNotFound (pfs.mkFile mem.done_commit "/nowhere"))).
Proof.
  split.
  - rewrite (walkFile_calls_back_below mem.imports mem.env mem.initial
               (pfs.mkFile mem.done_commit "/dir") mem_more.note_path).
    + reflexivity.
    + intros c fs H. injection H as <- <-. reflexivity.
  - rewrite (walkFile_calls_back_below mem.imports mem.env mem.initial
               (pfs.mkFile mem.done_commit "/nowhere") mem_more.note_path).
    + reflexivity.
    + intros c fs H. injection H as <- <-. reflexivity.
Defined.

Lemma inspectFile_returns_the_entry_at_the_path_witness :
  outcome (run mem.env (inspectFile mem.imports (pfs.mkFile mem.done_commit "/dir"))
               mem.initial) =
    Returned (Ok (Some (pfs.mkFileInfo (pfs.mkFile mem.done_commit "/dir/"))))
  /\ outcome (run mem.env (inspectFile mem.imports (pfs.mkFile mem.done_commit "/a.txt"))
                  mem.initial) =
     Returned (Ok (Some (pfs.mkFileInfo (pfs.mkFile mem.done_commit "/a.txt")))).
Proof.
  split.
  - rewrite (inspectFile_returns_the_entry_at_the_path mem.imports mem.env mem.initial
               (pfs.mkFile mem.done_commit "/dir")).
    + reflexivity.
    + intros c fs H. injection H as <- <-. reflexivity.
  - rewrite (inspectFile_returns_the_entry_at_the_path mem.imports mem.env mem.initial
               (pfs.mkFile mem.done_commit "/a.txt")).
    + reflexivity.
    + intros c fs H. injection H as <- <-. reflexivity.
Defined.

Lemma copyFile_panics_when_a_path_cannot_be_rebased_witness :
  outcome (run mem.env
             (copyFile mem_more.no_rel (pfs.mkFile mem.done_commit "/dir")
                (pfs.mkFile mem.open_commit "/new") false)
             mem.initial) = Panicked "cannot apply path transform"
  /\ exists appends,
       trace (run mem.env
                (copyFile mem_more.no_rel (pfs.mkFile mem.done_commit "/dir")
                   (pfs.mkFile mem.open_commit "/new") false)
                mem.initial) =
       ([inspectCommit mem.done_commit pfs.CommitState_STARTED;
         inspectCommit mem.open_commit pfs.CommitState_STARTED;
         CheckIsAuthorized mem.repo auth.Scope_READER;
         inspectCommit mem.done_commit pfs.CommitState_STARTED;
         commitStore_GetFileset mem.done_commit;
         storage_Open [mem.sealed_id] [index.WithPrefix "/dir"];
         inspectCommit mem.open_commit pfs.CommitState_STARTED;
         storage_NewWriter; time_Now_UnixNano]
        ++ appends ++ [Writer_Close 0])%list.
Proof.
  destruct (copyFile_panics_when_a_path_cannot_be_rebased mem_more.no_rel mem.env
              mem.initial (pfs.mkFile mem.done_commit "/dir")
              (pfs.mkFile mem.open_commit "/new")
              mem.done_info mem.open_info mem.open_info mem.done_commit
              (fileset.of_list [mem.entry "/dir/x" "X"; mem.entry "/dir/y" "Y"])
              mem.initial
              [CheckIsAuthorized mem.repo auth.Scope_READER;
               inspectCommit mem.done_commit pfs.CommitState_STARTED;
               commitStore_GetFileset mem.done_commit;
               storage_Open [mem.sealed_id] [index.WithPrefix "/dir"]]
              eq_refl ltac:(discriminate) eq_refl eq_refl eq_refl eq_refl eq_refl eq_refl)
    as (Hout & appends & _ & Htrace).
  - exists (mem.entry "/dir/x" "X"), (external "Rel: can't make relative").
    split; [now left | reflexivity].
  - intros w' fsw p tag f. reflexivity.
  - split; [exact Hout|]. exists appends. exact Htrace.
Defined.

Lemma sibling_sharing_a_prefix_witness :
  fst (copy_filter "/dir" (index.mkIndex "/dir2" "" false) tt) = false
  /\ fst (inspect_filter "/dir" (index.mkIndex "/dir2" "" false) tt) = false
  /\ fst (diff_filter "/dir" (index.mkIndex "/dir2" "" false) tt) = false
  /\ fst (list_filter "/dir" (index.mkIndex "/dir2" "" false) tt) = true.
Proof.
  apply (sibling_sharing_a_prefix "/dir" "" "2" "" false). discriminate.
Defined.
